(** * Air-quality rule classifier and metrics engine (aqi_predictor.cpp)

    A shallow embedding of the labelling rules, the per-label metrics and
    the evaluation driver of [aqi_predictor.cpp].

    - C++ [double] is the kernel's binary64 [float]; its operations are the
      IEEE-754 ones (round to nearest, ties to even), specified by
      [FloatAxioms] over [SpecFloat].
    - C++ [int] is a [Z] in the 32-bit two's-complement range; narrowing and
      increments are written with their wrap-around ([Int.wrap]).
    - [std::vector<int>] is a [list Z]; an index outside the vector is
      undefined behaviour in C++ and [None] here. *)

From Stdlib Require Import String Ascii.
From Stdlib Require Import ZArith List Lia Bool Floats Uint63.
From Stdlib Require Import Permutation.
Import ListNotations.

#[local] Set Warnings "-inexact-float".
#[local] Open Scope Z_scope.

(** ** 32-bit [int] *)

Module Int.

Definition INT_MIN : Z := -2147483648.
Definition INT_MAX : Z := 2147483647.

(** Reduction of an integer to the [int] range (two's complement). *)
Definition wrap (z : Z) : Z := (z + 2147483648) mod 4294967296 - 2147483648.

(** [c++] on an [int] counter. *)
Definition incr (c : Z) : Z := wrap (c + 1).

(** [int n = v.size()]: narrowing of a [size_t]. *)
Definition of_size (n : nat) : Z := wrap (Z.of_nat n).

Definition in_range (z : Z) : Prop := INT_MIN <= z <= INT_MAX.

End Int.

(** ** Conversions between [int], [size_t] and [double] *)

(** [(double)z] for an [int] [z]: exact, the magnitude is below [2^53]. *)
Definition double_of_int (z : Z) : float :=
  if z <? 0 then (- of_uint63 (Uint63.of_Z (- z)))%float
  else of_uint63 (Uint63.of_Z z).

(** [(double)n] for a [size_t] [n] (a vector's size stays below [2^63]). *)
Definition double_of_size (n : nat) : float :=
  of_uint63 (Uint63.of_Z (Z.of_nat n)).

(** ** Data structures *)

Record Sample := mkSample {
  Temperature : float;
  Humidity : float;
  CO2 : float;
  PM2_5 : float;
  PM10 : float;
  NO2 : float;
  O3 : float;
  WindSpeed : float;
  CityType : Z;      (* 0 = Rural, 1 = Urban *)
  AQI_Level : Z;     (* 0 Good, 1 Moderate, 2 Unhealthy, 3 Hazardous *)
  Health_Risk : Z    (* 0 Low, 1 Medium, 2 High *)
}.

Definition set_AQI_Level (s : Sample) (v : Z) : Sample :=
  mkSample (Temperature s) (Humidity s) (CO2 s) (PM2_5 s) (PM10 s) (NO2 s)
           (O3 s) (WindSpeed s) (CityType s) v (Health_Risk s).

Definition set_Health_Risk (s : Sample) (v : Z) : Sample :=
  mkSample (Temperature s) (Humidity s) (CO2 s) (PM2_5 s) (PM10 s) (NO2 s)
           (O3 s) (WindSpeed s) (CityType s) (AQI_Level s) v.

(** ** Labeling logic *)

(** The local [score] of [compute_aqi_level]: the weighted pollutant sum,
    evaluated left to right in [double] arithmetic. *)
Definition aqi_score (s : Sample) : float :=
  (0.3 * PM2_5 s + 0.2 * PM10 s + 0.1 * NO2 s + 0.05 * O3 s)%float.

Definition compute_aqi_level (s : Sample) : Z :=
  let score := aqi_score s in
  if (score <? 50)%float then 0
  else if (score <? 100)%float then 1
  else if (score <? 200)%float then 2
  else 3.

Definition compute_health_risk (s : Sample) : Z :=
  let aqi := AQI_Level s in
  if aqi =? 0 then 0
  else if aqi =? 1 then 1
  else if (aqi =? 2) && (CityType s =? 1) then 2
  else
    (* for hazardous or tricky cases, bias toward higher risk in urban areas *)
    if aqi =? 3 then 2
    else if CityType s =? 1 then 2 else 1.

(** ** Metrics *)

Record Metrics := mkMetrics {
  precision : float;
  recall : float;
  f1 : float;
  support : Z
}.

(** The three counters of the first loop of [compute_metrics_for_label]. *)
Record Confusion := mkConfusion { tp : Z; fp : Z; fn : Z }.

(** One iteration of [for (int i = 0; i < n; ++i)]: the two reads
    [y_true[i]] and [y_pred[i]], then the three guarded increments. *)
Definition confusion_step (y_true y_pred : list Z) (label : Z) (i : Z)
  (c : Confusion) : option Confusion :=
  match nth_error y_true (Z.to_nat i), nth_error y_pred (Z.to_nat i) with
  | Some a, Some b =>
      let t := a =? label in
      let p := b =? label in
      let tp1 := if t && p then Int.incr (tp c) else tp c in
      let fp1 := if negb t && p then Int.incr (fp c) else fp c in
      let fn1 := if t && negb p then Int.incr (fn c) else fn c in
      Some (mkConfusion tp1 fp1 fn1)
  | _, _ => None
  end.

(** The loop itself, [steps] iterations left, at index [i]. *)
Fixpoint confusion_loop (steps : nat) (y_true y_pred : list Z) (label : Z)
  (i : Z) (c : Confusion) : option Confusion :=
  match steps with
  | O => Some c
  | S k =>
      match confusion_step y_true y_pred label i c with
      | Some c' => confusion_loop k y_true y_pred label (Int.incr i) c'
      | None => None
      end
  end.

(** [for (int v : y_true) if (v == label) m.support++;] *)
Definition support_loop (y_true : list Z) (label : Z) : Z :=
  fold_left (fun sup v => if v =? label then Int.incr sup else sup) y_true 0.

Definition compute_metrics_for_label (y_true y_pred : list Z) (label : Z)
  : option Metrics :=
  let n := Int.of_size (length y_true) in
  match confusion_loop (Z.to_nat n) y_true y_pred label 0 (mkConfusion 0 0 0) with
  | None => None
  | Some c =>
      let sup := support_loop y_true label in
      let tp_fp := Int.wrap (tp c + fp c) in
      let tp_fn := Int.wrap (tp c + fn c) in
      let prec_ :=
        if tp_fp =? 0 then 0%float
        else (double_of_int (tp c) / double_of_int tp_fp)%float in
      let rec_ :=
        if tp_fn =? 0 then 0%float
        else (double_of_int (tp c) / double_of_int tp_fn)%float in
      let f1_ :=
        if (prec_ + rec_ =? 0)%float then 0%float
        else (2 * prec_ * rec_ / (prec_ + rec_))%float in
      Some (mkMetrics prec_ rec_ f1_ sup)
  end.

(** Overall accuracy, as [main] computes it twice (for the AQI labels and
    for the health-risk labels):
    [for (size_t i = 0; i < y_true.size(); ++i) if (y_true[i] == y_pred[i]) correct++;]
    then [(double)correct / y_true.size()]. *)
Fixpoint correct_loop (steps i : nat) (y_true y_pred : list Z) (correct : Z)
  : option Z :=
  match steps with
  | O => Some correct
  | S k =>
      match nth_error y_true i, nth_error y_pred i with
      | Some a, Some b =>
          correct_loop k (S i) y_true y_pred
            (if a =? b then Int.incr correct else correct)
      | _, _ => None
      end
  end.

Definition accuracy (y_true y_pred : list Z) : option float :=
  match correct_loop (length y_true) 0 y_true y_pred 0 with
  | Some correct =>
      Some (double_of_int correct / double_of_size (length y_true))%float
  | None => None
  end.

(** ** Main flow: constants and the labelling step *)

(** [(int)x] for a [double] [x]: truncation toward zero (defined by C++
    only when the truncated value fits an [int]; [main] uses it once, on
    [0.8 * N]). *)
Definition int_of_double (x : float) : Z :=
  match Prim2SF x with
  | S754_finite s m e =>
      let mag := if 0 <=? e then Zpos m * 2 ^ e else Zpos m / 2 ^ (- e) in
      if s then - mag else mag
  | _ => 0
  end.

Definition N : Z := 1500.

Definition train_size : Z := int_of_double (0.8 * double_of_int N)%float.

(** The labelling step shared by the generation loop and the interactive
    query: [s.AQI_Level = compute_aqi_level(s); s.Health_Risk = compute_health_risk(s);] *)
Definition label_sample (s : Sample) : Sample :=
  let s1 := set_AQI_Level s (compute_aqi_level s) in
  set_Health_Risk s1 (compute_health_risk s1).

(** ** Main flow: interactive single-sample prediction (step 5) *)

(** *** Formatted extraction from the input line

    [iss >> double] and [iss >> int] in the classic locale: leading white
    space is skipped, the longest prefix that has the shape of a number is
    consumed and converted, correctly rounded; the stream fails when that
    prefix is no number or the value is out of range. *)

Definition is_space (c : ascii) : bool :=
  let n := Z.of_N (N_of_ascii c) in (n =? 32) || ((9 <=? n) && (n <=? 13)).

Definition digit_of (c : ascii) : option Z :=
  let n := Z.of_N (N_of_ascii c) in
  if (48 <=? n) && (n <=? 57) then Some (n - 48) else None.

Fixpoint skip_ws (l : list ascii) : list ascii :=
  match l with
  | c :: rest => if is_space c then skip_ws rest else l
  | [] => []
  end.

(** Decimal digits at the head of [l], accumulated on [value]; [count]
    counts them. *)
Fixpoint read_digits (l : list ascii) (value count : Z) : Z * Z * list ascii :=
  match l with
  | c :: rest =>
      match digit_of c with
      | Some d => read_digits rest (10 * value + d) (count + 1)
      | None => (value, count, l)
      end
  | [] => (value, count, l)
  end.

Definition read_sign (l : list ascii) : bool * list ascii :=
  match l with
  | c :: rest =>
      if Ascii.eqb c "-" then (true, rest)
      else if Ascii.eqb c "+" then (false, rest)
      else (false, l)
  | [] => (false, l)
  end.

(** The binary64 value nearest to [mant * 10 ^ exp10] ([mant >= 0]). *)
Definition decimal_to_double (neg : bool) (mant exp10 : Z) : spec_float :=
  if mant =? 0 then S754_zero neg
  else if 0 <=? exp10 then
    binary_normalize prec emax (cond_Zopp neg (mant * 10 ^ exp10)) 0 false
  else
    SFdiv prec emax (S754_finite neg (Z.to_pos mant) 0)
                    (S754_finite false (Z.to_pos (10 ^ (- exp10))) 0).

Definition extract_double (l : list ascii) : option (float * list ascii) :=
  match skip_ws l with
  | [] => None
  | l0 =>
      let '(neg, l1) := read_sign l0 in
      let '(ival, icount, l2) := read_digits l1 0 0 in
      let '(mant, fcount, l3) :=
        match l2 with
        | c :: rest =>
            if Ascii.eqb c "." then read_digits rest ival 0 else (ival, 0, l2)
        | [] => (ival, 0, l2)
        end in
      if icount + fcount =? 0 then None
      else
        let '(exp_ok, e10, l4) :=
          match l3 with
          | c :: rest =>
              if Ascii.eqb c "e" || Ascii.eqb c "E" then
                let '(eneg, r1) := read_sign rest in
                let '(ev, ecount, r2) := read_digits r1 0 0 in
                (0 <? ecount, if eneg then - ev else ev, r2)
              else (true, 0, l3)
          | [] => (true, 0, l3)
          end in
        if exp_ok then
          match decimal_to_double neg mant (e10 - fcount) with
          | S754_infinity _ => None
          | x => Some (SF2Prim x, l4)
          end
        else None
  end.

Definition extract_int (l : list ascii) : option (Z * list ascii) :=
  match skip_ws l with
  | [] => None
  | l0 =>
      let '(neg, l1) := read_sign l0 in
      let '(v, count, l2) := read_digits l1 0 0 in
      let z := if neg then - v else v in
      if (0 <? count) && (Int.INT_MIN <=? z) && (z <=? Int.INT_MAX)
      then Some (z, l2) else None
  end.

Notation "' p <- e ;; k" :=
  (match e with Some p => k | None => None end)
  (at level 61, p pattern, e at next level, right associativity).

(** [iss >> s.Temperature >> s.Humidity >> s.CO2 >> s.PM2_5 >> s.PM10 >>
    s.NO2 >> s.O3 >> s.WindSpeed >> s.CityType]: [Some] of the sample with
    its nine fields set when the stream is still good after the ninth
    extraction, [None] when it failed. *)
Definition parse_sample (line : string) (s : Sample) : option Sample :=
  let l := list_ascii_of_string line in
  '(temperature, l) <- extract_double l ;;
  '(humidity, l) <- extract_double l ;;
  '(co2, l) <- extract_double l ;;
  '(pm2_5, l) <- extract_double l ;;
  '(pm10, l) <- extract_double l ;;
  '(no2, l) <- extract_double l ;;
  '(o3, l) <- extract_double l ;;
  '(wind, l) <- extract_double l ;;
  '(city, _) <- extract_int l ;;
  Some (mkSample temperature humidity co2 pm2_5 pm10 no2 o3 wind city
                 (AQI_Level s) (Health_Risk s)).

(** *** The query *)

(** [std::getline(cin, line)] on the lines still to be read; at the end of
    the input the line is left empty. *)
Definition getline (cin : list string) : string * list string :=
  match cin with
  | line :: rest => (line, rest)
  | [] => (EmptyString, [])
  end.

(** [getline(cin, line); if (line.empty()) getline(cin, line);] *)
Definition read_line (cin : list string) : string :=
  let '(line, cin1) := getline cin in
  if String.eqb line EmptyString then fst (getline cin1) else line.

(** The fixed demo sample, written over [s]. *)
Definition demo_sample (s : Sample) : Sample :=
  mkSample 33 65 550 150 180 80 60 3.5 1 (AQI_Level s) (Health_Risk s).

Definition AQI_labels : list string :=
  ["Good"; "Moderate"; "Unhealthy"; "Hazardous"]%string.

Definition HR_labels : list string := ["Low"; "Medium"; "High"]%string.

(** [a[i]] for a built-in array: outside the array it is undefined. *)
Definition array_at {A : Type} (a : list A) (i : Z) : option A :=
  if i <? 0 then None else nth_error a (Z.to_nat i).

Record Prediction := mkPrediction {
  query : Sample;              (* the sample [s], labelled *)
  use_demo : bool;
  invalid_notice : bool;       (* "Invalid input. Running demo sample." *)
  aqi_name : option string;    (* [AQI_labels[s.AQI_Level]] *)
  hr_name : option string      (* [HR_labels[s.Health_Risk]] *)
}.

(** Step 5 of [main], from the line read to the two printed labels. *)
Definition predict_line (uninit : Sample) (line : string) : Prediction :=
  let '(s, demo, notice) :=
    if String.eqb line "demo" then (demo_sample uninit, true, false)
    else
      match parse_sample line uninit with
      | Some s => (s, false, false)
      | None => (demo_sample uninit, true, true)
      end in
  let s := label_sample s in
  mkPrediction s demo notice
    (array_at AQI_labels (AQI_Level s)) (array_at HR_labels (Health_Risk s)).

Definition interactive (uninit : Sample) (cin : list string) : Prediction :=
  predict_line uninit (read_line cin).

(** The two predicted labels of a query. *)
Definition predicted_labels (p : Prediction) : Z * Z :=
  (AQI_Level (query p), Health_Risk (query p)).

(** ** Main flow: dataset, evaluation and [main] *)

Section Driver.

(** The random engine ([std::mt19937]) is a state of an unspecified type;
    the two standard distributions and [std::shuffle] draw from it. *)
Variable rng : Type.
Variable uniform_real_distribution : float -> float -> rng -> float * rng.
Variable uniform_int_distribution : Z -> Z -> rng -> Z * rng.
Variable shuffle : list Sample -> rng -> list Sample * rng.

(** The indeterminate contents of the [Sample s;] objects before their
    fields are set: [uninit i] for the one of iteration [i] of the
    generation loop, [uninit 1500] for the one of the interactive query. *)
Variable uninit : nat -> Sample.

Definition rnd_double (a b : float) (g : rng) : float * rng :=
  uniform_real_distribution a b g.

Definition rnd_int (a b : Z) (g : rng) : Z * rng :=
  uniform_int_distribution a b g.

(** The body of the generation loop, at iteration [i]. *)
Definition gen_sample (i : nat) (g : rng) : Sample * rng :=
  let '(temperature, g) := rnd_double 10.0 45.0 g in
  let '(humidity, g) := rnd_double 20.0 90.0 g in
  let '(co2, g) := rnd_double 300.0 800.0 g in
  let '(pm2_5, g) := rnd_double 5.0 250.0 g in
  let '(pm10, g) := rnd_double 10.0 300.0 g in
  let '(no2, g) := rnd_double 2.0 200.0 g in
  let '(o3, g) := rnd_double 5.0 180.0 g in
  let '(wind, g) := rnd_double 0.5 10.0 g in
  let '(city, g) := rnd_int 0 1 g in
  let s := mkSample temperature humidity co2 pm2_5 pm10 no2 o3 wind city
                    (AQI_Level (uninit i)) (Health_Risk (uninit i)) in
  (label_sample s, g).

(** [for (int i = 0; i < N; ++i) { ...; data.push_back(s); }] *)
Fixpoint generate (steps i : nat) (g : rng) (data : list Sample)
  : list Sample * rng :=
  match steps with
  | O => (data, g)
  | S k => let '(s, g') := gen_sample i g in generate k (S i) g' (data ++ [s])
  end.

Record Labels := mkLabels {
  y_true_aqi : list Z;
  y_pred_aqi : list Z;
  y_true_hr : list Z;
  y_pred_hr : list Z
}.

(** The loop over the test partition: ground truth is read from the stored
    labels, the prediction re-applies the two rules. *)
Definition collect_labels (test : list Sample) : Labels :=
  mkLabels (map AQI_Level test) (map compute_aqi_level test)
           (map Health_Risk test) (map compute_health_risk test).

(** [for (int lbl = 0; lbl <= hi; ++lbl) compute_metrics_for_label(...)] *)
Fixpoint report_rows (labels : list Z) (y_true y_pred : list Z)
  : option (list (Z * Metrics)) :=
  match labels with
  | [] => Some []
  | lbl :: rest =>
      match compute_metrics_for_label y_true y_pred lbl,
            report_rows rest y_true y_pred with
      | Some m, Some rows => Some ((lbl, m) :: rows)
      | _, _ => None
      end
  end.

Record Evaluation := mkEvaluation {
  ev_data : list Sample;       (* after the shuffle *)
  ev_train : list Sample;
  ev_test : list Sample;
  ev_labels : Labels;
  acc_aqi : option float;
  acc_hr : option float;
  report_aqi : option (list (Z * Metrics));
  report_hr : option (list (Z * Metrics))
}.

(** Steps 1 to 4 of [main]. *)
Definition evaluate (g : rng) : Evaluation * rng :=
  let '(data, g) := generate (Z.to_nat N) 0 g [] in
  let '(data, g) := shuffle data g in
  let train := firstn (Z.to_nat train_size) data in
  let test := skipn (Z.to_nat train_size) data in
  let l := collect_labels test in
  (mkEvaluation data train test l
     (accuracy (y_true_aqi l) (y_pred_aqi l))
     (accuracy (y_true_hr l) (y_pred_hr l))
     (report_rows [0; 1; 2; 3] (y_true_aqi l) (y_pred_aqi l))
     (report_rows [0; 1; 2] (y_true_hr l) (y_pred_hr l)), g).

Record Run := mkRun {
  run_evaluation : Evaluation;
  run_prediction : Prediction
}.

(** [main]: the evaluation, then the query read from [cin]. *)
Definition main (g : rng) (cin : list string) : Run :=
  let '(ev, _) := evaluate g in
  mkRun ev (interactive (uninit (Z.to_nat N)) cin).

End Driver.

(** * Specification vocabulary and auxiliary definitions *)

Ltac cmp_cases :=
  repeat match goal with
  | H : context [Z.compare ?a ?b] |- _ =>
      destruct (Z.compare_spec a b); simpl in H
  | |- context [Z.compare ?a ?b] =>
      destruct (Z.compare_spec a b); simpl
  | H : context [Pos.compare_cont Eq ?a ?b] |- _ =>
      change (Pos.compare_cont Eq a b) with (Pos.compare a b) in H;
      destruct (Pos.compare_spec a b); simpl in H
  | |- context [Pos.compare_cont Eq ?a ?b] =>
      change (Pos.compare_cont Eq a b) with (Pos.compare a b);
      destruct (Pos.compare_spec a b); simpl
  end.

Ltac sf_cases x := destruct x as [[]|[]| |[] ? ?].

Ltac sf_order :=
  simpl; try discriminate; try reflexivity; intros;
  cmp_cases; try discriminate; try reflexivity; subst; try lia.

(** [0 <= x]: a zero of either sign, a positive finite value or [+inf]. *)
Definition SFnonneg (x : spec_float) : Prop := SFleb (S754_zero false) x = true.

(** Weights of the score: positive finite constants. *)
Definition positive_finite (c : float) : Prop :=
  exists m e, Prim2SF c = S754_finite false m e.

(** The decision table of the health-risk rule, row by row: AQI 0 is Low and
    AQI 1 is Medium for any city type, AQI 2 is High when urban and Medium
    when rural, AQI 3 is High for any city type. *)
Definition risk_table (aqi city : Z) : option Z :=
  if aqi =? 0 then Some 0
  else if aqi =? 1 then Some 1
  else if aqi =? 2 then
    (if city =? 1 then Some 2 else if city =? 0 then Some 1 else None)
  else if aqi =? 3 then Some 2
  else None.

(** The half-open bands of the score: [[0,50)] Good, [[50,100)] Moderate,
    [[100,200)] Unhealthy, [[200,inf)] Hazardous. *)
Definition aqi_band (score : float) : option Z :=
  if (0 <=? score)%float && (score <? 50)%float then Some 0
  else if (50 <=? score)%float && (score <? 100)%float then Some 1
  else if (100 <=? score)%float && (score <? 200)%float then Some 2
  else if (200 <=? score)%float then Some 3
  else None.

(** The number of elements of [l] that satisfy [f]. *)
Definition count_of {A : Type} (f : A -> bool) (l : list A) : Z :=
  Z.of_nat (length (filter f l)).

(** Both labels equal the target; only the predicted one does; only the
    true one does; the two labels agree. *)
Definition is_tp (label : Z) (ab : Z * Z) : bool :=
  (fst ab =? label) && (snd ab =? label).
Definition is_fp (label : Z) (ab : Z * Z) : bool :=
  negb (fst ab =? label) && (snd ab =? label).
Definition is_fn (label : Z) (ab : Z * Z) : bool :=
  (fst ab =? label) && negb (snd ab =? label).
Definition agree (ab : Z * Z) : bool := fst ab =? snd ab.

(** The three ratios as [compute_metrics_for_label] derives them from the
    counters, with the support beside them. *)
Definition metrics_of_counts (tp_ fp_ fn_ sup : Z) : Metrics :=
  let prec_ :=
    if tp_ + fp_ =? 0 then 0%float
    else (double_of_int tp_ / double_of_int (tp_ + fp_))%float in
  let rec_ :=
    if tp_ + fn_ =? 0 then 0%float
    else (double_of_int tp_ / double_of_int (tp_ + fn_))%float in
  let f1_ :=
    if (prec_ + rec_ =? 0)%float then 0%float
    else (2 * prec_ * rec_ / (prec_ + rec_))%float in
  mkMetrics prec_ rec_ f1_ sup.

Ltac small_length := unfold Int.INT_MAX; cbn [length]; lia.

Definition sum_supports (rows : list (Z * Metrics)) : Z :=
  fold_right (fun r acc => support (snd r) + acc) 0 rows.

(** The labels of [s] are those the two rules compute from its fields. *)
Definition labelled (s : Sample) : Prop :=
  AQI_Level s = compute_aqi_level s /\ Health_Risk s = compute_health_risk s.

(** An arbitrary content for the uninitialised [Sample]. *)
Definition junk : Sample := mkSample 0 0 0 0 0 0 0 0 0 7 7.

(** The white-space separated fields of a line. *)
Fixpoint split_fields (l cur : list ascii) : list (list ascii) :=
  match l with
  | [] => match cur with [] => [] | _ => [rev cur] end
  | c :: rest =>
      if is_space c then
        match cur with
        | [] => split_fields rest []
        | _ => rev cur :: split_fields rest []
        end
      else split_fields rest (c :: cur)
  end.

(** A field that is a number from its first to its last character. *)
Definition whole_double (f : list ascii) : bool :=
  match extract_double f with Some (_, []) => true | _ => false end.

Definition whole_int (f : list ascii) : bool :=
  match extract_int f with Some (_, []) => true | _ => false end.

(** The line consists of nine numeric fields: eight reals, then an integer. *)
Definition nine_numeric_fields (line : string) : bool :=
  match split_fields (list_ascii_of_string line) [] with
  | [f1; f2; f3; f4; f5; f6; f7; f8; f9] =>
      forallb whole_double [f1; f2; f3; f4; f5; f6; f7; f8] && whole_int f9
  | _ => false
  end.

(** The query answers the line as it answers [demo]. *)
Definition answers_as_demo (uninit : Sample) (cin : list string) : Prop :=
  predicted_labels (interactive uninit cin)
  = predicted_labels (interactive uninit ["demo"%string]).

(** After [n] one-bit right shifts of the mantissa [V], the round bit is
    bit [n-1] of [V] and the sticky bit records whether a lower bit is set. *)
Definition rbit (V n : Z) : bool :=
  if n <=? 0 then false else Z.odd (V / 2 ^ (n - 1)).
Definition sbit (V n : Z) : bool :=
  if n <=? 0 then false else negb (V mod 2 ^ (n - 1) =? 0).
(** The record [shr] reaches from [(V, false, false)] in [n] shifts. *)
Definition shr_rec (V n : Z) : shr_record :=
  Build_shr_record (V / 2 ^ n) (rbit V n) (sbit V n).

(** The mantissa [SpecFloat] rounds [V / 2^n] to. *)
Definition rnd (V n : Z) : Z :=
  round_nearest_even (V / 2 ^ n) (loc_of_shr_record (shr_rec V n)).

(** [m] is the integer nearest to [V / P], the even one on a tie. *)
Definition rne_spec (P V m : Z) : Prop :=
  exists q R, V = P * q + R /\ 0 <= R < P /\
    ((2 * R < P /\ m = q) \/ (2 * R > P /\ m = q + 1) \/
     (2 * R = P /\ m = q + (if Z.even q then 0 else 1))).

(** The second [shr_fexp] of [binary_round_aux]: one more shift when the
    rounding carried into a new digit. *)
Definition renorm (m e : Z) : Z * Z :=
  let n2 := fexp prec emax (Zdigits2 m + e) - e in
  if 0 <? n2 then (m / 2 ^ n2, e + n2) else (m, e).

(** The value [binary_round_aux] builds from the final mantissa and
    exponent: a zero, a finite value, or an infinity on overflow. *)
Definition pack (s : bool) (me : Z * Z) : spec_float :=
  match fst me with
  | 0 => S754_zero s
  | Zpos p => if snd me <=? 971 then S754_finite s p (snd me) else S754_infinity s
  | Zneg _ => S754_nan
  end.

(** [binary_round_aux] on an exact positive mantissa [V] at exponent [b],
    in arithmetic form. *)
Definition round_model (s : bool) (V b : Z) : spec_float :=
  let e1 := fexp prec emax (Zdigits2 V + b) in
  pack s (renorm (rnd V (e1 - b)) e1).

(** The exponent [V * 2^b] is rounded at, and the rounded value in units
    of [2^-1074]. *)
Definition rnd_exp (V b : Z) : Z := fexp prec emax (Zdigits2 V + b).

Definition rnd_val (V b : Z) : Z :=
  rnd V (rnd_exp V b - b) * 2 ^ (rnd_exp V b + 1074).

(** The value of a finite number or a zero, in units of [2^-1074]. *)
Definition sval (x : spec_float) : Z :=
  match x with
  | S754_finite s m e => cond_Zopp s (Zpos m * 2 ^ (e + 1074))
  | _ => 0
  end.

Definition finite_or_zero (x : spec_float) : bool :=
  match x with
  | S754_finite _ _ _ | S754_zero _ => true
  | _ => false
  end.

(** The rounding of [k * W], a signed multiple of [2^b]. *)
Definition sround (k b W : Z) : spec_float :=
  match W with
  | 0 => S754_zero false
  | Zpos p => round_model false (k * Zpos p) b
  | Zneg p => round_model true (k * Zpos p) b
  end.

(** [x <= y], or [y] is a NaN, or [x] is a NaN and [y] is [+inf]: the
    relation the score keeps when an input is raised (a NaN and [+inf]
    both end in level 3). *)
Definition ordered_or_nan (x y : spec_float) : Prop :=
  SFleb x y = true \/ y = S754_nan \/
  (x = S754_nan /\ y = S754_infinity false).

Definition set_PM2_5 (s : Sample) (v : float) : Sample :=
  mkSample (Temperature s) (Humidity s) (CO2 s) v (PM10 s) (NO2 s) (O3 s)
           (WindSpeed s) (CityType s) (AQI_Level s) (Health_Risk s).
Definition set_PM10 (s : Sample) (v : float) : Sample :=
  mkSample (Temperature s) (Humidity s) (CO2 s) (PM2_5 s) v (NO2 s) (O3 s)
           (WindSpeed s) (CityType s) (AQI_Level s) (Health_Risk s).
Definition set_NO2 (s : Sample) (v : float) : Sample :=
  mkSample (Temperature s) (Humidity s) (CO2 s) (PM2_5 s) (PM10 s) v (O3 s)
           (WindSpeed s) (CityType s) (AQI_Level s) (Health_Risk s).
Definition set_O3 (s : Sample) (v : float) : Sample :=
  mkSample (Temperature s) (Humidity s) (CO2 s) (PM2_5 s) (PM10 s) (NO2 s) v
           (WindSpeed s) (CityType s) (AQI_Level s) (Health_Risk s).

(** [s'] is [s] with one of the four pollutant fields of the score raised
    (or left as it is), every other field kept. *)
Inductive raised : Sample -> Sample -> Prop :=
| raised_PM2_5 s v : (PM2_5 s <=? v)%float = true -> raised s (set_PM2_5 s v)
| raised_PM10 s v : (PM10 s <=? v)%float = true -> raised s (set_PM10 s v)
| raised_NO2 s v : (NO2 s <=? v)%float = true -> raised s (set_NO2 s v)
| raised_O3 s v : (O3 s <=? v)%float = true -> raised s (set_O3 s v).

(** A weight of the score: a positive normal number. *)
Definition normal_weight (c : float) : Prop :=
  exists m e, Prim2SF c = S754_finite false m e /\ Zdigits2 (Zpos m) = 53%Z.

(** ** Input lines *)

(** A decimal digit. *)
Definition is_digit (c : ascii) : bool :=
  let n := Z.of_N (N_of_ascii c) in (48 <=? n) && (n <=? 57).

(** A character a number can start with: a digit, a sign or the point. *)
Definition starts_number (c : ascii) : bool :=
  is_digit c || Ascii.eqb c "-" || Ascii.eqb c "+" || Ascii.eqb c ".".

(** Digits with at most one decimal point among them. *)
Fixpoint digits_and_point (l : list ascii) (seen_point : bool) : bool :=
  match l with
  | [] => true
  | c :: r =>
      if is_digit c then digits_and_point r seen_point
      else Ascii.eqb c "." && negb seen_point && digits_and_point r true
  end.

(** The field without its sign. *)
Definition unsigned (f : list ascii) : list ascii :=
  match f with
  | c :: r => if Ascii.eqb c "-" || Ascii.eqb c "+" then r else f
  | [] => f
  end.

(** A field that is a decimal numeral: an optional sign, then digits with at
    most one decimal point, at least one digit in all ([12], [-3.5], [.5],
    [7.]). *)
Definition decimal_numeral (f : list ascii) : bool :=
  digits_and_point (unsigned f) false && existsb is_digit (unsigned f).

(** The number of decimal numerals the fields start with, and whether they
    are all the fields or are followed by a field whose first character
    cannot start a number. *)
Fixpoint leading_numerals (fs : list (list ascii)) : nat * bool :=
  match fs with
  | [] => (O, true)
  | f :: r =>
      if decimal_numeral f then
        let '(k, stop) := leading_numerals r in (S k, stop)
      else (O, match f with c :: _ => negb (starts_number c) | [] => false end)
  end.

(** The line holds fewer than nine numbers: it starts with fewer than nine
    white-space separated decimal numerals, and then ends or goes on with a
    field that cannot start a number.  Empty and blank lines, lines with too
    few fields and lines of text are of this kind. *)
Definition fewer_than_nine_numbers (line : string) : bool :=
  let '(k, stop) := leading_numerals (split_fields (list_ascii_of_string line) []) in
  stop && (k <? 9)%nat.

(** Text whose first character, if any, is not a digit. *)
Definition no_digit_ahead (extra : string) : bool :=
  match extra with
  | String c _ => negb (is_digit c)
  | EmptyString => true
  end.

(** After its leading white space [l] ends, or goes on with a character that
    cannot start a number. *)
Definition no_number_at (l : list ascii) : bool :=
  match skip_ws l with
  | [] => true
  | c :: _ => negb (starts_number c)
  end.

(** [l] ends or goes on with white space. *)
Definition at_break (l : list ascii) : bool :=
  match l with [] => true | c :: _ => is_space c end.

(** [tokens l fs]: [fs] are the fields of [l], each with the white space
    before it and a break after it. *)
Inductive tokens : list ascii -> list (list ascii) -> Prop :=
| tokens_nil l : forallb is_space l = true -> tokens l []
| tokens_cons pre c f rest fs :
    forallb is_space pre = true -> is_space c = false ->
    at_break rest = true -> tokens rest fs ->
    tokens (pre ++ (c :: f) ++ rest) ((c :: f) :: fs).

(** [numerals_then_stop k l]: [l] is [k] decimal numerals, each after white
    space and before a break, and then no number. *)
Inductive numerals_then_stop : nat -> list ascii -> Prop :=
| nts_stop l : no_number_at l = true -> numerals_then_stop O l
| nts_numeral k pre f rest :
    forallb is_space pre = true -> decimal_numeral f = true ->
    at_break rest = true -> numerals_then_stop k rest ->
    numerals_then_stop (S k) (pre ++ f ++ rest).

(** The two optional parts of a real, as [extract_double] reads them: the
    fraction after the integer digits, and the exponent. *)
Definition read_fraction (l2 : list ascii) (ival : Z) : Z * Z * list ascii :=
  match l2 with
  | c :: rest =>
      if Ascii.eqb c "." then read_digits rest ival 0 else (ival, 0, l2)
  | [] => (ival, 0, l2)
  end.

Definition read_exponent (l3 : list ascii) : bool * Z * list ascii :=
  match l3 with
  | c :: rest =>
      if Ascii.eqb c "e" || Ascii.eqb c "E" then
        let '(eneg, r1) := read_sign rest in
        let '(ev, ecount, r2) := read_digits r1 0 0 in
        (0 <? ecount, if eneg then - ev else ev, r2)
      else (true, 0, l3)
  | [] => (true, 0, l3)
  end.

(** The rest of [l] after [n] successful extractions of a real. *)
Fixpoint extract_doubles (n : nat) (l : list ascii) : option (list ascii) :=
  match n with
  | O => Some l
  | S n' =>
      match extract_double l with
      | Some (_, r) => extract_doubles n' r
      | None => None
      end
  end.

(** A proof by cases on the eight bits of a character. *)
Ltac each_char c :=
  destruct c as [[] [] [] [] [] [] [] []]; vm_compute; intuition congruence.

(** ** Vocabulary of the further properties *)

(** The nine input fields of two samples are the same. *)
Definition same_inputs (s s' : Sample) : Prop :=
  Temperature s = Temperature s' /\ Humidity s = Humidity s' /\
  CO2 s = CO2 s' /\ PM2_5 s = PM2_5 s' /\ PM10 s = PM10 s' /\
  NO2 s = NO2 s' /\ O3 s = O3 s' /\ WindSpeed s = WindSpeed s' /\
  CityType s = CityType s'.

(** The position of a remainder between two consecutive quotients, as two
    more bits below the quotient. *)
Definition loc_code (l : location) : Z :=
  match l with
  | loc_Exact => 0
  | loc_Inexact Lt => 1
  | loc_Inexact Eq => 2
  | loc_Inexact Gt => 3
  end.

(** A ratio of the metrics that is not zero: a value from [2^-53] to 1. *)
Definition unit_ratio (x : spec_float) : Prop :=
  valid_binary x = true /\
  SFleb (S754_finite false 4503599627370496 (-105)) x = true /\
  SFleb x (S754_finite false 4503599627370496 (-52)) = true.

(** [(d) ? (double)a / d : 0.0], the guarded quotient of lines 77 and 78. *)
Definition ratio (a d : Z) : float :=
  if d =? 0 then 0%float else (double_of_int a / double_of_int d)%float.

(** The F1 expression of line 79. *)
Definition harmonic (p r : float) : float :=
  if (p + r =? 0)%float then 0%float else (2 * p * r / (p + r))%float.

(** A row of a report on identical sequences: perfect scores for a label
    that occurs, zeros for a label that does not. *)
Definition perfect_or_empty (m : Metrics) : Prop :=
  (0 < support m /\ precision m = 1%float /\ recall m = 1%float /\
   f1 m = 1%float) \/
  (support m = 0 /\ precision m = 0%float /\ recall m = 0%float /\
   f1 m = 0%float).

(** [lo <= x <= hi] *)
Definition within (lo hi x : float) : Prop :=
  (lo <=? x)%float = true /\ (x <=? hi)%float = true.

(** A sample as the generation loop builds it: each field inside the range
    it is drawn from, and labels that follow. *)
Definition generated_like (s : Sample) : Prop :=
  (within 10 45 (Temperature s) /\ within 20 90 (Humidity s) /\
   within 300 800 (CO2 s) /\ within 0.5 10 (WindSpeed s)) /\
  (within 5 250 (PM2_5 s) /\ within 10 300 (PM10 s) /\
   within 2 200 (NO2 s) /\ within 5 180 (O3 s)) /\
  0 <= CityType s <= 1 /\
  0 <= AQI_Level s <= 2 /\
  risk_table (AQI_Level s) (CityType s) = Some (Health_Risk s).

(** * Properties *)

(** ** 32-bit [int]: no wrap-around in range *)

Lemma wrap_in_range z : Int.in_range z -> Int.wrap z = z.
Proof.
  unfold Int.in_range, Int.wrap, Int.INT_MIN, Int.INT_MAX. intros H.
  rewrite Z.mod_small by lia. lia.
Qed.

Lemma incr_small c : 0 <= c < Int.INT_MAX -> Int.incr c = c + 1.
Proof.
  unfold Int.incr, Int.INT_MAX. intros H. apply wrap_in_range.
  unfold Int.in_range, Int.INT_MIN, Int.INT_MAX. lia.
Qed.

Lemma of_size_small n : Z.of_nat n <= Int.INT_MAX -> Int.of_size n = Z.of_nat n.
Proof.
  unfold Int.of_size, Int.INT_MAX. intros H. apply wrap_in_range.
  unfold Int.in_range, Int.INT_MIN, Int.INT_MAX. lia.
Qed.

(** ** The order of binary64 values *)

Lemma SFltb_trans x y z :
  SFltb x y = true -> SFltb y z = true -> SFltb x z = true.
Proof. unfold SFltb. sf_cases x; sf_cases y; sf_cases z; sf_order. Qed.

Lemma SFleb_trans x y z :
  SFleb x y = true -> SFleb y z = true -> SFleb x z = true.
Proof. unfold SFleb. sf_cases x; sf_cases y; sf_cases z; sf_order. Qed.

Lemma SFleb_SFltb_false x y : SFleb x y = true -> SFltb y x = false.
Proof. unfold SFleb, SFltb. sf_cases x; sf_cases y; sf_order. Qed.

(** Two values that are not NaN are comparable. *)
Lemma SFltb_false_SFleb x y :
  x <> S754_nan -> y <> S754_nan -> SFltb x y = false -> SFleb y x = true.
Proof.
  unfold SFleb, SFltb. sf_cases x; sf_cases y; sf_order; congruence.
Qed.

Lemma SFleb_not_nan_r x y : SFleb x y = true -> y <> S754_nan.
Proof. intros H ->. unfold SFleb in H. sf_cases x; discriminate. Qed.

Lemma SFleb_not_nan_l x y : SFleb x y = true -> x <> S754_nan.
Proof. intros H ->. discriminate. Qed.

#[local] Open Scope float_scope.

Lemma ltb_trans (x y z : float) :
  (x <? y) = true -> (y <? z) = true -> (x <? z) = true.
Proof. rewrite !FloatAxioms.ltb_spec. apply SFltb_trans. Qed.

Lemma leb_trans (x y z : float) :
  (x <=? y) = true -> (y <=? z) = true -> (x <=? z) = true.
Proof. rewrite !FloatAxioms.leb_spec. apply SFleb_trans. Qed.

Lemma leb_ltb_false (x y : float) : (x <=? y) = true -> (y <? x) = false.
Proof. rewrite FloatAxioms.leb_spec, FloatAxioms.ltb_spec. apply SFleb_SFltb_false. Qed.

(** Below a bound, or at least the bound: the choice is total on the
    values that are comparable with something. *)
Lemma ltb_false_leb (lo x c : float) :
  (lo <=? x) = true -> (c <=? c) = true -> (x <? c) = false ->
  (c <=? x) = true.
Proof.
  rewrite !FloatAxioms.leb_spec, FloatAxioms.ltb_spec. intros Hx Hc.
  apply SFltb_false_SFleb.
  - exact (SFleb_not_nan_r _ _ Hx).
  - exact (SFleb_not_nan_r _ _ Hc).
Qed.

#[local] Close Scope float_scope.

(** ** Signs of sums and products *)

Lemma iter_pos_invariant {A : Type} (P : A -> Prop) (f : A -> A) :
  (forall x, P x -> P (f x)) -> forall n x, P x -> P (iter_pos f n x).
Proof. intros Hf. induction n; simpl; auto. Qed.

Lemma shr_1_nonneg mrs : 0 <= shr_m mrs -> 0 <= shr_m (shr_1 mrs).
Proof.
  destruct mrs as [m r s]. simpl.
  destruct m as [|[p|p|]|[p|p|]]; simpl; lia.
Qed.

Lemma shr_record_of_loc_m m l : shr_m (shr_record_of_loc m l) = m.
Proof. destruct l as [|[]]; reflexivity. Qed.

Lemma shr_nonneg mrs e n : 0 <= shr_m mrs -> 0 <= shr_m (fst (shr mrs e n)).
Proof.
  intros H. destruct n; simpl; trivial.
  apply (iter_pos_invariant (fun r => 0 <= shr_m r)); trivial.
  exact shr_1_nonneg.
Qed.

Lemma shr_fexp_nonneg m e l :
  0 <= m -> 0 <= shr_m (fst (shr_fexp prec emax m e l)).
Proof.
  intros H. unfold shr_fexp. apply shr_nonneg.
  now rewrite shr_record_of_loc_m.
Qed.

Lemma round_nearest_even_nonneg m l : 0 <= m -> 0 <= round_nearest_even m l.
Proof. destruct l as [|[]]; simpl; try destruct (Z.even m); lia. Qed.

Lemma binary_round_aux_nonneg m e l :
  0 <= m -> SFnonneg (binary_round_aux prec emax false m e l).
Proof.
  intros H. unfold binary_round_aux.
  pose proof (shr_fexp_nonneg m e l H) as H1.
  destruct (shr_fexp prec emax m e l) as [mrs1 e1]. simpl in H1.
  pose proof (shr_fexp_nonneg _ e1 loc_Exact
                (round_nearest_even_nonneg _ (loc_of_shr_record mrs1) H1)) as H2.
  destruct (shr_fexp prec emax _ e1 loc_Exact) as [mrs2 e2]. simpl in H2.
  destruct (shr_m mrs2); try lia; try reflexivity.
  destruct (e2 <=? emax - prec); reflexivity.
Qed.

Lemma binary_round_nonneg m e : SFnonneg (binary_round prec emax false m e).
Proof.
  unfold binary_round.
  destruct (shl_align m e _). apply binary_round_aux_nonneg. lia.
Qed.

Lemma SFadd_nonneg x y :
  SFnonneg x -> SFnonneg y -> SFnonneg (SFadd prec emax x y).
Proof.
  unfold SFnonneg.
  sf_cases x; sf_cases y; simpl; try discriminate; try reflexivity.
  intros _ _. apply binary_round_nonneg.
Qed.

Lemma SFmul_nonneg mc ec x :
  SFnonneg x -> SFnonneg (SFmul prec emax (S754_finite false mc ec) x).
Proof.
  unfold SFnonneg.
  sf_cases x; simpl; try discriminate; try reflexivity.
  intros _. apply binary_round_aux_nonneg. lia.
Qed.

Lemma add_nonneg (x y : float) :
  (0 <=? x)%float = true -> (0 <=? y)%float = true ->
  (0 <=? x + y)%float = true.
Proof.
  rewrite !FloatAxioms.leb_spec, FloatAxioms.add_spec. apply SFadd_nonneg.
Qed.

Lemma mul_nonneg (c x : float) :
  positive_finite c -> (0 <=? x)%float = true -> (0 <=? c * x)%float = true.
Proof.
  intros (m & e & Hc). rewrite !FloatAxioms.leb_spec, FloatAxioms.mul_spec, Hc.
  apply SFmul_nonneg.
Qed.

Lemma positive_finite_weights :
  positive_finite 0.3 /\ positive_finite 0.2 /\
  positive_finite 0.1 /\ positive_finite 0.05.
Proof. repeat split; eexists; eexists; vm_compute; reflexivity. Qed.

(** ** C1: the health-risk decision table *)

(** C1: on every row of the decision table, [compute_health_risk] returns
    the risk the table gives for the sample's (AQI level, city type). *)
Theorem compute_health_risk_table (s : Sample) (risk : Z) :
  risk_table (AQI_Level s) (CityType s) = Some risk ->
  compute_health_risk s = risk.
Proof.
  unfold risk_table, compute_health_risk.
  destruct (Z.eqb_spec (AQI_Level s) 0); [congruence|].
  destruct (Z.eqb_spec (AQI_Level s) 1); [congruence|].
  destruct (Z.eqb_spec (AQI_Level s) 2) as [E2|]; simpl.
  - destruct (Z.eqb_spec (CityType s) 1); [congruence|].
    destruct (Z.eqb_spec (CityType s) 0); [|discriminate].
    destruct (Z.eqb_spec (AQI_Level s) 3); [lia | congruence].
  - destruct (Z.eqb_spec (AQI_Level s) 3); [congruence | discriminate].
Qed.

Lemma compute_health_risk_table_witness :
  compute_health_risk (mkSample 33 65 550 150 180 80 60 3.5 0 2 0) = 1.
Proof.
  apply (compute_health_risk_table
           (mkSample 33 65 550 150 180 80 60 3.5 0 2 0) 1).
  reflexivity.
Defined.

(** ** C2: the AQI level is the band of the weighted score *)

#[local] Open Scope float_scope.

Lemma aqi_score_nonneg (s : Sample) :
  (0 <=? PM2_5 s) = true -> (0 <=? PM10 s) = true ->
  (0 <=? NO2 s) = true -> (0 <=? O3 s) = true ->
  (0 <=? aqi_score s) = true.
Proof.
  intros H1 H2 H3 H4. unfold aqi_score.
  destruct positive_finite_weights as (W1 & W2 & W3 & W4).
  repeat apply add_nonneg; apply mul_nonneg; assumption.
Qed.

Lemma level_of_band (score : float) :
  (0 <=? score) = true ->
  aqi_band score =
  Some (if score <? 50 then 0%Z else if score <? 100 then 1%Z
        else if score <? 200 then 2%Z else 3%Z).
Proof.
  intros H0. unfold aqi_band. rewrite H0.
  destruct (score <? 50) eqn:E50; [reflexivity|].
  rewrite (ltb_false_leb 0 score 50 H0 eq_refl E50).
  destruct (score <? 100) eqn:E100; [reflexivity|].
  rewrite (ltb_false_leb 0 score 100 H0 eq_refl E100).
  destruct (score <? 200) eqn:E200; [reflexivity|].
  rewrite (ltb_false_leb 0 score 200 H0 eq_refl E200).
  reflexivity.
Qed.

(** C2: for a sample with non-negative pollutant fields, the score is
    [0.3*PM2_5 + 0.2*PM10 + 0.1*NO2 + 0.05*O3], it is non-negative, and
    [compute_aqi_level] returns the band the score lies in (0 on [[0,50)],
    1 on [[50,100)], 2 on [[100,200)], 3 from 200 on); a score of exactly
    50, 100 or 200 gives level 1, 2 or 3. *)
Theorem compute_aqi_level_bands (s : Sample) :
  (0 <=? PM2_5 s) = true -> (0 <=? PM10 s) = true ->
  (0 <=? NO2 s) = true -> (0 <=? O3 s) = true ->
  aqi_score s = 0.3 * PM2_5 s + 0.2 * PM10 s + 0.1 * NO2 s + 0.05 * O3 s /\
  aqi_band (aqi_score s) = Some (compute_aqi_level s) /\
  (aqi_score s = 50 -> compute_aqi_level s = 1%Z) /\
  (aqi_score s = 100 -> compute_aqi_level s = 2%Z) /\
  (aqi_score s = 200 -> compute_aqi_level s = 3%Z).
Proof.
  intros H1 H2 H3 H4. split; [reflexivity|]. split.
  - apply level_of_band. now apply aqi_score_nonneg.
  - unfold compute_aqi_level.
    repeat split; intros ->; reflexivity.
Qed.

Lemma compute_aqi_level_bands_witness :
  aqi_band (aqi_score (mkSample 33 65 550 150 180 80 60 3.5 1 0 0)) =
  Some (compute_aqi_level (mkSample 33 65 550 150 180 80 60 3.5 1 0 0)).
Proof.
  apply (compute_aqi_level_bands
           (mkSample 33 65 550 150 180 80 60 3.5 1 0 0));
    reflexivity.
Defined.

(** ** C9: the demo sample end to end *)

(** C9: on the fixed demo sample the weighted terms are 45, 36, 8 and 3,
    the score is 92, the AQI level is 1 (Moderate) and the health risk is
    1 (Medium); typing [demo] yields these labels. *)
Theorem demo_sample_pipeline (uninit : Sample) :
  let d := demo_sample uninit in
  (0.3 * PM2_5 d = 45 /\ 0.2 * PM10 d = 36 /\
   0.1 * NO2 d = 8 /\ 0.05 * O3 d = 3) /\
  aqi_score d = 92 /\
  compute_aqi_level d = 1%Z /\
  AQI_Level (label_sample d) = 1%Z /\
  Health_Risk (label_sample d) = 1%Z /\
  interactive uninit ["demo"%string] =
    mkPrediction (mkSample 33 65 550 150 180 80 60 3.5 1 1 1) true false
                 (Some "Moderate"%string) (Some "Medium"%string).
Proof. repeat split; reflexivity. Qed.

#[local] Close Scope float_scope.

(** ** Exact conversions and the quotient of a value by itself *)

Lemma digits2_pos_size p : digits2_pos p = Pos.size p.
Proof. induction p; simpl; congruence. Qed.

Lemma digits2_pos_iter_xO k p :
  digits2_pos (Pos.iter xO p k) = (digits2_pos p + k)%positive.
Proof.
  induction k using Pos.peano_ind.
  - simpl. lia.
  - rewrite Pos.iter_succ. simpl. rewrite IHk. lia.
Qed.

Lemma digits2_pos_bound p k :
  Zpos p < 2 ^ k -> 0 <= k -> Zpos (digits2_pos p) <= k.
Proof.
  intros H Hk. rewrite digits2_pos_size.
  destruct (Z_le_gt_dec (Zpos (Pos.size p)) k) as [|Hgt]; trivial. exfalso.
  pose proof (Pos.size_le p) as Hs.
  assert (H1 : 2 ^ (k + 1) <= 2 ^ Zpos (Pos.size p))
    by (apply Z.pow_le_mono_r; lia).
  rewrite Z.pow_add_r in H1 by lia.
  assert (H2 : Zpos (2 ^ Pos.size p) = 2 ^ Zpos (Pos.size p))
    by (rewrite Pos2Z.inj_pow; reflexivity).
  assert (H3 : Zpos (2 ^ Pos.size p) <= Zpos p~0)
    by (apply Pos2Z.pos_le_pos; exact Hs).
  lia.
Qed.

(** A mantissa that already fits the format is left as it is. *)
Lemma binary_round_aux_bounded s m e :
  bounded prec emax m e = true ->
  binary_round_aux prec emax s (Zpos m) e loc_Exact = S754_finite s m e.
Proof.
  unfold bounded, canonical_mantissa. intros H.
  apply andb_true_iff in H. destruct H as [Hc He].
  apply Z.eqb_eq in Hc.
  unfold binary_round_aux, shr_fexp. cbn [Zdigits2].
  rewrite Hc, Z.sub_diag.
  cbn [shr shr_record_of_loc shr_m loc_of_shr_record round_nearest_even Zdigits2].
  rewrite Hc, Z.sub_diag. cbn [shr shr_record_of_loc shr_m].
  now rewrite He.
Qed.

(** An integer below [2^53] converts to a finite value. *)
Lemma binary_round_small s p :
  Zpos p < 2 ^ 53 ->
  exists m e, binary_round prec emax s p 0 = S754_finite s m e.
Proof.
  intros Hp. pose proof (digits2_pos_bound p 53 Hp ltac:(lia)) as Hd.
  unfold binary_round, shl_align.
  assert (Hf : fexp prec emax (Zpos (digits2_pos p) + 0)
               = Zpos (digits2_pos p) - 53).
  { unfold fexp, FloatOps.prec, SpecFloat.emin, emax. lia. }
  rewrite Hf.
  destruct (Zpos (digits2_pos p) - 53 - 0) as [|d|d] eqn:Ed; try lia.
  - eexists; eexists. apply binary_round_aux_bounded.
    unfold bounded, canonical_mantissa. apply andb_true_iff. split.
    + apply Z.eqb_eq. unfold fexp, FloatOps.prec, SpecFloat.emin, emax. lia.
    + apply Z.leb_le. unfold FloatOps.prec, emax. lia.
  - eexists; eexists. apply binary_round_aux_bounded.
    unfold bounded, canonical_mantissa. apply andb_true_iff. split.
    + apply Z.eqb_eq. rewrite digits2_pos_iter_xO.
      unfold fexp, FloatOps.prec, SpecFloat.emin, emax. lia.
    + apply Z.leb_le. unfold FloatOps.prec, emax. lia.
Qed.

Lemma SFdiv_self s m e :
  SFdiv prec emax (S754_finite s m e) (S754_finite s m e) = Prim2SF 1.
Proof.
  unfold SFdiv, SFdiv_core_binary.
  replace (Zdigits2 (Zpos m) + e - (Zdigits2 (Zpos m) + e)) with 0 by lia.
  rewrite Z.sub_diag.
  change (Z.min (fexp prec emax 0) 0) with (-53).
  change (0 - -53) with 53.
  cbv beta iota zeta.
  rewrite Z.shiftl_mul_pow2 by lia.
  assert (Hq : Z.div_eucl (Zpos m * 2 ^ 53) (Zpos m) = (2 ^ 53, 0)).
  { pose proof (Z_div_mod (Zpos m * 2 ^ 53) (Zpos m) ltac:(lia)) as H.
    destruct (Z.div_eucl (Zpos m * 2 ^ 53) (Zpos m)) as [q r].
    destruct H as [H1 H2].
    assert (q = 2 ^ 53) by nia. subst q. f_equal. lia. }
  rewrite Hq.
  assert (Hl : new_location (Zpos m) 0 = loc_Exact).
  { unfold new_location, new_location_even, new_location_odd.
    destruct (Z.even (Zpos m)); reflexivity. }
  rewrite Hl. destruct s; vm_compute; reflexivity.
Qed.

Lemma double_of_int_finite n :
  0 < n < 2 ^ 53 ->
  exists m e, Prim2SF (double_of_int n) = S754_finite false m e.
Proof.
  intros Hn. unfold double_of_int.
  destruct (Z.ltb_spec n 0); [lia|].
  rewrite of_uint63_spec, Uint63.of_Z_spec.
  rewrite Z.mod_small by (change wB with (2 ^ 63); split; [lia|];
    apply Z.lt_trans with (2 ^ 53); [lia | reflexivity]).
  destruct n as [|p|p]; try lia.
  apply binary_round_small. lia.
Qed.

(** [x / x = 1.0] for every count that is not zero. *)
Lemma double_of_int_div_self n :
  0 < n < 2 ^ 53 -> (double_of_int n / double_of_int n)%float = 1%float.
Proof.
  intros Hn. destruct (double_of_int_finite n Hn) as (m & e & H).
  apply Prim2SF_inj. rewrite FloatAxioms.div_spec, H.
  apply SFdiv_self.
Qed.

Lemma double_of_size_int n :
  double_of_size n = double_of_int (Z.of_nat n).
Proof.
  unfold double_of_size, double_of_int.
  destruct (Z.ltb_spec (Z.of_nat n) 0); [lia | reflexivity].
Qed.




(** ** Counting positions *)

Lemma count_of_nil {A} (f : A -> bool) : count_of f [] = 0.
Proof. reflexivity. Qed.

Lemma count_of_cons {A} (f : A -> bool) x l :
  count_of f (x :: l) = (if f x then 1 else 0) + count_of f l.
Proof. unfold count_of. simpl. destruct (f x); cbn [length]; lia. Qed.

Lemma count_of_bounds {A} (f : A -> bool) l :
  0 <= count_of f l <= Z.of_nat (length l).
Proof.
  induction l as [|x l IH]; [rewrite count_of_nil; simpl; lia|].
  rewrite count_of_cons. cbn [length]. destruct (f x); lia.
Qed.

Lemma count_of_none {A} (f : A -> bool) l :
  (forall x, In x l -> f x = false) -> count_of f l = 0.
Proof.
  induction l as [|x l IH]; intros H; [reflexivity|].
  rewrite count_of_cons, (H x (or_introl eq_refl)), IH; [reflexivity|].
  intros y Hy. apply H. now right.
Qed.

Lemma count_of_all {A} (f : A -> bool) l :
  (forall x, In x l -> f x = true) -> count_of f l = Z.of_nat (length l).
Proof.
  induction l as [|x l IH]; intros H; [reflexivity|].
  rewrite count_of_cons, (H x (or_introl eq_refl)), IH.
  - cbn [length]. lia.
  - intros y Hy. apply H. now right.
Qed.

(** The three confusion counts are disjoint. *)
Lemma confusion_counts_bound label l :
  count_of (is_tp label) l + count_of (is_fp label) l
  + count_of (is_fn label) l <= Z.of_nat (length l).
Proof.
  induction l as [|[a b] l IH]; [rewrite !count_of_nil; simpl; lia|].
  rewrite !count_of_cons. unfold is_tp at 1, is_fp at 1, is_fn at 1.
  cbn [fst snd length]. destruct (a =? label), (b =? label); cbn [andb negb]; lia.
Qed.

(** ** The loops compute the counts *)

Lemma nth_error_middle {A} (pre : list A) x l :
  nth_error (pre ++ x :: l) (length pre) = Some x.
Proof.
  rewrite nth_error_app2 by lia. now rewrite Nat.sub_diag.
Qed.

Lemma confusion_loop_count label l1 :
  forall l2 pre1 pre2 c,
    length l1 = length l2 -> length pre1 = length pre2 ->
    Z.of_nat (length pre1 + length l1) <= Int.INT_MAX ->
    0 <= tp c -> 0 <= fp c -> 0 <= fn c ->
    tp c + fp c + fn c <= Z.of_nat (length pre1) ->
    confusion_loop (length l1) (pre1 ++ l1) (pre2 ++ l2) label
                   (Z.of_nat (length pre1)) c
    = Some (mkConfusion (tp c + count_of (is_tp label) (combine l1 l2))
                        (fp c + count_of (is_fp label) (combine l1 l2))
                        (fn c + count_of (is_fn label) (combine l1 l2))).
Proof.
  induction l1 as [|a l1 IH]; intros l2 pre1 pre2 c Hl Hp Hmax Ht Hf Hn Hsum.
  - simpl. rewrite !count_of_nil, !Z.add_0_r. now destruct c.
  - destruct l2 as [|b l2]; [discriminate|].
    simpl in Hl. injection Hl as Hl. cbn [length] in Hmax.
    cbn [confusion_loop length]. unfold confusion_step.
    pose proof (nth_error_middle pre2 b l2) as Hb. rewrite <- Hp in Hb.
    rewrite Nat2Z.id, nth_error_middle, Hb.
    rewrite (incr_small (Z.of_nat (length pre1))) by lia.
    replace (Z.of_nat (length pre1) + 1)
      with (Z.of_nat (length (pre1 ++ [a])))
      by (rewrite length_app; simpl; lia).
    replace (pre1 ++ a :: l1) with ((pre1 ++ [a]) ++ l1)
      by (rewrite <- app_assoc; reflexivity).
    replace (pre2 ++ b :: l2) with ((pre2 ++ [b]) ++ l2)
      by (rewrite <- app_assoc; reflexivity).
    assert (Hlen : Z.of_nat (length (pre1 ++ [a]))
                   = Z.of_nat (length pre1) + 1)
      by (rewrite length_app; simpl; lia).
    simpl combine. rewrite !count_of_cons.
    unfold is_tp at 1, is_fp at 1, is_fn at 1. simpl fst; simpl snd.
    rewrite IH; try assumption.
    + destruct (a =? label), (b =? label); cbn [andb negb tp fp fn];
        rewrite ?incr_small by lia; f_equal; f_equal; lia.
    + rewrite !length_app. simpl. lia.
    + rewrite length_app. simpl. lia.
    + destruct (a =? label), (b =? label); cbn [andb negb tp fp fn];
        rewrite ?incr_small by lia; lia.
    + destruct (a =? label), (b =? label); cbn [andb negb tp fp fn];
        rewrite ?incr_small by lia; lia.
    + destruct (a =? label), (b =? label); cbn [andb negb tp fp fn];
        rewrite ?incr_small by lia; lia.
    + destruct (a =? label), (b =? label); cbn [andb negb tp fp fn];
        rewrite ?incr_small by lia; lia.
Qed.

Lemma support_loop_count_from label l :
  forall acc,
    0 <= acc -> acc + Z.of_nat (length l) <= Int.INT_MAX ->
    fold_left (fun sup v => if v =? label then Int.incr sup else sup) l acc
    = acc + count_of (fun v => v =? label) l.
Proof.
  induction l as [|a l IH]; intros acc H0 Hmax.
  - simpl. rewrite count_of_nil. lia.
  - cbn [length] in Hmax. simpl fold_left. rewrite count_of_cons.
    destruct (a =? label).
    + rewrite incr_small by lia. rewrite IH by lia. lia.
    + rewrite IH by lia. lia.
Qed.

Lemma support_loop_count label l :
  Z.of_nat (length l) <= Int.INT_MAX ->
  support_loop l label = count_of (fun v => v =? label) l.
Proof.
  intros H. unfold support_loop.
  rewrite support_loop_count_from by lia. lia.
Qed.

Lemma correct_loop_count l1 :
  forall l2 pre1 pre2 correct,
    length l1 = length l2 -> length pre1 = length pre2 ->
    Z.of_nat (length pre1 + length l1) <= Int.INT_MAX ->
    0 <= correct <= Z.of_nat (length pre1) ->
    correct_loop (length l1) (length pre1) (pre1 ++ l1) (pre2 ++ l2) correct
    = Some (correct + count_of agree (combine l1 l2)).
Proof.
  induction l1 as [|a l1 IH]; intros l2 pre1 pre2 correct Hl Hp Hmax Hc.
  - simpl. rewrite count_of_nil. f_equal. lia.
  - destruct l2 as [|b l2]; [discriminate|].
    simpl in Hl. injection Hl as Hl. cbn [length] in Hmax.
    cbn [correct_loop length].
    pose proof (nth_error_middle pre2 b l2) as Hb. rewrite <- Hp in Hb.
    rewrite nth_error_middle, Hb.
    replace (S (length pre1)) with (length (pre1 ++ [a]))
      by (rewrite length_app; simpl; lia).
    replace (pre1 ++ a :: l1) with ((pre1 ++ [a]) ++ l1)
      by (rewrite <- app_assoc; reflexivity).
    replace (pre2 ++ b :: l2) with ((pre2 ++ [b]) ++ l2)
      by (rewrite <- app_assoc; reflexivity).
    simpl combine. rewrite count_of_cons. unfold agree at 1.
    simpl fst; simpl snd.
    rewrite IH; try assumption.
    + destruct (a =? b); rewrite ?incr_small by lia; f_equal; lia.
    + rewrite !length_app. simpl. lia.
    + rewrite length_app. simpl. lia.
    + rewrite length_app. simpl.
      destruct (a =? b); rewrite ?incr_small by lia; lia.
Qed.

(** ** The metrics in terms of the counts *)

Lemma length_small_int n : Z.of_nat n <= Int.INT_MAX -> 0 <= Z.of_nat n < 2 ^ 53.
Proof.
  unfold Int.INT_MAX. intros H. split; [lia|].
  apply Z.le_lt_trans with 2147483647; [lia | reflexivity].
Qed.

Lemma confusion_loop_total (y_true y_pred : list Z) (label : Z) :
  length y_true = length y_pred ->
  Z.of_nat (length y_true) <= Int.INT_MAX ->
  confusion_loop (Z.to_nat (Int.of_size (length y_true))) y_true y_pred
                 label 0 (mkConfusion 0 0 0)
  = Some (mkConfusion (count_of (is_tp label) (combine y_true y_pred))
                      (count_of (is_fp label) (combine y_true y_pred))
                      (count_of (is_fn label) (combine y_true y_pred))).
Proof.
  intros Hlen Hmax.
  rewrite of_size_small, Nat2Z.id by assumption.
  pose proof (confusion_loop_count label y_true y_pred [] []
                (mkConfusion 0 0 0) Hlen eq_refl) as H.
  cbn [app length tp fp fn Nat.add Z.of_nat] in H.
  rewrite H by (assumption || lia). reflexivity.
Qed.

Lemma compute_metrics_for_label_eq (y_true y_pred : list Z) (label : Z) :
  length y_true = length y_pred ->
  Z.of_nat (length y_true) <= Int.INT_MAX ->
  compute_metrics_for_label y_true y_pred label
  = Some (metrics_of_counts
            (count_of (is_tp label) (combine y_true y_pred))
            (count_of (is_fp label) (combine y_true y_pred))
            (count_of (is_fn label) (combine y_true y_pred))
            (count_of (fun v => v =? label) y_true)).
Proof.
  intros Hlen Hmax. unfold compute_metrics_for_label.
  rewrite confusion_loop_total by assumption. cbn [tp fp fn].
  rewrite support_loop_count by assumption.
  pose proof (confusion_counts_bound label (combine y_true y_pred)) as Hb.
  pose proof (count_of_bounds (is_tp label) (combine y_true y_pred)) as Ht.
  pose proof (count_of_bounds (is_fp label) (combine y_true y_pred)) as Hf.
  pose proof (count_of_bounds (is_fn label) (combine y_true y_pred)) as Hn.
  rewrite length_combine, <- Hlen, Nat.min_id in Hb, Ht, Hf, Hn.
  rewrite !wrap_in_range
    by (unfold Int.in_range, Int.INT_MIN, Int.INT_MAX in *; lia).
  reflexivity.
Qed.

Lemma accuracy_eq (y_true y_pred : list Z) :
  length y_true = length y_pred ->
  Z.of_nat (length y_true) <= Int.INT_MAX ->
  accuracy y_true y_pred
  = Some (double_of_int (count_of agree (combine y_true y_pred))
          / double_of_size (length y_true))%float.
Proof.
  intros Hlen Hmax. unfold accuracy.
  pose proof (correct_loop_count y_true y_pred [] [] 0 Hlen eq_refl) as H.
  cbn [app length Nat.add Z.of_nat] in H.
  rewrite H by (assumption || simpl; lia). reflexivity.
Qed.

(** ** C3: per-label metrics *)

(** C3: for two sequences of equal length (within the range of the [int]
    counters) and a target label, the first loop ends with tp, fp and fn
    equal to the numbers of positions where both labels, only the predicted
    one, and only the true one equal the target; the result has support =
    the number of true labels equal to the target, precision = tp/(tp+fp)
    or 0 when tp+fp = 0, recall = tp/(tp+fn) or 0 when tp+fn = 0, and
    F1 = 2*precision*recall/(precision+recall) or 0 when that sum is 0;
    for a label that occurs in neither sequence precision, recall, F1 and
    support are all 0. No read is out of range. *)
Theorem compute_metrics_for_label_counts (y_true y_pred : list Z) (label : Z) :
  length y_true = length y_pred ->
  Z.of_nat (length y_true) <= Int.INT_MAX ->
  let pairs := combine y_true y_pred in
  let tp_ := count_of (is_tp label) pairs in
  let fp_ := count_of (is_fp label) pairs in
  let fn_ := count_of (is_fn label) pairs in
  confusion_loop (Z.to_nat (Int.of_size (length y_true))) y_true y_pred
                 label 0 (mkConfusion 0 0 0)
  = Some (mkConfusion tp_ fp_ fn_) /\
  exists m,
    compute_metrics_for_label y_true y_pred label = Some m /\
    support m = count_of (fun v => v =? label) y_true /\
    precision m = (if tp_ + fp_ =? 0 then 0%float
                   else (double_of_int tp_ / double_of_int (tp_ + fp_))%float) /\
    recall m = (if tp_ + fn_ =? 0 then 0%float
                else (double_of_int tp_ / double_of_int (tp_ + fn_))%float) /\
    f1 m = (if precision m + recall m =? 0 then 0
            else 2 * precision m * recall m / (precision m + recall m))%float /\
    (~ In label y_true -> ~ In label y_pred ->
     precision m = 0%float /\ recall m = 0%float /\ f1 m = 0%float /\
     support m = 0).
Proof.
  intros Hlen Hmax pairs tp_ fp_ fn_.
  split; [apply confusion_loop_total; assumption|].
  eexists. split; [apply compute_metrics_for_label_eq; assumption|].
  fold pairs tp_ fp_ fn_. unfold metrics_of_counts.
  cbn [support precision recall f1].
  do 4 (split; [reflexivity|]).
  intros Ht Hp.
  assert (Etp : tp_ = 0).
  { apply count_of_none. intros [a b] Hab. unfold is_tp. cbn [fst snd].
    apply in_combine_l in Hab.
    destruct (Z.eqb_spec a label); [subst; contradiction | reflexivity]. }
  assert (Efp : fp_ = 0).
  { apply count_of_none. intros [a b] Hab. unfold is_fp. cbn [fst snd].
    apply in_combine_r in Hab.
    destruct (Z.eqb_spec b label); [subst; contradiction|].
    apply andb_false_r. }
  assert (Efn : fn_ = 0).
  { apply count_of_none. intros [a b] Hab. unfold is_fn. cbn [fst snd].
    apply in_combine_l in Hab.
    destruct (Z.eqb_spec a label); [subst; contradiction | reflexivity]. }
  rewrite Etp, Efp, Efn.
  repeat split; try reflexivity.
  apply count_of_none. intros a Ha.
  destruct (Z.eqb_spec a label); [subst; contradiction | reflexivity].
Qed.

Lemma compute_metrics_for_label_counts_witness :
  exists m,
    compute_metrics_for_label [1; 0; 1; 2] [1; 1; 0; 2] 1 = Some m /\
    support m = 2 /\ precision m = 0.5%float /\ recall m = 0.5%float.
Proof.
  destruct (compute_metrics_for_label_counts [1; 0; 1; 2] [1; 1; 0; 2] 1
              eq_refl ltac:(small_length))
    as (_ & m & Hm & Hs & Hp & Hr & _).
  exists m. repeat split; assumption.
Defined.

(** ** C4: identical sequences score perfectly *)

Lemma combine_same_eq (l : list Z) a b : In (a, b) (combine l l) -> a = b.
Proof.
  induction l as [|x l IH]; simpl; [contradiction|].
  intros [H|H]; [congruence | auto].
Qed.

Lemma count_tp_same label (l : list Z) :
  count_of (is_tp label) (combine l l) = count_of (fun v => v =? label) l.
Proof.
  induction l as [|x l IH]; [reflexivity|].
  cbn [combine]. rewrite !count_of_cons, IH. unfold is_tp. cbn [fst snd].
  now destruct (x =? label).
Qed.

Lemma count_fp_same label (l : list Z) :
  count_of (is_fp label) (combine l l) = 0.
Proof.
  apply count_of_none. intros [a b] H. apply combine_same_eq in H. subst b.
  unfold is_fp. cbn [fst snd]. now destruct (a =? label).
Qed.

Lemma count_fn_same label (l : list Z) :
  count_of (is_fn label) (combine l l) = 0.
Proof.
  apply count_of_none. intros [a b] H. apply combine_same_eq in H. subst b.
  unfold is_fn. cbn [fst snd]. now destruct (a =? label).
Qed.

Lemma count_agree_same (l : list Z) :
  count_of agree (combine l l) = Z.of_nat (length l).
Proof.
  rewrite count_of_all.
  - now rewrite length_combine, Nat.min_id.
  - intros [a b] H. apply combine_same_eq in H. subst b.
    unfold agree. cbn [fst snd]. apply Z.eqb_refl.
Qed.

Lemma accuracy_same (ys : list Z) :
  ys <> [] -> Z.of_nat (length ys) <= Int.INT_MAX ->
  accuracy ys ys = Some 1%float.
Proof.
  intros Hne Hmax. pose proof (length_small_int _ Hmax) as Hsmall.
  rewrite accuracy_eq by trivial.
  rewrite count_agree_same, double_of_size_int.
  rewrite double_of_int_div_self; [reflexivity|].
  destruct ys; [contradiction | cbn [length] in *; lia].
Qed.

(** A label has positive support exactly when it occurs. *)
Lemma count_of_label_pos (label : Z) (ys : list Z) :
  0 < count_of (fun v => v =? label) ys <-> In label ys.
Proof.
  unfold count_of. split.
  - intros H. destruct (filter (fun v => v =? label) ys) as [|z l] eqn:E;
      [simpl in H; lia|].
    assert (Hin : In z (filter (fun v => v =? label) ys))
      by (rewrite E; now left).
    apply filter_In in Hin as [Hin Heq]. apply Z.eqb_eq in Heq. now subst z.
  - intros Hin.
    assert (H : In label (filter (fun v => v =? label) ys))
      by (apply filter_In; split; [assumption|apply Z.eqb_refl]).
    destruct (filter (fun v => v =? label) ys); [contradiction|].
    cbn [length]. lia.
Qed.

(** C4: for a non-empty label sequence (within the range of the [int]
    counters) compared with itself, the overall accuracy is 1.0; the
    support of a target label is the number of its occurrences in the
    sequence, positive exactly when the label occurs; and for every target
    label with positive support the precision, the recall and F1 are each
    1.0. *)
Theorem identical_sequences_perfect (ys : list Z) (label : Z) :
  ys <> [] ->
  Z.of_nat (length ys) <= Int.INT_MAX ->
  accuracy ys ys = Some 1%float /\
  exists m,
    compute_metrics_for_label ys ys label = Some m /\
    support m = count_of (fun v => v =? label) ys /\
    (0 < support m <-> In label ys) /\
    (0 < support m ->
     precision m = 1%float /\ recall m = 1%float /\ f1 m = 1%float).
Proof.
  intros Hne Hmax. pose proof (length_small_int _ Hmax) as Hsmall. split.
  - now apply accuracy_same.
  - eexists. split; [apply compute_metrics_for_label_eq; trivial|].
    rewrite count_tp_same, count_fp_same, count_fn_same.
    unfold metrics_of_counts. cbn [support precision recall f1].
    split; [reflexivity|]. split; [apply count_of_label_pos|].
    intros Hsup. rewrite Z.add_0_r.
    pose proof (count_of_bounds (fun v => v =? label) ys) as Hb.
    destruct (Z.eqb_spec (count_of (fun v => v =? label) ys) 0); [lia|].
    rewrite double_of_int_div_self by lia.
    repeat split; reflexivity.
Qed.

Lemma identical_sequences_perfect_witness :
  accuracy [0; 1; 1; 3] [0; 1; 1; 3] = Some 1%float /\
  exists m,
    compute_metrics_for_label [0; 1; 1; 3] [0; 1; 1; 3] 1 = Some m /\
    support m = 2 /\
    precision m = 1%float /\ recall m = 1%float /\ f1 m = 1%float.
Proof.
  destruct (identical_sequences_perfect [0; 1; 1; 3] 1
              ltac:(discriminate) ltac:(small_length))
    as (Ha & m & Hm & Hs & _ & Hp).
  split; [exact Ha|]. exists m. split; [exact Hm|].
  split; [exact Hs|]. apply Hp. rewrite Hs. reflexivity.
Defined.

(** ** C5: overall accuracy *)


(** The division is not guarded: the quotient of the empty pair would be
    [0.0 / 0.0].  [main] forms no such pair: it divides by the size of the
    test partition, 300 in every run. *)
Lemma accuracy_empty_nan : accuracy [] [] = Some nan.
Proof. reflexivity. Qed.

(** ** C7: the supports add up to the length *)

Lemma report_rows_supports (labels y_true y_pred : list Z) :
  length y_true = length y_pred ->
  Z.of_nat (length y_true) <= Int.INT_MAX ->
  exists rows,
    report_rows labels y_true y_pred = Some rows /\
    map fst rows = labels /\
    map (fun r => support (snd r)) rows
    = map (fun lbl => count_of (fun v => v =? lbl) y_true) labels.
Proof.
  intros Hlen Hmax. induction labels as [|lbl labels (rows & Hr & Hf & Hs)].
  - exists []. repeat split.
  - cbn [report_rows].
    rewrite compute_metrics_for_label_eq, Hr by assumption.
    eexists. split; [reflexivity|]. cbn [map fst snd]. split.
    + now rewrite Hf.
    + now rewrite Hs.
Qed.

Lemma supports_partition_4 (l : list Z) :
  Forall (fun v => 0 <= v <= 3) l ->
  count_of (fun v => v =? 0) l + count_of (fun v => v =? 1) l
  + count_of (fun v => v =? 2) l + count_of (fun v => v =? 3) l
  = Z.of_nat (length l).
Proof.
  induction 1 as [|v l Hv _ IH]; [reflexivity|].
  rewrite !count_of_cons. cbn [length].
  destruct (Z.eqb_spec v 0), (Z.eqb_spec v 1), (Z.eqb_spec v 2),
    (Z.eqb_spec v 3); lia.
Qed.

Lemma supports_partition_3 (l : list Z) :
  Forall (fun v => 0 <= v <= 2) l ->
  count_of (fun v => v =? 0) l + count_of (fun v => v =? 1) l
  + count_of (fun v => v =? 2) l
  = Z.of_nat (length l).
Proof.
  induction 1 as [|v l Hv _ IH]; [reflexivity|].
  rewrite !count_of_cons. cbn [length].
  destruct (Z.eqb_spec v 0), (Z.eqb_spec v 1), (Z.eqb_spec v 2); lia.
Qed.

(** C7: for two sequences of equal length (within the range of the [int]
    counters), the per-label reports are produced for every label of the
    space, and the supports they list add up to the length of the
    sequences: over labels 0..3 when the true labels lie in {0,1,2,3}, and
    over labels 0..2 when they lie in {0,1,2}. *)
Theorem supports_sum_to_length (y_true y_pred : list Z) :
  length y_true = length y_pred ->
  Z.of_nat (length y_true) <= Int.INT_MAX ->
  (Forall (fun v => 0 <= v <= 3) y_true ->
   exists rows,
     report_rows [0; 1; 2; 3] y_true y_pred = Some rows /\
     map fst rows = [0; 1; 2; 3] /\
     sum_supports rows = Z.of_nat (length y_true)) /\
  (Forall (fun v => 0 <= v <= 2) y_true ->
   exists rows,
     report_rows [0; 1; 2] y_true y_pred = Some rows /\
     map fst rows = [0; 1; 2] /\
     sum_supports rows = Z.of_nat (length y_true)).
Proof.
  intros Hlen Hmax. split; intros Hdom.
  - destruct (report_rows_supports [0; 1; 2; 3] y_true y_pred Hlen Hmax)
      as (rows & Hr & Hf & Hs).
    exists rows. repeat split; trivial.
    destruct rows as [|r0 [|r1 [|r2 [|r3 [|]]]]]; try discriminate.
    cbn [map] in Hs. injection Hs as H0 H1 H2 H3.
    cbn [sum_supports fold_right]. rewrite H0, H1, H2, H3.
    rewrite <- (supports_partition_4 y_true Hdom). lia.
  - destruct (report_rows_supports [0; 1; 2] y_true y_pred Hlen Hmax)
      as (rows & Hr & Hf & Hs).
    exists rows. repeat split; trivial.
    destruct rows as [|r0 [|r1 [|r2 [|]]]]; try discriminate.
    cbn [map] in Hs. injection Hs as H0 H1 H2.
    cbn [sum_supports fold_right]. rewrite H0, H1, H2.
    rewrite <- (supports_partition_3 y_true Hdom). lia.
Qed.

Lemma supports_sum_to_length_witness :
  exists rows,
    report_rows [0; 1; 2; 3] [0; 3; 3; 1; 2] [1; 3; 0; 1; 2] = Some rows /\
    map fst rows = [0; 1; 2; 3] /\
    sum_supports rows = 5.
Proof.
  destruct (supports_sum_to_length [0; 3; 3; 1; 2] [1; 3; 0; 1; 2]
              eq_refl ltac:(small_length)) as (H & _).
  apply H. repeat constructor; lia.
Defined.

(** ** C6: every sample carries the labels the rules give it *)

Lemma label_sample_labelled (s : Sample) : labelled (label_sample s).
Proof. destruct s. split; reflexivity. Qed.

(** The rules only ever produce labels of the two label spaces. *)
Lemma compute_aqi_level_range (s : Sample) : 0 <= compute_aqi_level s <= 3.
Proof.
  unfold compute_aqi_level.
  destruct (aqi_score s <? 50)%float; [lia|].
  destruct (aqi_score s <? 100)%float; [lia|].
  destruct (aqi_score s <? 200)%float; lia.
Qed.

Lemma compute_health_risk_range (s : Sample) : 0 <= compute_health_risk s <= 2.
Proof.
  unfold compute_health_risk.
  destruct (AQI_Level s =? 0); [lia|].
  destruct (AQI_Level s =? 1); [lia|].
  destruct ((AQI_Level s =? 2) && (CityType s =? 1)); [lia|].
  destruct (AQI_Level s =? 3); [lia|].
  destruct (CityType s =? 1); lia.
Qed.

Lemma train_size_value : train_size = 1200.
Proof. vm_compute. reflexivity. Qed.

Section DriverProperties.

Variable rng : Type.
Variable uniform_real_distribution : float -> float -> rng -> float * rng.
Variable uniform_int_distribution : Z -> Z -> rng -> Z * rng.
Variable shuffle : list Sample -> rng -> list Sample * rng.
Variable uninit : nat -> Sample.

(** [std::shuffle] reorders the vector and does nothing else to it. *)
Hypothesis shuffle_permutes :
  forall l g, Permutation l (fst (shuffle l g)).

#[local] Abbreviation gen_sample' :=
  (gen_sample rng uniform_real_distribution uniform_int_distribution uninit).
#[local] Abbreviation generate' :=
  (generate rng uniform_real_distribution uniform_int_distribution uninit).
#[local] Abbreviation evaluate' :=
  (evaluate rng uniform_real_distribution uniform_int_distribution shuffle
            uninit).
#[local] Abbreviation main' :=
  (main rng uniform_real_distribution uniform_int_distribution shuffle uninit).

Lemma gen_sample_labelled i g : labelled (fst (gen_sample' i g)).
Proof.
  unfold gen_sample, rnd_double, rnd_int.
  repeat match goal with
  | |- context [let '(_, _) := ?e in _] => destruct e
  end.
  apply label_sample_labelled.
Qed.

Lemma generate_labelled steps :
  forall i g data,
    Forall labelled data ->
    Forall labelled (fst (generate' steps i g data)) /\
    length (fst (generate' steps i g data)) = (length data + steps)%nat.
Proof.
  induction steps as [|k IH]; intros i g data Hd.
  - simpl. split; [assumption | lia].
  - cbn [generate].
    pose proof (gen_sample_labelled i g) as Hs.
    destruct (gen_sample _ _ _ _ i g) as [s g'].
    destruct (IH (S i) g' (data ++ [s])) as [H1 H2].
    + apply Forall_app. split; [assumption|]. constructor; [exact Hs | constructor].
    + split; [exact H1|]. rewrite H2, length_app. simpl. lia.
Qed.

Lemma Forall_firstn_skipn {A} (P : A -> Prop) n (l : list A) :
  Forall P l -> Forall P (firstn n l) /\ Forall P (skipn n l).
Proof.
  intros H. rewrite <- (firstn_skipn n l) in H.
  now apply Forall_app in H.
Qed.

(** The predictor re-applies the rule that set the stored labels. *)
Lemma collect_labels_identical (test : list Sample) :
  Forall labelled test ->
  y_pred_aqi (collect_labels test) = y_true_aqi (collect_labels test) /\
  y_pred_hr (collect_labels test) = y_true_hr (collect_labels test).
Proof.
  intros H. unfold collect_labels. cbn [y_pred_aqi y_true_aqi y_pred_hr y_true_hr].
  split; apply map_ext_in; intros s Hs;
    rewrite Forall_forall in H; destruct (H s Hs) as [H1 H2]; congruence.
Qed.

(** What steps 1 to 4 of [main] build. *)
Lemma evaluate_structure (g : rng) :
  let generated := fst (generate' (Z.to_nat N) 0%nat g []) in
  let ev := fst (evaluate' g) in
  (length generated = 1500%nat /\ Forall labelled generated) /\
  (Permutation generated (ev_data ev) /\
   ev_train ev ++ ev_test ev = ev_data ev /\
   length (ev_train ev) = 1200%nat /\ length (ev_test ev) = 300%nat) /\
  (Forall labelled (ev_data ev) /\ Forall labelled (ev_train ev) /\
   Forall labelled (ev_test ev)) /\
  (y_true_aqi (ev_labels ev) = map AQI_Level (ev_test ev) /\
   y_true_hr (ev_labels ev) = map Health_Risk (ev_test ev) /\
   y_pred_aqi (ev_labels ev) = y_true_aqi (ev_labels ev) /\
   y_pred_hr (ev_labels ev) = y_true_hr (ev_labels ev)).
Proof.
  intros generated ev.
  destruct (generate_labelled (Z.to_nat N) 0%nat g [] (Forall_nil _))
    as [Hg Hlen].
  fold generated in Hg, Hlen.
  change (length [] + Z.to_nat N)%nat with 1500%nat in Hlen.
  assert (Hperm : Permutation generated (ev_data ev)).
  { subst ev generated. unfold evaluate.
    destruct (generate _ _ _ _ _ _ g []) as [data g1]. cbn [fst].
    pose proof (shuffle_permutes data g1) as Hp.
    destruct (shuffle data g1) as [sh g2]. exact Hp. }
  assert (Hsplit : ev_train ev = firstn 1200 (ev_data ev) /\
                   ev_test ev = skipn 1200 (ev_data ev) /\
                   ev_labels ev = collect_labels (ev_test ev)).
  { subst ev. unfold evaluate. rewrite train_size_value.
    destruct (generate _ _ _ _ _ _ g []) as [data g1].
    destruct (shuffle data g1) as [sh g2]. repeat split. }
  destruct Hsplit as (Htr & Hte & Hlab).
  assert (Hd : Forall labelled (ev_data ev))
    by (eapply Permutation_Forall; eassumption).
  assert (Hdl : length (ev_data ev) = 1500%nat)
    by (rewrite <- (Permutation_length Hperm); exact Hlen).
  destruct (Forall_firstn_skipn labelled 1200 _ Hd) as [Hft Hfs].
  rewrite <- Htr in Hft. rewrite <- Hte in Hfs.
  repeat split; trivial.
  - rewrite Htr, Hte. apply firstn_skipn.
  - rewrite Htr, length_firstn, Hdl. reflexivity.
  - rewrite Hte, length_skipn, Hdl. reflexivity.
  - rewrite Hlab. reflexivity.
  - rewrite Hlab. reflexivity.
  - rewrite Hlab. now apply collect_labels_identical.
  - rewrite Hlab. now apply collect_labels_identical.
Qed.

Lemma interactive_labelled (s0 : Sample) (cin : list string) :
  labelled (query (interactive s0 cin)).
Proof.
  unfold interactive, predict_line.
  destruct (String.eqb _ _); [|destruct (parse_sample _ _)];
    apply label_sample_labelled.
Qed.

(** [main] is the evaluation followed by the query. *)
Lemma main_parts (g : rng) (cin : list string) :
  run_evaluation (main' g cin) = fst (evaluate' g) /\
  run_prediction (main' g cin) = interactive (uninit 1500%nat) cin.
Proof.
  unfold main. destruct (evaluate _ _ _ _ _ g) as [ev g']. split; reflexivity.
Qed.

(** The evaluation compares each label sequence with itself, so that both
    accuracies of the report are exactly 1.0. *)
Lemma driver_accuracy_perfect (g : rng) :
  acc_aqi (fst (evaluate' g)) = Some 1%float /\
  acc_hr (fst (evaluate' g)) = Some 1%float.
Proof.
  destruct (evaluate_structure g)
    as (_ & (_ & _ & _ & Hn) & _ & (Ha & Hh & Hpa & Hph)).
  assert (Hacc : acc_aqi (fst (evaluate' g))
                 = accuracy (y_true_aqi (ev_labels (fst (evaluate' g))))
                            (y_pred_aqi (ev_labels (fst (evaluate' g)))) /\
                 acc_hr (fst (evaluate' g))
                 = accuracy (y_true_hr (ev_labels (fst (evaluate' g))))
                            (y_pred_hr (ev_labels (fst (evaluate' g))))).
  { unfold evaluate.
    destruct (generate _ _ _ _ _ _ g []) as [data g1].
    destruct (shuffle data g1) as [sh g2]. split; reflexivity. }
  destruct Hacc as [Ea Eh]. rewrite Ea, Eh, Hpa, Hph.
  split; apply accuracy_same.
  - rewrite Ha. intros E. apply (f_equal (@length Z)) in E.
    rewrite length_map, Hn in E. discriminate.
  - rewrite Ha, length_map, Hn. unfold Int.INT_MAX. simpl. lia.
  - rewrite Hh. intros E. apply (f_equal (@length Z)) in E.
    rewrite length_map, Hn in E. discriminate.
  - rewrite Hh, length_map, Hn. unfold Int.INT_MAX. simpl. lia.
Qed.

(** C6: in a run of [main], the 1500 generated samples all carry the labels
    the two rules compute from their fields; the shuffled vector and its
    train (1200) and test (300) partitions consist of exactly these samples,
    unchanged, so they carry them too; the labels predicted for the test
    partition are the stored ones; and the interactive sample, whatever the
    input, is labelled by the same two rules. *)
Theorem samples_stay_labelled (g : rng) (cin : list string) :
  let generated := fst (generate' (Z.to_nat N) 0%nat g []) in
  let run := main' g cin in
  let ev := run_evaluation run in
  (length generated = 1500%nat /\ Forall labelled generated) /\
  (Permutation generated (ev_data ev) /\
   ev_train ev ++ ev_test ev = ev_data ev /\
   length (ev_train ev) = 1200%nat /\ length (ev_test ev) = 300%nat) /\
  (Forall labelled (ev_data ev) /\ Forall labelled (ev_train ev) /\
   Forall labelled (ev_test ev)) /\
  (y_true_aqi (ev_labels ev) = map AQI_Level (ev_test ev) /\
   y_true_hr (ev_labels ev) = map Health_Risk (ev_test ev) /\
   y_pred_aqi (ev_labels ev) = y_true_aqi (ev_labels ev) /\
   y_pred_hr (ev_labels ev) = y_true_hr (ev_labels ev)) /\
  labelled (query (run_prediction run)).
Proof.
  intros generated run ev.
  destruct (main_parts g cin) as [He Hp]. fold run in He, Hp.
  subst ev. rewrite He, Hp.
  destruct (evaluate_structure g) as (H1 & H2 & H3 & H4).
  repeat (split; [assumption|]). apply interactive_labelled.
Qed.



End DriverProperties.

Lemma samples_stay_labelled_witness :
  Forall labelled
    (ev_test (run_evaluation
       (main unit (fun a _ g => (a, g)) (fun a _ g => (a, g))
             (fun l g => (rev l, g)) (fun _ => junk) tt []))).
Proof.
  destruct (samples_stay_labelled unit (fun a _ g => (a, g))
              (fun a _ g => (a, g)) (fun l g => (rev l, g))
              (fun _ => junk)
              (fun l _ => Permutation_rev l) tt [])
    as (_ & _ & (_ & _ & H) & _).
  exact H.
Defined.


(** ** C8: input lines that hold fewer than nine numbers *)

(** C8, counterexample: a line with ten numeric fields is not [demo] and is
    no line of nine numeric fields, yet its first nine fields are read and
    classified (here as Good / Low, where the demo sample is Moderate /
    Medium); an empty first line makes the program read the next line. *)
Lemma extra_field_line_is_parsed :
  ~ (forall uninit line,
       line <> "demo"%string -> nine_numeric_fields line = false ->
       answers_as_demo uninit [line]) /\
  ~ (forall uninit line rest,
       line <> "demo"%string -> nine_numeric_fields line = false ->
       answers_as_demo uninit (line :: rest)).
Proof.
  split; intros H.
  - specialize (H junk "0 0 0 0 0 0 0 0 0 0"%string ltac:(discriminate) eq_refl).
    vm_compute in H. discriminate.
  - specialize (H junk ""%string ["0 0 0 0 0 0 0 0 0"%string]
                  ltac:(discriminate) eq_refl).
    vm_compute in H. discriminate.
Qed.

Lemma label_sample_in_range (s : Sample) :
  0 <= AQI_Level (label_sample s) <= 3 /\
  0 <= Health_Risk (label_sample s) <= 2.
Proof.
  destruct (label_sample_labelled s) as [H1 H2]. rewrite H1, H2.
  split; [apply compute_aqi_level_range | apply compute_health_risk_range].
Qed.

(** The two look-ups of the label names are within the arrays, whatever
    the input. *)
Lemma interactive_names_defined (uninit : Sample) (cin : list string) :
  aqi_name (interactive uninit cin) <> None /\
  hr_name (interactive uninit cin) <> None.
Proof.
  unfold interactive, predict_line.
  set (s := if String.eqb _ _ then _ else _).
  destruct s as [[s demo] notice]. cbn [aqi_name hr_name].
  destruct (label_sample_in_range s) as [Ha Hr].
  unfold array_at. split.
  - destruct (Z.ltb_spec (AQI_Level (label_sample s)) 0); [lia|].
    apply nth_error_Some. unfold AQI_labels. cbn [length]. lia.
  - destruct (Z.ltb_spec (Health_Risk (label_sample s)) 0); [lia|].
    apply nth_error_Some. unfold HR_labels. cbn [length]. lia.
Qed.

Lemma empty_line_unparsable (uninit : Sample) :
  parse_sample EmptyString uninit = None.
Proof. reflexivity. Qed.

(** *** Character classes *)

Lemma is_digit_digit_of (c : ascii) :
  is_digit c = true -> exists d, digit_of c = Some d.
Proof.
  unfold is_digit, digit_of. cbv zeta. intros ->. eexists; reflexivity.
Qed.

Lemma not_digit_digit_of (c : ascii) : is_digit c = false -> digit_of c = None.
Proof. unfold is_digit, digit_of. cbv zeta. intros ->. reflexivity. Qed.

Lemma space_is_plain (c : ascii) :
  is_space c = true ->
  is_digit c = false /\ Ascii.eqb c "-" = false /\ Ascii.eqb c "+" = false /\
  Ascii.eqb c "." = false /\ Ascii.eqb c "e" = false /\ Ascii.eqb c "E" = false.
Proof. each_char c. Qed.

Lemma starts_number_no_space (c : ascii) :
  starts_number c = true -> is_space c = false.
Proof. each_char c. Qed.

Lemma starts_number_false (c : ascii) :
  starts_number c = false ->
  is_digit c = false /\ Ascii.eqb c "-" = false /\ Ascii.eqb c "+" = false /\
  Ascii.eqb c "." = false.
Proof.
  unfold starts_number. intros H.
  apply orb_false_iff in H as [H H3]. apply orb_false_iff in H as [H H2].
  apply orb_false_iff in H as [H0 H1]. auto.
Qed.

(** *** The pieces of the extraction *)

Lemma skip_ws_blank (l : list ascii) :
  forallb is_space l = true -> skip_ws l = [].
Proof.
  induction l as [|c l IH]; [reflexivity|]. simpl.
  intros H. apply andb_true_iff in H as [-> H]. auto.
Qed.

Lemma skip_ws_app_blank (pre l : list ascii) :
  forallb is_space pre = true -> skip_ws (pre ++ l) = skip_ws l.
Proof.
  induction pre as [|c pre IH]; [reflexivity|]. simpl.
  intros H. apply andb_true_iff in H as [-> H]. auto.
Qed.

Lemma skip_ws_app (l x : list ascii) :
  skip_ws l <> [] -> skip_ws (l ++ x) = skip_ws l ++ x.
Proof.
  induction l as [|c l IH]; [intros H; now elim H|]. simpl.
  destruct (is_space c); [exact IH|reflexivity].
Qed.

Lemma read_sign_app (l x : list ascii) :
  l <> [] -> read_sign (l ++ x) = (fst (read_sign l), snd (read_sign l) ++ x).
Proof.
  destruct l as [|c l]; [intros H; now elim H|]. intros _. simpl.
  destruct (Ascii.eqb c "-"); [reflexivity|].
  destruct (Ascii.eqb c "+"); reflexivity.
Qed.

(** Digits are read up to the first character that is none. *)
Lemma read_digits_all (ds x : list ascii) :
  forallb is_digit ds = true ->
  match x with c :: _ => is_digit c = false | [] => True end ->
  forall v n, exists v',
    read_digits (ds ++ x) v n = (v', n + Z.of_nat (length ds), x).
Proof.
  intros Hd Hx. induction ds as [|c ds IH]; intros v n.
  - exists v. simpl. rewrite Z.add_0_r.
    destruct x as [|c x]; [reflexivity|]. simpl.
    now rewrite (not_digit_digit_of c Hx).
  - simpl in Hd. apply andb_true_iff in Hd as [Hc Hd].
    destruct (is_digit_digit_of c Hc) as [d Ed].
    destruct (IH Hd (10 * v + d) (n + 1)) as [v' E].
    exists v'. cbn [app read_digits length]. rewrite Ed, E.
    f_equal. f_equal. lia.
Qed.

(** What is read does not depend on what follows the character at which the
    reading stopped. *)
Lemma read_digits_app (l x : list ascii) :
  forall v n v' n' r,
    read_digits l v n = (v', n', r) -> r <> [] ->
    read_digits (l ++ x) v n = (v', n', r ++ x).
Proof.
  induction l as [|c l IH]; intros v n v' n' r E Hr.
  - simpl in E. injection E as <- <- <-. now elim Hr.
  - cbn [app read_digits] in *. destruct (digit_of c) as [d|].
    + now apply IH.
    + injection E as <- <- <-. reflexivity.
Qed.

(** At the end of the text, anything but a digit stops the reading. *)
Lemma read_digits_app_end (l x : list ascii) :
  match x with c :: _ => is_digit c = false | [] => True end ->
  forall v n v' n',
    read_digits l v n = (v', n', []) ->
    read_digits (l ++ x) v n = (v', n', x).
Proof.
  intros Hx. induction l as [|c l IH]; intros v n v' n' E.
  - simpl in E. injection E as <- <-. simpl.
    destruct x as [|c x]; [reflexivity|]. simpl.
    now rewrite (not_digit_digit_of c Hx).
  - cbn [app read_digits] in *. destruct (digit_of c) as [d|].
    + now apply IH.
    + discriminate.
Qed.

(** *** Where no number starts, both extractions fail *)

Lemma no_number_fails (l : list ascii) :
  no_number_at l = true -> extract_double l = None /\ extract_int l = None.
Proof.
  unfold no_number_at, extract_double, extract_int.
  destruct (skip_ws l) as [|c r]; [auto|]. intros H.
  apply negb_true_iff, starts_number_false in H as (Hd & Hm & Hp & Hq).
  unfold read_sign. rewrite Hm, Hp. cbn [read_digits].
  rewrite (not_digit_digit_of c Hd), Hq. auto.
Qed.

(** *** The extraction of a real, stage by stage *)

Lemma extract_double_stages (l : list ascii) :
  extract_double l
  = match skip_ws l with
    | [] => None
    | l0 =>
        let '(neg, l1) := read_sign l0 in
        let '(ival, icount, l2) := read_digits l1 0 0 in
        let '(mant, fcount, l3) := read_fraction l2 ival in
        if icount + fcount =? 0 then None
        else
          let '(exp_ok, e10, l4) := read_exponent l3 in
          if exp_ok then
            match decimal_to_double neg mant (e10 - fcount) with
            | S754_infinity _ => None
            | x => Some (SF2Prim x, l4)
            end
          else None
    end.
Proof. reflexivity. Qed.

Lemma extract_double_run (l : list ascii) c r neg l1 iv ic l2 m fc l3 ok e l4 :
  skip_ws l = c :: r -> read_sign (c :: r) = (neg, l1) ->
  read_digits l1 0 0 = (iv, ic, l2) -> read_fraction l2 iv = (m, fc, l3) ->
  read_exponent l3 = (ok, e, l4) ->
  extract_double l
  = if ic + fc =? 0 then None
    else if ok then
      match decimal_to_double neg m (e - fc) with
      | S754_infinity _ => None
      | x => Some (SF2Prim x, l4)
      end
    else None.
Proof.
  intros E0 E1 E2 E3 E4. rewrite extract_double_stages, E0, E1, E2, E3, E4.
  reflexivity.
Qed.

Lemma extract_double_inv (l : list ascii) (v : float) (rest : list ascii) :
  extract_double l = Some (v, rest) ->
  exists c r neg l1 iv ic l2 m fc l3 e,
    skip_ws l = c :: r /\ read_sign (c :: r) = (neg, l1) /\
    read_digits l1 0 0 = (iv, ic, l2) /\ read_fraction l2 iv = (m, fc, l3) /\
    read_exponent l3 = (true, e, rest).
Proof.
  rewrite extract_double_stages.
  destruct (skip_ws l) as [|c r] eqn:E0; [discriminate|].
  destruct (read_sign (c :: r)) as [neg l1] eqn:E1.
  destruct (read_digits l1 0 0) as [[iv ic] l2] eqn:E2.
  destruct (read_fraction l2 iv) as [[m fc] l3] eqn:E3.
  destruct (ic + fc =? 0); [discriminate|].
  destruct (read_exponent l3) as [[ok e] l4] eqn:E4.
  destruct ok; [|discriminate].
  intros H. assert (l4 = rest).
  { destruct (decimal_to_double neg m (e - fc)); try discriminate;
      injection H as _ <-; reflexivity. }
  subst l4. exists c, r, neg, l1, iv, ic, l2, m, fc, l3, e. auto.
Qed.

Lemma read_fraction_break (rest : list ascii) (iv : Z) :
  at_break rest = true -> read_fraction rest iv = (iv, 0, rest).
Proof.
  destruct rest as [|c r]; [reflexivity|]. simpl. intros H.
  destruct (space_is_plain c H) as (_ & _ & _ & -> & _). reflexivity.
Qed.

Lemma read_exponent_break (rest : list ascii) :
  at_break rest = true -> read_exponent rest = (true, 0, rest).
Proof.
  destruct rest as [|c r]; [reflexivity|]. simpl. intros H.
  destruct (space_is_plain c H) as (_ & _ & _ & _ & -> & ->). reflexivity.
Qed.

Lemma break_no_digit (rest : list ascii) :
  at_break rest = true ->
  match rest with c :: _ => is_digit c = false | [] => True end.
Proof.
  destruct rest as [|c r]; [trivial|]. simpl. intros H.
  now destruct (space_is_plain c H).
Qed.

(** *** A decimal numeral is extracted whole *)

Lemma digits_and_point_seen (l : list ascii) :
  digits_and_point l true = true -> forallb is_digit l = true.
Proof.
  induction l as [|c l IH]; [reflexivity|]. simpl.
  destruct (is_digit c); [exact IH|]. rewrite andb_false_r. discriminate.
Qed.

Lemma digits_and_point_shape (l : list ascii) :
  digits_and_point l false = true ->
  forallb is_digit l = true \/
  exists ip fr, l = ip ++ "."%char :: fr /\
    forallb is_digit ip = true /\ forallb is_digit fr = true.
Proof.
  induction l as [|c l IH]; [now left|]. simpl.
  destruct (is_digit c) eqn:Hc.
  - intros H. destruct (IH H) as [Hl|(ip & fr & -> & Hi & Hf)].
    + left. exact Hl.
    + right. exists (c :: ip), fr. simpl. rewrite Hc. auto.
  - intros H. right. rewrite andb_true_r in H.
    apply andb_true_iff in H as [Hp Hl]. apply Ascii.eqb_eq in Hp. subst c.
    exists [], l. repeat split. now apply digits_and_point_seen.
Qed.

Lemma existsb_digit_point (ip fr : list ascii) :
  existsb is_digit (ip ++ "."%char :: fr) = true ->
  (0 < length ip + length fr)%nat.
Proof.
  destruct ip as [|a ip]; [|simpl; lia].
  destruct fr as [|b fr]; [discriminate|simpl; lia].
Qed.

Lemma numeral_first (f : list ascii) :
  decimal_numeral f = true ->
  exists c r neg, f = c :: r /\ is_space c = false /\
    forall x, read_sign (f ++ x) = (neg, unsigned f ++ x).
Proof.
  unfold decimal_numeral. intros H. apply andb_true_iff in H as [H1 H2].
  destruct f as [|c r]; [discriminate|]. unfold unsigned in *.
  destruct (Ascii.eqb c "-" || Ascii.eqb c "+") eqn:Hs.
  - exists c, r. destruct (Ascii.eqb c "-") eqn:Hm.
    + exists true. repeat split.
      * apply Ascii.eqb_eq in Hm. now subst c.
      * intros x. simpl. now rewrite Hm.
    + exists false. simpl in Hs. repeat split.
      * apply Ascii.eqb_eq in Hs. now subst c.
      * intros x. simpl. now rewrite Hm, Hs.
  - exists c, r, false. apply orb_false_iff in Hs as [Hm Hp]. repeat split.
    + apply starts_number_no_space. unfold starts_number. simpl in H1.
      destruct (is_digit c); [reflexivity|].
      rewrite andb_true_r in H1. apply andb_true_iff in H1 as [-> _].
      now rewrite !orb_true_r.
    + intros x. simpl. now rewrite Hm, Hp.
Qed.

Lemma extract_double_numeral (pre f rest : list ascii) :
  forallb is_space pre = true -> decimal_numeral f = true ->
  at_break rest = true ->
  extract_double (pre ++ f ++ rest) = None \/
  exists v, extract_double (pre ++ f ++ rest) = Some (v, rest).
Proof.
  intros Hpre Hnum Hbr.
  destruct (numeral_first f Hnum) as (c & r & neg & Ef & Hc & Hsign).
  unfold decimal_numeral in Hnum. apply andb_true_iff in Hnum as [Hshape Hex].
  assert (E0 : skip_ws (pre ++ f ++ rest) = c :: r ++ rest).
  { rewrite skip_ws_app_blank by assumption. subst f. simpl. now rewrite Hc. }
  assert (E1 : read_sign (c :: r ++ rest) = (neg, unsigned f ++ rest)).
  { rewrite <- (Hsign rest). now subst f. }
  pose proof (break_no_digit rest Hbr) as Hnd.
  assert (G : exists iv ic l2 m fc,
             read_digits (unsigned f ++ rest) 0 0 = (iv, ic, l2) /\
             read_fraction l2 iv = (m, fc, rest) /\ ic + fc <> 0).
  { destruct (digits_and_point_shape _ Hshape) as [Hall|(ip & fr & Eb & Hi & Hf)].
    - destruct (read_digits_all (unsigned f) rest Hall Hnd 0 0) as [iv E2].
      exists iv, (0 + Z.of_nat (length (unsigned f))), rest, iv, 0.
      split; [exact E2|]. split; [now apply read_fraction_break|].
      destruct (unsigned f); [discriminate|]. simpl length. lia.
    - pose proof (existsb_digit_point ip fr) as Hlen.
      rewrite <- Eb in Hlen. specialize (Hlen Hex). rewrite Eb.
      destruct (read_digits_all ip ("."%char :: fr ++ rest) Hi eq_refl 0 0)
        as [iv E2].
      destruct (read_digits_all fr rest Hf Hnd iv 0) as [m E3].
      exists iv, (0 + Z.of_nat (length ip)), ("."%char :: fr ++ rest), m,
        (0 + Z.of_nat (length fr)).
      split; [rewrite <- app_assoc; exact E2|]. split; [exact E3|]. lia. }
  destruct G as (iv & ic & l2 & m & fc & E2 & E3 & Hcount).
  rewrite (extract_double_run _ _ _ _ _ _ _ _ _ _ _ _ _ _ E0 E1 E2 E3
             (read_exponent_break rest Hbr)).
  apply Z.eqb_neq in Hcount. rewrite Hcount.
  destruct (decimal_to_double neg m (0 - fc));
    [right; eexists; reflexivity|now left|right; eexists; reflexivity
    |right; eexists; reflexivity].
Qed.

(** *** The fields of a line *)

Lemma tokens_space (c : ascii) (l : list ascii) (fs : list (list ascii)) :
  is_space c = true -> tokens l fs -> tokens (c :: l) fs.
Proof.
  intros Hc H. destruct H as [l Hb|pre d f rest fs Hp Hd Hr Ht].
  - apply tokens_nil. simpl. now rewrite Hc.
  - apply (tokens_cons (c :: pre) d f rest fs); trivial.
    simpl. now rewrite Hc.
Qed.

Lemma split_fields_tokens (l : list ascii) :
  tokens l (split_fields l []) /\
  forall cur, cur <> [] ->
    exists f1 rest fs,
      l = f1 ++ rest /\ at_break rest = true /\ tokens rest fs /\
      split_fields l cur = (rev cur ++ f1) :: fs.
Proof.
  induction l as [|c l [IH0 IH1]].
  - split; [now apply tokens_nil|]. intros cur Hcur.
    exists [], [], []. repeat split; [now apply tokens_nil|].
    simpl. rewrite app_nil_r. destruct cur; [now elim Hcur|reflexivity].
  - destruct (is_space c) eqn:Hc.
    + split.
      * simpl. rewrite Hc. now apply tokens_space.
      * intros cur Hcur. exists [], (c :: l), (split_fields l []).
        repeat split; [exact Hc|now apply tokens_space|].
        simpl. rewrite Hc, app_nil_r. destruct cur; [now elim Hcur|reflexivity].
    + split.
      * simpl. rewrite Hc.
        destruct (IH1 [c] ltac:(discriminate)) as (f1 & rest & fs & -> & Hr & Ht & ->).
        apply (tokens_cons [] c f1 rest fs); trivial.
      * intros cur Hcur. simpl split_fields. rewrite Hc.
        destruct (IH1 (c :: cur) ltac:(discriminate))
          as (f1 & rest & fs & -> & Hr & Ht & ->).
        exists (c :: f1), rest, fs. repeat split; trivial.
        simpl rev. now rewrite <- app_assoc.
Qed.

Lemma tokens_numerals (l : list ascii) (fs : list (list ascii)) :
  tokens l fs ->
  forall k, leading_numerals fs = (k, true) -> numerals_then_stop k l.
Proof.
  induction 1 as [l Hb|pre c f rest fs Hp Hc Hr Ht IH]; intros k.
  - simpl. intros [= <-]. apply nts_stop. unfold no_number_at.
    now rewrite skip_ws_blank.
  - cbn [leading_numerals]. destruct (decimal_numeral (c :: f)) eqn:Hn.
    + destruct (leading_numerals fs) as [k' stop]. intros [= <- ->].
      apply nts_numeral; auto.
    + intros [= <- Hs]. apply nts_stop. unfold no_number_at.
      rewrite skip_ws_app_blank by assumption. simpl. now rewrite Hc.
Qed.

(** *** Fewer than nine numbers do not make a sample *)

Lemma numerals_extract_doubles (n : nat) :
  forall k l r, numerals_then_stop k l -> extract_doubles n l = Some r ->
    (n <= k)%nat /\ numerals_then_stop (k - n) r.
Proof.
  induction n as [|n IH]; intros k l r H.
  - simpl. intros [= <-]. split; [lia|]. now rewrite Nat.sub_0_r.
  - simpl. destruct H as [l Hs|k pre f rest Hp Hn Hr Ht].
    + now rewrite (proj1 (no_number_fails l Hs)).
    + destruct (extract_double_numeral pre f rest Hp Hn Hr) as [->|[v ->]];
        [discriminate|].
      intros E. destruct (IH k rest r Ht E). split; [lia|assumption].
Qed.

Lemma parse_sample_inv (line : string) (u s : Sample) :
  parse_sample line u = Some s ->
  exists r z r',
    extract_doubles 8 (list_ascii_of_string line) = Some r /\
    extract_int r = Some (z, r').
Proof.
  unfold parse_sample. cbv zeta. cbn [extract_doubles].
  repeat (let p := fresh "p" in
          destruct (extract_double _) as [[? ?]|]; [|discriminate]).
  destruct (extract_int _) as [[z r']|] eqn:E; [|discriminate].
  intros _. eauto.
Qed.

Lemma fewer_than_nine_unparsable (line : string) (u : Sample) :
  fewer_than_nine_numbers line = true -> parse_sample line u = None.
Proof.
  unfold fewer_than_nine_numbers.
  destruct (leading_numerals _) as [k stop] eqn:E. intros H.
  apply andb_true_iff in H as [-> Hk]. apply Nat.ltb_lt in Hk.
  pose proof (tokens_numerals _ _ (proj1 (split_fields_tokens _)) k E) as Hn.
  destruct (parse_sample line u) as [s|] eqn:Ep; [|reflexivity].
  destruct (parse_sample_inv line u s Ep) as (r & z & r' & Ed & Ei).
  destruct (numerals_extract_doubles 8 k _ r Hn Ed) as [Hle Hr].
  replace (k - 8)%nat with O in Hr by lia.
  inversion Hr as [l Hs|]; subst.
  rewrite (proj2 (no_number_fails r Hs)) in Ei. discriminate.
Qed.

(** *** What follows the nine numbers is not looked at *)

Lemma read_fraction_app (l2 x : list ascii) (iv m fc : Z) (l3 : list ascii) :
  read_fraction l2 iv = (m, fc, l3) -> l3 <> [] ->
  read_fraction (l2 ++ x) iv = (m, fc, l3 ++ x).
Proof.
  destruct l2 as [|c r]; simpl.
  - intros [= <- <- <-] H. now elim H.
  - destruct (Ascii.eqb c ".").
    + apply read_digits_app.
    + intros [= <- <- <-] _. reflexivity.
Qed.

Lemma read_exponent_app (l3 x : list ascii) (e : Z) (l4 : list ascii) :
  read_exponent l3 = (true, e, l4) -> l4 <> [] ->
  read_exponent (l3 ++ x) = (true, e, l4 ++ x).
Proof.
  destruct l3 as [|c r]; simpl.
  - intros [= <- <-] H. now elim H.
  - destruct (Ascii.eqb c "e" || Ascii.eqb c "E").
    + destruct (read_sign r) as [eneg r1] eqn:E1.
      destruct (read_digits r1 0 0) as [[ev ecount] r2] eqn:E2.
      intros [= Hc <- <-] Hr.
      assert (r <> []).
      { intros ->. simpl in E1. injection E1 as <- <-. simpl in E2.
        injection E2 as <- <- <-. now elim Hr. }
      rewrite (read_sign_app r x) by assumption. rewrite E1. cbn [fst snd].
      rewrite (read_digits_app r1 x 0 0 ev ecount r2 E2 Hr), Hc. reflexivity.
    + intros [= <- <-] _. reflexivity.
Qed.

(** The extraction of a real that stops inside the text reads the same
    whatever is appended to the text. *)
Lemma extract_double_app (l x : list ascii) (v : float) (r : list ascii) :
  extract_double l = Some (v, r) -> r <> [] ->
  extract_double (l ++ x) = Some (v, r ++ x).
Proof.
  intros E Hr. pose proof E as E'. rewrite extract_double_stages in E'.
  destruct (extract_double_inv l v r E)
    as (c & r0 & neg & l1 & iv & ic & l2 & m & fc & l3 & e
        & E0 & E1 & E2 & E3 & E4).
  rewrite E0, E1, E2, E3, E4 in E'.
  assert (H3 : l3 <> []).
  { intros ->. simpl in E4. injection E4 as <- <-. now elim Hr. }
  assert (H2 : l2 <> []).
  { intros ->. simpl in E3. injection E3 as <- <- <-. now elim H3. }
  assert (E0' : skip_ws (l ++ x) = c :: r0 ++ x).
  { rewrite skip_ws_app, E0; [reflexivity|]. rewrite E0. discriminate. }
  assert (E1' : read_sign (c :: r0 ++ x) = (neg, l1 ++ x)).
  { change (c :: r0 ++ x) with ((c :: r0) ++ x).
    rewrite read_sign_app, E1 by discriminate. reflexivity. }
  rewrite (extract_double_run (l ++ x) c (r0 ++ x) neg (l1 ++ x) iv ic
             (l2 ++ x) m fc (l3 ++ x) true e (r ++ x) E0' E1'
             (read_digits_app l1 x 0 0 iv ic l2 E2 H2)
             (read_fraction_app l2 x iv m fc l3 E3 H3)
             (read_exponent_app l3 x e r E4 Hr)).
  destruct (ic + fc =? 0); [discriminate|].
  destruct (decimal_to_double neg m (e - fc)); try discriminate;
    injection E' as <-; reflexivity.
Qed.

(** The extraction of an integer reads the same when the appended text does
    not go on with a digit. *)
Lemma extract_int_app (l x : list ascii) (z : Z) (r : list ascii) :
  extract_int l = Some (z, r) ->
  match x with c :: _ => is_digit c = false | [] => True end ->
  exists r', extract_int (l ++ x) = Some (z, r').
Proof.
  unfold extract_int. intros E Hx.
  destruct (skip_ws l) as [|c r0] eqn:E0; [discriminate|].
  rewrite skip_ws_app, E0 by (rewrite E0; discriminate).
  change ((c :: r0) ++ x) with (c :: r0 ++ x).
  assert (E1 : read_sign (c :: r0 ++ x)
               = (fst (read_sign (c :: r0)), snd (read_sign (c :: r0)) ++ x)).
  { change (c :: r0 ++ x) with ((c :: r0) ++ x).
    apply read_sign_app. discriminate. }
  cbv iota. rewrite E1. destruct (read_sign (c :: r0)) as [neg l1]. cbn [fst snd].
  destruct (read_digits l1 0 0) as [[v count] l2] eqn:E2.
  assert (G : exists r', read_digits (l1 ++ x) 0 0 = (v, count, r')).
  { destruct l2 as [|d l2].
    - exists x. now apply read_digits_app_end.
    - exists ((d :: l2) ++ x). now apply read_digits_app. }
  destruct G as [r' ->].
  destruct ((0 <? count) && (Int.INT_MIN <=? (if neg then - v else v))
            && ((if neg then - v else v) <=? Int.INT_MAX)); [|discriminate].
  injection E as <- _. eauto.
Qed.

Lemma extract_double_nil : extract_double [] = None.
Proof. reflexivity. Qed.

Lemma extract_int_nil : extract_int [] = None.
Proof. reflexivity. Qed.

Lemma list_ascii_of_string_app (a b : string) :
  list_ascii_of_string (a ++ b) = list_ascii_of_string a ++ list_ascii_of_string b.
Proof. induction a as [|c a IH]; [reflexivity|]. simpl. now rewrite IH. Qed.

Lemma no_digit_ahead_chars (extra : string) :
  no_digit_ahead extra = true ->
  match list_ascii_of_string extra with
  | c :: _ => is_digit c = false
  | [] => True
  end.
Proof.
  destruct extra as [|c e]; simpl; [trivial|apply negb_true_iff].
Qed.

Lemma parse_sample_app (line extra : string) (u s : Sample) :
  parse_sample line u = Some s -> no_digit_ahead extra = true ->
  parse_sample (line ++ extra) u = Some s.
Proof.
  intros H Hx. apply no_digit_ahead_chars in Hx.
  unfold parse_sample in *. cbv zeta in *. rewrite list_ascii_of_string_app.
  set (x := list_ascii_of_string extra) in *. clearbody x.
  do 8 match goal with
       | H : context [extract_double ?l] |- _ =>
           let v := fresh "v" in
           let r := fresh "r" in
           let E := fresh "E" in
           destruct (extract_double l) as [[v r]|] eqn:E; [|discriminate];
           assert (r <> [])
             by (intros ->;
                 first [rewrite extract_double_nil in H
                       |rewrite extract_int_nil in H]; discriminate);
           rewrite (extract_double_app l x v r E) by assumption
       end.
  destruct (extract_int r6) as [[z r']|] eqn:Ei; [|discriminate].
  destruct (extract_int_app r6 x z r' Ei Hx) as [r'' ->]. exact H.
Qed.

Lemma demo_unparsable (u : Sample) : parse_sample "demo" u = None.
Proof. reflexivity. Qed.

(** A line on which one of the nine extractions fails is answered with the
    demo sample and the notice. *)
Lemma predict_line_unparsable (uninit : Sample) (line : string) :
  line <> "demo"%string -> parse_sample line uninit = None ->
  predict_line uninit line
  = mkPrediction (mkSample 33 65 550 150 180 80 60 3.5 1 1 1) true true
                 (Some "Moderate"%string) (Some "Medium"%string).
Proof.
  intros Hd Hp. unfold predict_line.
  apply String.eqb_neq in Hd. rewrite Hd, Hp. reflexivity.
Qed.

(** A line on which the nine extractions succeed is answered from the
    values extracted. *)
Lemma predict_line_parsed (uninit : Sample) (line : string) (s : Sample) :
  parse_sample line uninit = Some s ->
  predict_line uninit line
  = mkPrediction (label_sample s) false false
      (array_at AQI_labels (AQI_Level (label_sample s)))
      (array_at HR_labels (Health_Risk (label_sample s))).
Proof.
  intros Hp. unfold predict_line.
  destruct (String.eqb line "demo") eqn:Hd.
  - apply String.eqb_eq in Hd. subst line.
    rewrite demo_unparsable in Hp. discriminate.
  - rewrite Hp. reflexivity.
Qed.

(** C8, as the code has it.  The line answered is the first line of the
    input, or the next one when the first is empty.  When it holds fewer
    than nine numbers (fewer than nine white-space separated decimal
    numerals, and then the end of the line or a field that cannot start a
    number: an empty or blank line, too few fields, text) and is not
    [demo], the program goes on: it reports the invalid input, takes the
    demo sample (33, 65, 550, 150, 180, 80, 60, 3.5, city type 1) and
    prints the labels it prints for [demo], Moderate and Medium; so it does
    whenever one of the nine extractions fails.  When the nine extractions
    succeed on the head of the line, the line is answered from the nine
    values extracted, without notice or demo sample, whatever text follows
    the head, as long as that text does not begin with a digit: further
    fields do not make a line invalid. *)
Theorem unparsable_line_runs_demo (uninit : Sample) (cin : list string) :
  (read_line cin <> "demo"%string ->
   fewer_than_nine_numbers (read_line cin) = true ->
   interactive uninit cin
   = mkPrediction (mkSample 33 65 550 150 180 80 60 3.5 1 1 1) true true
                  (Some "Moderate"%string) (Some "Medium"%string) /\
   answers_as_demo uninit cin) /\
  (read_line cin <> "demo"%string ->
   parse_sample (read_line cin) uninit = None ->
   interactive uninit cin
   = mkPrediction (mkSample 33 65 550 150 180 80 60 3.5 1 1 1) true true
                  (Some "Moderate"%string) (Some "Medium"%string) /\
   answers_as_demo uninit cin) /\
  (forall (head extra : string) (s : Sample),
     read_line cin = (head ++ extra)%string ->
     parse_sample head uninit = Some s ->
     no_digit_ahead extra = true ->
     interactive uninit cin = predict_line uninit head /\
     interactive uninit cin
     = mkPrediction (label_sample s) false false
         (array_at AQI_labels (AQI_Level (label_sample s)))
         (array_at HR_labels (Health_Risk (label_sample s)))).
Proof.
  assert (G : read_line cin <> "demo"%string ->
              parse_sample (read_line cin) uninit = None ->
              interactive uninit cin
              = mkPrediction (mkSample 33 65 550 150 180 80 60 3.5 1 1 1)
                  true true (Some "Moderate"%string) (Some "Medium"%string) /\
              answers_as_demo uninit cin).
  { intros Hd Hp. pose proof (predict_line_unparsable _ _ Hd Hp) as H.
    fold (interactive uninit cin) in H. split; [exact H|].
    unfold answers_as_demo. rewrite H. reflexivity. }
  split; [|split; [exact G|]].
  - intros Hd Hf. apply (G Hd). now apply fewer_than_nine_unparsable.
  - intros head extra s El Hp Hx. unfold interactive. rewrite El.
    rewrite (predict_line_parsed uninit head s Hp).
    rewrite (predict_line_parsed uninit _ s (parse_sample_app _ _ _ _ Hp Hx)).
    split; reflexivity.
Qed.

Lemma unparsable_line_runs_demo_witness :
  answers_as_demo junk [""%string; "33 65 550 150 180 80 sixty 3.5 1"%string] /\
  answers_as_demo junk ["33 65 550 150"%string] /\
  use_demo (interactive junk
              ["33 65 550 150 180 80 60 3.5 1 and more"%string]) = false.
Proof.
  split; [|split].
  - apply (proj1 (unparsable_line_runs_demo junk
             [""%string; "33 65 550 150 180 80 sixty 3.5 1"%string]));
      [discriminate|reflexivity].
  - apply (proj1 (unparsable_line_runs_demo junk ["33 65 550 150"%string]));
      [discriminate|reflexivity].
  - destruct (proj2 (proj2 (unparsable_line_runs_demo junk
               ["33 65 550 150 180 80 60 3.5 1 and more"%string]))
               "33 65 550 150 180 80 60 3.5 1"%string " and more"%string
               (mkSample 33 65 550 150 180 80 60 3.5 1 7 7)
               eq_refl eq_refl eq_refl) as [_ H].
    rewrite H. reflexivity.
Defined.

(** ** Binary64 rounding: powers of two and digit counts *)

Lemma fexp_eq z : fexp prec emax z = Z.max (z - 53) (-1074).
Proof. reflexivity. Qed.

Lemma pow2_gt0 k : 0 <= k -> 0 < 2 ^ k.
Proof. intros. apply Z.pow_pos_nonneg; lia. Qed.

Lemma pow2_le a b : 0 <= a <= b -> 2 ^ a <= 2 ^ b.
Proof. intros. apply Z.pow_le_mono_r; lia. Qed.

Lemma pow2_split a b : 0 <= a -> 0 <= b -> 2 ^ (a + b) = 2 ^ a * 2 ^ b.
Proof. intros. apply Z.pow_add_r; lia. Qed.

Lemma pow2_succ a : 0 <= a -> 2 ^ (a + 1) = 2 * 2 ^ a.
Proof. intros. rewrite Z.pow_add_r by lia. lia. Qed.

Lemma Zdigits2_bounds V :
  0 < V -> 0 < Zdigits2 V /\ 2 ^ (Zdigits2 V - 1) <= V < 2 ^ Zdigits2 V.
Proof.
  destruct V as [|p|p]; try lia. intros _. simpl Zdigits2.
  rewrite digits2_pos_size. split; [lia|].
  pose proof (Pos.size_gt p) as Hgt. pose proof (Pos.size_le p) as Hle.
  assert (H2 : Zpos (2 ^ Pos.size p) = 2 ^ Zpos (Pos.size p))
    by (rewrite Pos2Z.inj_pow; reflexivity).
  assert (Zpos p < Zpos (2 ^ Pos.size p)) by (apply Pos2Z.pos_lt_pos; exact Hgt).
  assert (Zpos (2 ^ Pos.size p) <= Zpos p~0) by (apply Pos2Z.pos_le_pos; exact Hle).
  pose proof (pow2_succ (Zpos (Pos.size p) - 1) ltac:(lia)) as H3.
  replace (Zpos (Pos.size p) - 1 + 1) with (Zpos (Pos.size p)) in H3 by lia.
  lia.
Qed.

Lemma Zdigits2_unique V d :
  0 < V -> 2 ^ (d - 1) <= V < 2 ^ d -> Zdigits2 V = d.
Proof.
  intros HV [H1 H2]. destruct (Zdigits2_bounds V HV) as (Hd & H3 & H4).
  assert (0 < d).
  { destruct (Z_lt_le_dec 0 d); trivial. exfalso.
    destruct (Z.eq_dec d 0). { subst. simpl in H2. lia. }
    rewrite Z.pow_neg_r in H2 by lia. lia. }
  destruct (Z_lt_le_dec (Zdigits2 V) d).
  - assert (2 ^ Zdigits2 V <= 2 ^ (d - 1)) by (apply pow2_le; lia). lia.
  - destruct (Z_lt_le_dec d (Zdigits2 V)); [|lia].
    assert (2 ^ d <= 2 ^ (Zdigits2 V - 1)) by (apply pow2_le; lia). lia.
Qed.

Lemma Zdigits2_mono V V' : 0 < V <= V' -> Zdigits2 V <= Zdigits2 V'.
Proof.
  intros [H0 H1].
  destruct (Zdigits2_bounds V H0) as (Hd & H3 & H4).
  destruct (Zdigits2_bounds V' ltac:(lia)) as (Hd' & H3' & H4').
  destruct (Z_le_gt_dec (Zdigits2 V) (Zdigits2 V')); trivial. exfalso.
  assert (2 ^ Zdigits2 V' <= 2 ^ (Zdigits2 V - 1)) by (apply pow2_le; lia). lia.
Qed.

Lemma Zdigits2_mul_pow2 V k :
  0 < V -> 0 <= k -> Zdigits2 (V * 2 ^ k) = Zdigits2 V + k.
Proof.
  intros HV Hk. destruct (Zdigits2_bounds V HV) as (Hd & H3 & H4).
  pose proof (pow2_gt0 k Hk).
  apply Zdigits2_unique; [nia|].
  replace (Zdigits2 V + k - 1) with (Zdigits2 V - 1 + k) by lia.
  rewrite !pow2_split by lia. nia.
Qed.

Lemma Zdigits2_lt_pow2 V k : 0 < V -> V < 2 ^ k -> Zdigits2 V <= k.
Proof.
  intros HV H. destruct (Zdigits2_bounds V HV) as (Hd & H3 & H4).
  destruct (Z_le_gt_dec (Zdigits2 V) k); trivial. exfalso.
  assert (0 <= k).
  { destruct (Z_lt_le_dec k 0); trivial. rewrite Z.pow_neg_r in H; lia. }
  assert (2 ^ k <= 2 ^ (Zdigits2 V - 1)) by (apply pow2_le; lia). lia.
Qed.

Lemma iter_pos_nat {A} (f : A -> A) p x :
  iter_pos f p x = Nat.iter (Pos.to_nat p) f x.
Proof.
  revert x. induction p as [p IH|p IH|]; intros x; simpl iter_pos.
  - rewrite !IH. rewrite Pos2Nat.inj_xI.
    replace (S (2 * Pos.to_nat p)) with (Pos.to_nat p + (Pos.to_nat p + 1))%nat by lia.
    rewrite !Nat.iter_add. simpl. reflexivity.
  - rewrite !IH. rewrite Pos2Nat.inj_xO.
    replace (2 * Pos.to_nat p)%nat with (Pos.to_nat p + Pos.to_nat p)%nat by lia.
    rewrite Nat.iter_add. reflexivity.
  - reflexivity.
Qed.

Lemma pow2_succ' a : 0 <= a -> 2 ^ (a + 1) = 2 ^ a * 2.
Proof. intros. rewrite Z.pow_add_r by lia. lia. Qed.

(** ** Binary64 rounding: the right shift in closed form *)

Lemma shr_1_nonneg_eq m r s :
  0 <= m ->
  shr_1 (Build_shr_record m r s) = Build_shr_record (m / 2) (Z.odd m) (r || s).
Proof.
  intros H. rewrite <- Z.div2_div.
  destruct m as [|[p|p|]|]; try lia; reflexivity.
Qed.

(** The remainder modulo [2H], from the one modulo [H] and the next bit. *)
Lemma mod_double_zero V H :
  0 < H ->
  (V mod (2 * H) =? 0) = (V mod H =? 0) && negb (Z.odd (V / H)).
Proof.
  intros HH.
  pose proof (Z.div_mod V H ltac:(lia)) as E.
  pose proof (Z.mod_pos_bound V H HH) as B.
  pose proof (Zdiv2_odd_eqn (V / H)) as E2.
  assert (Hm : V mod (2 * H) = H * (if Z.odd (V / H) then 1 else 0) + V mod H).
  { symmetry. apply Z.mod_unique with (q := Z.div2 (V / H)).
    - left. destruct (Z.odd (V / H)); lia.
    - destruct (Z.odd (V / H)); nia. }
  rewrite Hm. destruct (Z.odd (V / H)); simpl.
  - rewrite andb_false_r. apply Z.eqb_neq. lia.
  - rewrite andb_true_r. f_equal. lia.
Qed.

Lemma shr_rec_succ V k :
  0 <= V -> 0 <= k ->
  shr_1 (shr_rec V k) = shr_rec V (k + 1).
Proof.
  intros HV Hk. unfold shr_rec.
  pose proof (pow2_gt0 k Hk) as Hp.
  rewrite shr_1_nonneg_eq by (apply Z.div_pos; lia).
  rewrite Z.div_div by lia.
  rewrite <- pow2_succ' by lia.
  f_equal.
  - unfold rbit. destruct (Z.leb_spec (k + 1) 0); [lia|].
    now replace (k + 1 - 1) with k by lia.
  - unfold rbit, sbit. destruct (Z.leb_spec (k + 1) 0); [lia|].
    replace (k + 1 - 1) with k by lia.
    destruct (Z.leb_spec k 0).
    + assert (k = 0) by lia. subst k. simpl. now rewrite Z.mod_1_r.
    + replace (2 ^ k) with (2 * 2 ^ (k - 1))
        by (rewrite <- pow2_succ by lia; f_equal; lia).
      rewrite mod_double_zero by (apply pow2_gt0; lia).
      rewrite negb_andb, negb_involutive. apply orb_comm.
Qed.

Lemma shr_rec_0 V : shr_rec V 0 = Build_shr_record V false false.
Proof. unfold shr_rec, rbit, sbit. simpl. now rewrite Z.div_1_r. Qed.

Lemma iter_shr_1 V k :
  0 <= V ->
  Nat.iter k shr_1 (Build_shr_record V false false) = shr_rec V (Z.of_nat k).
Proof.
  intros HV. induction k as [|k IH].
  - simpl. now rewrite shr_rec_0.
  - rewrite Nat.iter_succ, IH, shr_rec_succ by lia. f_equal. lia.
Qed.

Lemma shr_closed V e n :
  0 <= V -> 0 <= n ->
  shr (Build_shr_record V false false) e n = (shr_rec V n, e + n).
Proof.
  intros HV Hn. destruct n as [|p|p]; try lia.
  - simpl. now rewrite shr_rec_0, Z.add_0_r.
  - unfold shr. rewrite iter_pos_nat, iter_shr_1 by trivial.
    now rewrite positive_nat_Z.
Qed.

Lemma shr_nonpos mrs e n : n <= 0 -> shr mrs e n = (mrs, e).
Proof. destruct n; try lia; reflexivity. Qed.

(** ** Binary64 rounding: to nearest, ties to even *)

Lemma mod_double V H :
  0 < H ->
  V mod (2 * H) = H * (if Z.odd (V / H) then 1 else 0) + V mod H /\
  V / (2 * H) = Z.div2 (V / H).
Proof.
  intros HH.
  pose proof (Z.div_mod V H ltac:(lia)) as E.
  pose proof (Z.mod_pos_bound V H HH) as B.
  pose proof (Zdiv2_odd_eqn (V / H)) as E2.
  assert (Hr : 0 <= H * (if Z.odd (V / H) then 1 else 0) + V mod H < 2 * H)
    by (destruct (Z.odd (V / H)); lia).
  assert (He : V = 2 * H * Z.div2 (V / H)
                   + (H * (if Z.odd (V / H) then 1 else 0) + V mod H))
    by (destruct (Z.odd (V / H)); nia).
  split.
  - symmetry. apply Z.mod_unique with (q := Z.div2 (V / H)); [left|]; assumption.
  - symmetry.
    apply Z.div_unique with (r := H * (if Z.odd (V / H) then 1 else 0) + V mod H);
      [left|]; assumption.
Qed.

Lemma rnd_spec V n : 0 <= V -> 0 <= n -> rne_spec (2 ^ n) V (rnd V n).
Proof.
  intros HV Hn. unfold rnd, shr_rec, rbit, sbit. cbn [loc_of_shr_record].
  destruct (Z.leb_spec n 0) as [H0|H0].
  - assert (n = 0) by lia. subst n. simpl. rewrite Z.div_1_r.
    exists V, 0. repeat split; try lia.
  - set (H := 2 ^ (n - 1)).
    assert (HH : 0 < H) by (apply pow2_gt0; lia).
    assert (HP : 2 ^ n = 2 * H)
      by (unfold H; rewrite <- pow2_succ by lia; f_equal; lia).
    rewrite HP.
    destruct (mod_double V H HH) as [Hm Hq].
    pose proof (Z.mod_pos_bound V H HH) as B.
    pose proof (Z.div_mod V (2 * H) ltac:(lia)) as E.
    exists (V / (2 * H)), (V mod (2 * H)).
    split; [exact E|]. split; [apply Z.mod_pos_bound; lia|].
    rewrite Hm.
    destruct (Z.odd (V / H)); destruct (Z.eqb_spec (V mod H) 0) as [Hz|Hz];
      cbn [negb round_nearest_even].
    + right; right. split; [lia|]. destruct (Z.even (V / (2 * H))); lia.
    + right; left. split; lia.
    + left. split; lia.
    + left. split; lia.
Qed.

Lemma rne_mono P V V' m m' :
  0 < P -> rne_spec P V m -> rne_spec P V' m' -> V <= V' -> m <= m'.
Proof.
  intros HP (q & R & E & B & C) (q' & R' & E' & B' & C') Hle.
  assert (Hq : q <= q') by nia.
  destruct (Z.eq_dec q q') as [->|Hne].
  - assert (R <= R') by lia.
    destruct (Z.even q'); lia.
  - assert (q + 1 <= q') by lia.
    destruct (Z.even q), (Z.even q'); lia.
Qed.

Lemma rne_upper P V m K :
  0 < P -> rne_spec P V m -> V <= P * K -> m <= K.
Proof.
  intros HP (q & R & E & B & C) H.
  assert (q <= K) by nia.
  destruct (Z.eq_dec q K) as [Hq|Hq]; [assert (R = 0) by nia|];
    destruct (Z.even q); lia.
Qed.

Lemma rne_lower P V m K :
  0 < P -> rne_spec P V m -> P * K <= V -> K <= m.
Proof.
  intros HP (q & R & E & B & C) H.
  assert (K <= q) by nia. destruct (Z.even q); lia.
Qed.

Lemma rne_small P V m :
  0 < P -> rne_spec P V m -> 0 <= V -> 2 * V < P -> m = 0.
Proof.
  intros HP (q & R & E & B & C) H0 H.
  assert (q = 0) by nia. subst q. rewrite Z.mul_0_r in E.
  change (Z.even 0) with true in C. lia.
Qed.

Lemma rnd_nonneg V n : 0 <= V -> 0 <= n -> 0 <= rnd V n.
Proof.
  intros HV Hn. pose proof (pow2_gt0 n Hn).
  apply (rne_lower (2 ^ n) V); [lia | now apply rnd_spec | lia].
Qed.

Lemma binary_round_aux_model s V b :
  0 < V -> b <= fexp prec emax (Zdigits2 V + b) ->
  binary_round_aux prec emax s V b loc_Exact = round_model s V b.
Proof.
  intros HV Hb. unfold binary_round_aux, round_model, shr_fexp.
  cbn [shr_record_of_loc].
  set (e1 := fexp prec emax (Zdigits2 V + b)) in *. clearbody e1.
  rewrite (shr_closed V b (e1 - b)) by lia. cbv beta iota. cbn [shr_m shr_rec].
  change (round_nearest_even (V / 2 ^ (e1 - b))
            (loc_of_shr_record (shr_rec V (e1 - b)))) with (rnd V (e1 - b)).
  replace (b + (e1 - b)) with e1 by lia.
  pose proof (rnd_nonneg V (e1 - b) ltac:(lia) ltac:(lia)) as Hm.
  set (m2 := rnd V (e1 - b)) in *.
  unfold renorm, pack.
  destruct (Z.ltb_spec 0 (fexp prec emax (Zdigits2 m2 + e1) - e1)).
  - rewrite shr_closed by lia. reflexivity.
  - rewrite shr_nonpos by lia. reflexivity.
Qed.

Lemma rnd_exp_ge V b : -1074 <= rnd_exp V b /\ Zdigits2 V + b - 53 <= rnd_exp V b.
Proof. unfold rnd_exp. rewrite fexp_eq. lia. Qed.

Lemma rnd_exp_mono V V' b : 0 < V <= V' -> rnd_exp V b <= rnd_exp V' b.
Proof.
  intros H. pose proof (Zdigits2_mono V V' H).
  unfold rnd_exp. rewrite !fexp_eq. lia.
Qed.

Lemma rnd_le_pow V b :
  0 < V -> b <= rnd_exp V b ->
  rnd_exp V b - b <= Zdigits2 V ->
  rnd V (rnd_exp V b - b) <= 2 ^ (Zdigits2 V - (rnd_exp V b - b)).
Proof.
  intros HV Hb Hn. destruct (Zdigits2_bounds V HV) as (Hd & H1 & H2).
  apply (rne_upper (2 ^ (rnd_exp V b - b)) V).
  - apply pow2_gt0. lia.
  - apply rnd_spec; lia.
  - rewrite <- pow2_split by lia.
    replace (rnd_exp V b - b + (Zdigits2 V - (rnd_exp V b - b)))
      with (Zdigits2 V) by lia.
    lia.
Qed.

Lemma rnd_zero_far V b :
  0 < V -> Zdigits2 V < rnd_exp V b - b -> rnd V (rnd_exp V b - b) = 0.
Proof.
  intros HV Hn. destruct (Zdigits2_bounds V HV) as (Hd & H1 & H2).
  apply (rne_small (2 ^ (rnd_exp V b - b)) V).
  - apply pow2_gt0. lia.
  - apply rnd_spec; lia.
  - lia.
  - assert (2 ^ Zdigits2 V <= 2 ^ (rnd_exp V b - b - 1))
      by (apply pow2_le; lia).
    replace (2 ^ (rnd_exp V b - b)) with (2 * 2 ^ (rnd_exp V b - b - 1))
      by (rewrite <- pow2_succ by lia; f_equal; lia).
    lia.
Qed.

Lemma rnd_ge_pow V b :
  0 < V -> b <= rnd_exp V b ->
  rnd_exp V b - b < Zdigits2 V ->
  2 ^ (Zdigits2 V - 1 - (rnd_exp V b - b)) <= rnd V (rnd_exp V b - b).
Proof.
  intros HV Hb Hn. destruct (Zdigits2_bounds V HV) as (Hd & H1 & H2).
  apply (rne_lower (2 ^ (rnd_exp V b - b)) V).
  - apply pow2_gt0. lia.
  - apply rnd_spec; lia.
  - rewrite <- pow2_split by lia.
    replace (rnd_exp V b - b + (Zdigits2 V - 1 - (rnd_exp V b - b)))
      with (Zdigits2 V - 1) by lia.
    lia.
Qed.

Lemma rnd_m_nonneg V b :
  0 < V -> b <= rnd_exp V b -> 0 <= rnd V (rnd_exp V b - b).
Proof. intros HV Hb. apply rnd_nonneg; lia. Qed.

Lemma mul_pow2_lt m a k : 0 <= a -> 0 <= k -> m < 2 ^ a -> m * 2 ^ k < 2 ^ (a + k).
Proof. intros Ha Hk H. rewrite pow2_split by lia. pose proof (pow2_gt0 k Hk). nia. Qed.

Lemma mul_pow2_le m a k : 0 <= a -> 0 <= k -> m <= 2 ^ a -> m * 2 ^ k <= 2 ^ (a + k).
Proof. intros Ha Hk H. rewrite pow2_split by lia. pose proof (pow2_gt0 k Hk). nia. Qed.

Lemma mul_pow2_ge m a k : 0 <= a -> 0 <= k -> 2 ^ a <= m -> 2 ^ (a + k) <= m * 2 ^ k.
Proof. intros Ha Hk H. rewrite pow2_split by lia. pose proof (pow2_gt0 k Hk). nia. Qed.

Lemma rnd_val_nonneg V b : 0 < V -> b <= rnd_exp V b -> 0 <= rnd_val V b.
Proof.
  intros HV Hb. unfold rnd_val.
  pose proof (rnd_m_nonneg V b HV Hb).
  pose proof (rnd_exp_ge V b).
  pose proof (pow2_gt0 (rnd_exp V b + 1074) ltac:(lia)). nia.
Qed.

Lemma rnd_val_mono V V' b :
  0 < V <= V' -> b <= rnd_exp V b -> rnd_val V b <= rnd_val V' b.
Proof.
  intros [HV Hle] Hb.
  pose proof (rnd_exp_mono V V' b (conj HV Hle)) as He.
  assert (HV' : 0 < V') by lia. assert (Hb' : b <= rnd_exp V' b) by lia.
  pose proof (rnd_exp_ge V b) as [G1 G2].
  pose proof (rnd_exp_ge V' b) as [G1' G2'].
  destruct (Z.eq_dec (rnd_exp V b) (rnd_exp V' b)) as [Heq|Hne].
  - unfold rnd_val. rewrite <- Heq.
    pose proof (pow2_gt0 (rnd_exp V b + 1074) ltac:(lia)).
    pose proof (pow2_gt0 (rnd_exp V b - b) ltac:(lia)).
    assert (rnd V (rnd_exp V b - b) <= rnd V' (rnd_exp V b - b)).
    { apply (rne_mono (2 ^ (rnd_exp V b - b)) V V'); trivial;
        apply rnd_spec; lia. }
    nia.
  - assert (Hlt : rnd_exp V b < rnd_exp V' b) by lia.
    assert (Hd : Zdigits2 V < Zdigits2 V').
    { unfold rnd_exp in Hlt. rewrite !fexp_eq in Hlt. lia. }
    assert (He' : rnd_exp V' b = Zdigits2 V' + b - 53).
    { unfold rnd_exp in *. rewrite !fexp_eq in *. lia. }
    pose proof (rnd_ge_pow V' b HV' Hb' ltac:(lia)) as Hlo.
    replace (Zdigits2 V' - 1 - (rnd_exp V' b - b)) with 52 in Hlo by lia.
    assert (Hv' : 2 ^ (52 + (rnd_exp V' b + 1074)) <= rnd_val V' b)
      by (apply mul_pow2_ge; lia).
    destruct (Z_lt_le_dec (Zdigits2 V) (rnd_exp V b - b)) as [Hfar|Hnear].
    + pose proof (rnd_zero_far V b HV Hfar) as Hz.
      unfold rnd_val at 1. rewrite Hz.
      pose proof (rnd_val_nonneg V' b HV' Hb'). lia.
    + pose proof (rnd_le_pow V b HV Hb ltac:(lia)) as Hup.
      assert (Hv : rnd_val V b
                   <= 2 ^ (Zdigits2 V - (rnd_exp V b - b) + (rnd_exp V b + 1074)))
        by (apply mul_pow2_le; lia).
      assert (2 ^ (Zdigits2 V - (rnd_exp V b - b) + (rnd_exp V b + 1074))
              <= 2 ^ (52 + (rnd_exp V' b + 1074)))
        by (apply pow2_le; lia).
      lia.
Qed.

Lemma renorm_keep m e :
  fexp prec emax (Zdigits2 m + e) <= e -> renorm m e = (m, e).
Proof.
  intros H. unfold renorm.
  destruct (Z.ltb_spec 0 (fexp prec emax (Zdigits2 m + e) - e)); [lia | reflexivity].
Qed.

Lemma round_model_value s V b :
  0 < V -> b <= rnd_exp V b ->
  (rnd_val V b = 0 /\ round_model s V b = S754_zero s) \/
  (2 ^ 2098 <= rnd_val V b /\ round_model s V b = S754_infinity s) \/
  (0 < rnd_val V b < 2 ^ 2098 /\
   exists p e, round_model s V b = S754_finite s p e /\
               -1074 <= e /\ Zpos p * 2 ^ (e + 1074) = rnd_val V b).
Proof.
  intros HV Hb. unfold round_model, rnd_val. fold (rnd_exp V b).
  pose proof (rnd_exp_ge V b) as [G1 G2].
  pose proof (rnd_m_nonneg V b HV Hb) as H0.
  set (e1 := rnd_exp V b) in *.
  set (m2 := rnd V (e1 - b)) in *.
  pose proof (pow2_gt0 (e1 + 1074) ltac:(lia)) as Hpe.
  destruct (Z.eq_dec m2 0) as [Hz|Hnz].
  - left. rewrite Hz. split; [lia|].
    rewrite renorm_keep by (cbn [Zdigits2]; rewrite fexp_eq; lia).
    reflexivity.
  - right. assert (Hpos : 0 < m2) by lia.
    assert (Hn : e1 - b <= Zdigits2 V).
    { destruct (Z_lt_le_dec (Zdigits2 V) (e1 - b)) as [Hfar|]; [|lia].
      pose proof (rnd_zero_far V b HV Hfar) as Hzf.
      fold e1 in Hzf. fold m2 in Hzf. lia. }
    pose proof (rnd_le_pow V b HV Hb Hn) as Hup.
    fold e1 in Hup. fold m2 in Hup.
    assert (Hup53 : m2 <= 2 ^ 53).
    { apply Z.le_trans with (1 := Hup). apply pow2_le. lia. }
    destruct (Z.eq_dec m2 (2 ^ 53)) as [H53|H53].
    + assert (Hr : renorm m2 e1 = (2 ^ 52, e1 + 1)).
      { unfold renorm. rewrite H53. change (Zdigits2 (2 ^ 53)) with 54.
        rewrite fexp_eq. replace (Z.max (54 + e1 - 53) (-1074) - e1) with 1 by lia.
        reflexivity. }
      rewrite Hr. unfold pack. cbn [fst snd].
      change (2 ^ 52) with (Zpos 4503599627370496).
      assert (Hval : m2 * 2 ^ (e1 + 1074)
                     = Zpos 4503599627370496 * 2 ^ (e1 + 1 + 1074)).
      { rewrite H53. replace (e1 + 1 + 1074) with (e1 + 1074 + 1) by lia.
        rewrite (pow2_succ (e1 + 1074)) by lia.
        change (Zpos 4503599627370496) with (2 ^ 52).
        change (2 ^ 53) with (2 * 2 ^ 52). lia. }
      destruct (Z.leb_spec (e1 + 1) 971).
      * right. split.
        -- split; [nia|]. rewrite Hval.
           change (Zpos 4503599627370496) with (2 ^ 52).
           apply Z.lt_le_trans with (2 ^ (53 + (e1 + 1 + 1074))).
           ++ apply mul_pow2_lt; lia.
           ++ apply pow2_le. lia.
        -- eexists; eexists. split; [reflexivity|]. split; [lia|].
           now rewrite Hval.
      * left. split; [|reflexivity]. rewrite Hval.
        change (Zpos 4503599627370496) with (2 ^ 52).
        apply Z.le_trans with (2 ^ (52 + (e1 + 1 + 1074))).
        -- apply pow2_le. lia.
        -- apply mul_pow2_ge; lia.
    + assert (Hlt53 : m2 < 2 ^ 53) by lia.
      pose proof (Zdigits2_lt_pow2 m2 53 Hpos Hlt53) as Hdm.
      rewrite renorm_keep by (rewrite fexp_eq; lia).
      unfold pack. cbn [fst snd].
      destruct m2 as [|p|p] eqn:Em; try lia.
      destruct (Z.leb_spec e1 971).
      * right. split.
        -- split; [nia|].
           apply Z.lt_le_trans with (2 ^ (53 + (e1 + 1074))).
           ++ apply mul_pow2_lt; lia.
           ++ apply pow2_le. lia.
        -- eexists; eexists. split; [reflexivity|]. split; lia.
      * left. split; [|reflexivity].
        assert (He1 : e1 = Zdigits2 V + b - 53).
        { unfold e1, rnd_exp in *. rewrite fexp_eq in *. lia. }
        pose proof (rnd_ge_pow V b HV Hb ltac:(fold e1; lia)) as Hlo.
        fold e1 in Hlo. fold m2 in Hlo. rewrite Em in Hlo.
        replace (Zdigits2 V - 1 - (e1 - b)) with 52 in Hlo by lia.
        apply Z.le_trans with (2 ^ (52 + (e1 + 1074))).
        -- apply pow2_le. lia.
        -- apply mul_pow2_ge; lia.
Qed.

(** ** Binary64 rounding: values and their order *)

Lemma valid_finite s m e :
  valid_binary (S754_finite s m e) = true ->
  -1074 <= e <= 971 /\ Zdigits2 (Zpos m) <= 53 /\
  (e = -1074 \/ Zdigits2 (Zpos m) = 53).
Proof.
  unfold SpecFloat.valid_binary, bounded, canonical_mantissa.
  intros H. apply andb_true_iff in H. destruct H as [Hc He].
  apply Z.eqb_eq in Hc. apply Z.leb_le in He.
  rewrite fexp_eq in Hc. change (emax - prec) with 971 in He.
  cbn [Zdigits2]. lia.
Qed.

Lemma pos_value_lt m e m' e' :
  valid_binary (S754_finite false m e) = true ->
  valid_binary (S754_finite false m' e') = true ->
  e < e' -> Zpos m * 2 ^ (e + 1074) < Zpos m' * 2 ^ (e' + 1074).
Proof.
  intros Hv Hv' Hlt.
  destruct (valid_finite _ _ _ Hv) as (He & Hd & _).
  destruct (valid_finite _ _ _ Hv') as (He' & _ & [Hs|Hn]); [lia|].
  destruct (Zdigits2_bounds (Zpos m) ltac:(lia)) as (Hd0 & _ & Hup).
  destruct (Zdigits2_bounds (Zpos m') ltac:(lia)) as (_ & Hlo & _).
  rewrite Hn in Hlo. change (53 - 1) with 52 in Hlo.
  assert (Zpos m < 2 ^ 53).
  { apply Z.lt_le_trans with (1 := Hup). apply pow2_le. lia. }
  apply Z.lt_le_trans with (2 ^ (53 + (e + 1074))).
  - apply mul_pow2_lt; lia.
  - apply Z.le_trans with (2 ^ (52 + (e' + 1074))).
    + apply pow2_le. lia.
    + apply mul_pow2_ge; lia.
Qed.

Lemma pos_compare m e m' e' :
  valid_binary (S754_finite false m e) = true ->
  valid_binary (S754_finite false m' e') = true ->
  match Z.compare e e' with
  | Lt => Lt | Gt => Gt | Eq => Pos.compare_cont Eq m m'
  end = Z.compare (Zpos m * 2 ^ (e + 1074)) (Zpos m' * 2 ^ (e' + 1074)).
Proof.
  intros Hv Hv'. destruct (Z.compare_spec e e') as [Heq|Hlt|Hgt].
  - subst e'. destruct (valid_finite _ _ _ Hv) as (He & _).
    pose proof (pow2_gt0 (e + 1074) ltac:(lia)).
    change (Pos.compare_cont Eq m m') with (Zpos m ?= Zpos m').
    symmetry. destruct (Z.compare_spec (Zpos m) (Zpos m')).
    + apply Z.compare_eq_iff. nia.
    + apply Z.compare_lt_iff. nia.
    + apply Z.compare_gt_iff. nia.
  - symmetry. apply Z.compare_lt_iff. now apply pos_value_lt.
  - symmetry. apply Z.compare_gt_iff. now apply pos_value_lt.
Qed.

Lemma valid_sign s s' m e :
  valid_binary (S754_finite s m e) = valid_binary (S754_finite s' m e).
Proof. reflexivity. Qed.

Lemma SFcompare_sval x y :
  valid_binary x = true -> valid_binary y = true ->
  finite_or_zero x = true -> finite_or_zero y = true ->
  SFcompare x y = Some (Z.compare (sval x) (sval y)).
Proof.
  intros Hx Hy Fx Fy.
  destruct x as [sx|sx| |sx mx ex]; try discriminate;
  destruct y as [sy|sy| |sy my ey]; try discriminate; cbn [SFcompare sval].
  - reflexivity.
  - destruct (valid_finite _ _ _ Hy) as (He & _).
    pose proof (pow2_gt0 (ey + 1074) ltac:(lia)).
    f_equal. symmetry. destruct sy; cbn [cond_Zopp].
    + apply Z.compare_gt_iff. nia.
    + apply Z.compare_lt_iff. nia.
  - destruct (valid_finite _ _ _ Hx) as (He & _).
    pose proof (pow2_gt0 (ex + 1074) ltac:(lia)).
    f_equal. symmetry. destruct sx; cbn [cond_Zopp].
    + apply Z.compare_lt_iff. nia.
    + apply Z.compare_gt_iff. nia.
  - destruct (valid_finite _ _ _ Hx) as (Hex & _).
    destruct (valid_finite _ _ _ Hy) as (Hey & _).
    pose proof (pow2_gt0 (ex + 1074) ltac:(lia)).
    pose proof (pow2_gt0 (ey + 1074) ltac:(lia)).
    f_equal. destruct sx, sy; cbn [cond_Zopp].
    + rewrite (valid_sign true false) in Hx, Hy.
      pose proof (pos_compare _ _ _ _ Hx Hy) as Hc.
      rewrite Z.compare_opp, <- (pos_compare _ _ _ _ Hy Hx).
      destruct (Z.compare_spec ex ey) as [E|E|E].
      * subst. rewrite Z.compare_refl.
        now rewrite (Pos.compare_cont_antisym mx my Eq).
      * assert (G : (ey ?= ex) = Gt) by (apply Z.compare_gt_iff; lia).
        now rewrite G.
      * assert (G : (ey ?= ex) = Lt) by (apply Z.compare_lt_iff; lia).
        now rewrite G.
    + symmetry. apply Z.compare_lt_iff. nia.
    + symmetry. apply Z.compare_gt_iff. nia.
    + now apply pos_compare.
Qed.

Lemma SFleb_of_sval x y :
  valid_binary x = true -> valid_binary y = true ->
  finite_or_zero x = true -> finite_or_zero y = true ->
  sval x <= sval y -> SFleb x y = true.
Proof.
  intros Hx Hy Fx Fy H. unfold SFleb.
  rewrite SFcompare_sval by assumption.
  destruct (Z.compare_spec (sval x) (sval y)); trivial; lia.
Qed.

Lemma sval_of_SFleb x y :
  valid_binary x = true -> valid_binary y = true ->
  finite_or_zero x = true -> finite_or_zero y = true ->
  SFleb x y = true -> sval x <= sval y.
Proof.
  intros Hx Hy Fx Fy. unfold SFleb.
  rewrite SFcompare_sval by assumption.
  destruct (Z.compare_spec (sval x) (sval y)); try discriminate; lia.
Qed.

Lemma round_model_mono V V' b :
  0 < V <= V' -> b <= rnd_exp V b ->
  valid_binary (round_model false V b) = true ->
  valid_binary (round_model false V' b) = true ->
  SFleb (round_model false V b) (round_model false V' b) = true.
Proof.
  intros [HV Hle] Hb Hval Hval'.
  assert (Hb' : b <= rnd_exp V' b)
    by (pose proof (rnd_exp_mono V V' b (conj HV Hle)); lia).
  pose proof (rnd_val_mono V V' b (conj HV Hle) Hb) as Hm.
  assert (HT : 0 < 2 ^ 2098) by (apply pow2_gt0; lia).
  destruct (round_model_value false V b HV Hb)
    as [[Hz Ho]|[[Hi Ho]|[Hf (p & e & Ho & He & Hp)]]];
  destruct (round_model_value false V' b ltac:(lia) Hb')
    as [[Hz' Ho']|[[Hi' Ho']|[Hf' (p' & e' & Ho' & He' & Hp')]]];
  rewrite Ho, Ho' in *; try reflexivity; try lia.
  apply SFleb_of_sval; trivial. cbn [sval cond_Zopp]. lia.
Qed.

Lemma shr_rec_shift V n k :
  0 <= V -> 0 <= n -> 0 <= k -> shr_rec (V * 2 ^ k) (n + k) = shr_rec V n.
Proof.
  intros HV Hn Hk. unfold shr_rec.
  pose proof (pow2_gt0 k Hk) as Hpk.
  f_equal.
  - rewrite pow2_split by lia. apply Z.div_mul_cancel_r; lia.
  - unfold rbit. destruct (Z.leb_spec n 0) as [Hn0|Hn0].
    + assert (n = 0) by lia. subst n. cbn [Z.add].
      destruct (Z.leb_spec k 0); [reflexivity|].
      replace (2 ^ k) with (2 * 2 ^ (k - 1))
        by (rewrite <- pow2_succ by lia; f_equal; lia).
      pose proof (pow2_gt0 (k - 1) ltac:(lia)).
      rewrite Z.mul_assoc, Z.div_mul by lia.
      rewrite Z.odd_mul. cbn [Z.odd]. apply andb_false_r.
    + destruct (Z.leb_spec (n + k) 0); [lia|].
      replace (n + k - 1) with (n - 1 + k) by lia.
      rewrite pow2_split by lia.
      rewrite Z.div_mul_cancel_r; [reflexivity| |lia].
      pose proof (pow2_gt0 (n - 1) ltac:(lia)). lia.
  - unfold sbit. destruct (Z.leb_spec n 0) as [Hn0|Hn0].
    + assert (n = 0) by lia. subst n. cbn [Z.add].
      destruct (Z.leb_spec k 0); [reflexivity|].
      replace (2 ^ k) with (2 * 2 ^ (k - 1))
        by (rewrite <- pow2_succ by lia; f_equal; lia).
      pose proof (pow2_gt0 (k - 1) ltac:(lia)).
      rewrite Z.mul_assoc, Z.mod_mul by lia. reflexivity.
    + destruct (Z.leb_spec (n + k) 0); [lia|].
      replace (n + k - 1) with (n - 1 + k) by lia.
      rewrite pow2_split by lia.
      pose proof (pow2_gt0 (n - 1) ltac:(lia)).
      rewrite Z.mul_mod_distr_r by lia.
      f_equal.
      destruct (Z.eqb_spec (V mod 2 ^ (n - 1)) 0) as [E|E].
      * rewrite E. reflexivity.
      * apply Z.eqb_neq. nia.
Qed.

Lemma rnd_shift V n k :
  0 <= V -> 0 <= n -> 0 <= k -> rnd (V * 2 ^ k) (n + k) = rnd V n.
Proof.
  intros HV Hn Hk. unfold rnd. rewrite shr_rec_shift by assumption.
  f_equal. rewrite pow2_split by lia.
  pose proof (pow2_gt0 k Hk). apply Z.div_mul_cancel_r; lia.
Qed.

Lemma rnd_exp_shift V b k :
  0 < V -> 0 <= k -> rnd_exp (V * 2 ^ k) (b - k) = rnd_exp V b.
Proof.
  intros HV Hk. unfold rnd_exp. rewrite Zdigits2_mul_pow2 by lia.
  f_equal. lia.
Qed.

Lemma round_model_shift s V b k :
  0 < V -> 0 <= k -> b <= rnd_exp V b ->
  round_model s (V * 2 ^ k) (b - k) = round_model s V b.
Proof.
  intros HV Hk Hb. unfold round_model.
  change (fexp prec emax (Zdigits2 (V * 2 ^ k) + (b - k)))
    with (rnd_exp (V * 2 ^ k) (b - k)).
  change (fexp prec emax (Zdigits2 V + b)) with (rnd_exp V b).
  rewrite rnd_exp_shift by assumption.
  replace (rnd_exp V b - (b - k)) with (rnd_exp V b - b + k) by lia.
  rewrite rnd_shift by lia. reflexivity.
Qed.

Lemma iter_xO_value p d : Zpos (Pos.iter xO p d) = Zpos p * 2 ^ Zpos d.
Proof.
  induction d using Pos.peano_ind.
  - simpl. lia.
  - rewrite Pos.iter_succ, Pos2Z.inj_succ, Z.pow_succ_r by lia.
    rewrite Pos2Z.inj_xO, IHd. lia.
Qed.

Lemma binary_round_base s p e b :
  b <= e -> b <= fexp prec emax (Zdigits2 (Zpos p) + e) ->
  binary_round prec emax s p e = round_model s (Zpos p * 2 ^ (e - b)) b.
Proof.
  intros Hbe Hbf. unfold binary_round, shl_align.
  cbn [Zdigits2] in Hbf.
  set (e1 := fexp prec emax (Zpos (digits2_pos p) + e)) in *.
  assert (He1 : e1 = rnd_exp (Zpos p) e) by reflexivity.
  destruct (e1 - e) as [|d|d] eqn:Ed.
  - rewrite binary_round_aux_model by (fold (rnd_exp (Zpos p) e); lia).
    rewrite <- (round_model_shift s (Zpos p) e (e - b)) by lia.
    f_equal. lia.
  - rewrite binary_round_aux_model by (fold (rnd_exp (Zpos p) e); lia).
    rewrite <- (round_model_shift s (Zpos p) e (e - b)) by lia.
    f_equal. lia.
  - rewrite iter_xO_value.
    assert (Hk : Zpos d = e - e1) by lia. rewrite Hk.
    assert (Hex : rnd_exp (Zpos p * 2 ^ (e - e1)) e1 = e1).
    { replace e1 with (e - (e - e1)) at 2 by lia.
      rewrite rnd_exp_shift by lia. now symmetry. }
    rewrite binary_round_aux_model
      by (try fold (rnd_exp (Zpos p * 2 ^ (e - e1)) e1);
          pose proof (pow2_gt0 (e - e1) ltac:(lia)); nia || lia).
    rewrite <- (round_model_shift s (Zpos p * 2 ^ (e - e1)) e1 (e1 - b))
      by (pose proof (pow2_gt0 (e - e1) ltac:(lia)); nia || lia).
    f_equal; [|lia].
    rewrite <- Z.mul_assoc, <- pow2_split by lia. f_equal. f_equal. lia.
Qed.

Lemma round_model_opp V b :
  round_model true V b = SFopp (round_model false V b).
Proof.
  unfold round_model, pack.
  destruct (fst _); try reflexivity.
  destruct (snd _ <=? 971); reflexivity.
Qed.

(** ** Binary64 rounding: monotonicity *)

Lemma round_model_nonneg V b :
  0 < V -> b <= rnd_exp V b -> SFnonneg (round_model false V b).
Proof.
  intros HV Hb.
  destruct (round_model_value false V b HV Hb)
    as [[_ Ho]|[[_ Ho]|[_ (p & e & Ho & _)]]]; rewrite Ho; reflexivity.
Qed.

Lemma SFleb_opp a b : SFleb b a = true -> SFleb (SFopp a) (SFopp b) = true.
Proof. unfold SFleb. sf_cases a; sf_cases b; sf_order. Qed.

Lemma SFleb_opp_nonneg a b : SFnonneg a -> SFnonneg b -> SFleb (SFopp a) b = true.
Proof.
  unfold SFnonneg, SFleb. sf_cases a; sf_cases b; simpl; try discriminate; reflexivity.
Qed.

Lemma valid_opp a : valid_binary (SFopp a) = valid_binary a.
Proof. destruct a; reflexivity. Qed.

Lemma sround_pos k b p :
  sround k b (Zpos p) = round_model false (k * Zpos p) b.
Proof. reflexivity. Qed.

Lemma sround_neg k b p :
  sround k b (Zneg p) = SFopp (round_model false (k * Zpos p) b).
Proof. unfold sround. apply round_model_opp. Qed.

Lemma sround_mono k b W W' :
  0 < k -> (forall V, 0 < V -> b <= rnd_exp (k * V) b) ->
  W <= W' ->
  valid_binary (sround k b W) = true -> valid_binary (sround k b W') = true ->
  SFleb (sround k b W) (sround k b W') = true.
Proof.
  intros Hk Hen Hle Hv Hv'.
  assert (Hnn : forall q, SFnonneg (round_model false (k * Zpos q) b))
    by (intros q; apply round_model_nonneg; [nia | apply Hen; lia]).
  destruct W as [|p|p], W' as [|p'|p']; try lia.
  - reflexivity.
  - rewrite sround_pos. apply Hnn.
  - rewrite !sround_pos in *.
    apply round_model_mono; trivial; [nia | apply Hen; lia].
  - rewrite sround_neg.
    apply (SFleb_opp_nonneg _ (S754_zero false)); [apply Hnn | reflexivity].
  - rewrite sround_neg, sround_pos. apply SFleb_opp_nonneg; apply Hnn.
  - rewrite !sround_neg in *. rewrite !valid_opp in *.
    apply SFleb_opp. apply round_model_mono; trivial; [nia | apply Hen; lia].
Qed.

Lemma sround_not_nan k b W :
  0 < k -> (forall V, 0 < V -> b <= rnd_exp (k * V) b) ->
  sround k b W <> S754_nan.
Proof.
  intros Hk Hen. destruct W as [|p|p]; [discriminate| |].
  - rewrite sround_pos.
    destruct (round_model_value false (k * Zpos p) b ltac:(nia) (Hen (Zpos p) ltac:(lia)))
      as [[_ Ho]|[[_ Ho]|[_ (q & e & Ho & _)]]]; rewrite Ho; discriminate.
  - unfold sround.
    destruct (round_model_value true (k * Zpos p) b ltac:(nia) (Hen (Zpos p) ltac:(lia)))
      as [[_ Ho]|[[_ Ho]|[_ (q & e & Ho & _)]]]; rewrite Ho; discriminate.
Qed.

Lemma binary_normalize_sround M e :
  -1074 <= e ->
  binary_normalize prec emax M e false = sround 1 (-1074) (M * 2 ^ (e + 1074)).
Proof.
  intros He. pose proof (pow2_gt0 (e + 1074) ltac:(lia)) as Hp.
  destruct M as [|p|p]; cbn [binary_normalize].
  - reflexivity.
  - rewrite (binary_round_base false p e (-1074))
      by (lia || (rewrite fexp_eq; lia)).
    replace (e - -1074) with (e + 1074) by lia.
    destruct (Zpos p * 2 ^ (e + 1074)) as [|q|q] eqn:E; try lia.
    cbn [sround]. now rewrite Z.mul_1_l.
  - rewrite (binary_round_base true p e (-1074))
      by (lia || (rewrite fexp_eq; lia)).
    replace (e - -1074) with (e + 1074) by lia.
    change (Zneg p) with (- Zpos p). rewrite Z.mul_opp_l.
    destruct (Zpos p * 2 ^ (e + 1074)) as [|q|q] eqn:E; try lia.
    cbn [Z.opp sround]. now rewrite Z.mul_1_l.
Qed.

Lemma shl_align_value m e e' :
  e' <= e -> Zpos (fst (shl_align m e e')) = Zpos m * 2 ^ (e - e').
Proof.
  intros H. unfold shl_align. destruct (e' - e) as [|d|d] eqn:E; try lia.
  - cbn [fst]. replace (e - e') with 0 by lia. simpl. lia.
  - cbn [fst]. rewrite iter_xO_value. f_equal. f_equal. lia.
Qed.

Lemma cond_Zopp_mul s a c : cond_Zopp s a * c = cond_Zopp s (a * c).
Proof. destruct s; cbn [cond_Zopp]; lia. Qed.

Lemma SFadd_finite sx mx ex sy my ey :
  valid_binary (S754_finite sx mx ex) = true ->
  valid_binary (S754_finite sy my ey) = true ->
  SFadd prec emax (S754_finite sx mx ex) (S754_finite sy my ey)
  = sround 1 (-1074) (sval (S754_finite sx mx ex) + sval (S754_finite sy my ey)).
Proof.
  intros Hx Hy.
  destruct (valid_finite _ _ _ Hx) as (Hex & _).
  destruct (valid_finite _ _ _ Hy) as (Hey & _).
  cbn [SFadd sval]. rewrite binary_normalize_sround by lia.
  f_equal. rewrite Z.mul_add_distr_r, !cond_Zopp_mul.
  rewrite !shl_align_value by lia.
  rewrite <- !Z.mul_assoc, <- !pow2_split by lia.
  f_equal; f_equal; f_equal; f_equal; lia.
Qed.

Lemma sround_exact s m e :
  valid_binary (S754_finite s m e) = true ->
  sround 1 (-1074) (sval (S754_finite s m e)) = S754_finite s m e.
Proof.
  intros Hv. destruct (valid_finite _ _ _ Hv) as (He & _).
  cbn [sval]. rewrite <- cond_Zopp_mul.
  rewrite <- binary_normalize_sround by lia.
  assert (Hr : binary_round prec emax s m e = S754_finite s m e).
  { unfold binary_round, shl_align.
    cbn [SpecFloat.valid_binary] in Hv. unfold bounded in Hv.
    apply andb_true_iff in Hv. destruct Hv as [Hc Hb].
    unfold canonical_mantissa in Hc. apply Z.eqb_eq in Hc.
    rewrite Hc, Z.sub_diag. apply binary_round_aux_bounded.
    unfold bounded, canonical_mantissa. rewrite Hc, Z.eqb_refl. exact Hb. }
  destruct s; cbn [cond_Zopp Z.opp binary_normalize]; exact Hr.
Qed.

(** ** Sums of finite values *)

Lemma SFadd_fz_finite x sb mb eb :
  valid_binary x = true -> valid_binary (S754_finite sb mb eb) = true ->
  finite_or_zero x = true ->
  SFadd prec emax x (S754_finite sb mb eb)
  = sround 1 (-1074) (sval x + sval (S754_finite sb mb eb)).
Proof.
  intros Hx Hb Fx. destruct x as [sx|sx| |sx mx ex]; try discriminate.
  - change (sval (S754_zero sx)) with 0. rewrite Z.add_0_l.
    rewrite sround_exact by assumption. reflexivity.
  - now apply SFadd_finite.
Qed.

Lemma SFadd_zero_r_leb x x' sb :
  finite_or_zero x = true -> finite_or_zero x' = true ->
  SFleb (SFadd prec emax x (S754_zero sb)) (SFadd prec emax x' (S754_zero sb))
  = SFleb x x'.
Proof.
  intros Fx Fx'. destruct sb; sf_cases x; try discriminate;
    sf_cases x'; try discriminate; reflexivity.
Qed.

Lemma SFadd_mono_fz x x' b :
  valid_binary x = true -> valid_binary x' = true -> valid_binary b = true ->
  finite_or_zero x = true -> finite_or_zero x' = true ->
  finite_or_zero b = true ->
  valid_binary (SFadd prec emax x b) = true ->
  valid_binary (SFadd prec emax x' b) = true ->
  SFleb x x' = true ->
  SFleb (SFadd prec emax x b) (SFadd prec emax x' b) = true.
Proof.
  intros Hx Hx' Hb Fx Fx' Fb Ho Ho' Hle.
  destruct b as [sb|sb| |sb mb eb]; try discriminate.
  - now rewrite SFadd_zero_r_leb.
  - rewrite !SFadd_fz_finite in * by assumption.
    apply sround_mono; trivial; try lia.
    + intros V HV. apply rnd_exp_ge.
    + pose proof (sval_of_SFleb x x' Hx Hx' Fx Fx' Hle). lia.
Qed.

Lemma SFadd_fz_not_nan x b :
  valid_binary x = true -> valid_binary b = true ->
  finite_or_zero x = true -> finite_or_zero b = true ->
  SFadd prec emax x b <> S754_nan.
Proof.
  intros Hx Hb Fx Fb.
  destruct b as [sb|sb| |sb mb eb]; try discriminate.
  - destruct sb; sf_cases x; discriminate.
  - rewrite SFadd_fz_finite by assumption.
    apply sround_not_nan; [lia|]. intros V HV. apply rnd_exp_ge.
Qed.

Lemma SFadd_not_fz_l v b :
  finite_or_zero v = false -> finite_or_zero b = true ->
  SFadd prec emax v b = v.
Proof. intros Fv Fb. sf_cases v; try discriminate; sf_cases b; try discriminate; reflexivity. Qed.

Lemma SFadd_comm x y : SFadd prec emax x y = SFadd prec emax y x.
Proof.
  sf_cases x; sf_cases y; try reflexivity; cbn [SFadd];
    rewrite (Z.min_comm e0 e); rewrite Z.add_comm; reflexivity.
Qed.

(** ** Sums with infinities and NaN *)

Lemma SFleb_inf_r y : y <> S754_nan -> SFleb y (S754_infinity false) = true.
Proof. intros H. sf_cases y; try reflexivity. contradiction. Qed.

Lemma SFleb_inf_l y : y <> S754_nan -> SFleb (S754_infinity true) y = true.
Proof. intros H. sf_cases y; try reflexivity. contradiction. Qed.

Lemma SFadd_ordered_or_nan v v' b :
  valid_binary v = true -> valid_binary v' = true -> valid_binary b = true ->
  valid_binary (SFadd prec emax v b) = true ->
  valid_binary (SFadd prec emax v' b) = true ->
  ordered_or_nan v v' -> ordered_or_nan (SFadd prec emax v b) (SFadd prec emax v' b).
Proof.
  intros Hv Hv' Hb Ho Ho' HM.
  destruct (finite_or_zero b) eqn:Fb.
  - destruct (finite_or_zero v) eqn:Fv, (finite_or_zero v') eqn:Fv'.
    + left. apply SFadd_mono_fz; trivial.
      destruct HM as [H|[H|[H _]]]; trivial; subst; discriminate.
    + rewrite (SFadd_not_fz_l v' b Fv' Fb).
      pose proof (SFadd_fz_not_nan v b Hv Hb Fv Fb) as Hn.
      destruct v' as [s'|[]| |s' m' e']; try discriminate.
      * exfalso. destruct HM as [H|[H|[H _]]]; try discriminate.
        -- sf_cases v; discriminate.
        -- subst; discriminate.
      * left. now apply SFleb_inf_r.
      * right; left; reflexivity.
    + rewrite (SFadd_not_fz_l v b Fv Fb).
      pose proof (SFadd_fz_not_nan v' b Hv' Hb Fv' Fb) as Hn.
      destruct v as [s|[]| |s m e]; try discriminate.
      * left. now apply SFleb_inf_l.
      * exfalso. destruct HM as [H|[H|[_ H]]]; try (subst; discriminate).
        sf_cases v'; discriminate.
      * exfalso. destruct HM as [H|[H|[_ H]]]; try (subst; discriminate).
    + now rewrite (SFadd_not_fz_l v b Fv Fb), (SFadd_not_fz_l v' b Fv' Fb).
  - destruct b as [sb|[]| |sb mb eb]; try discriminate;
      sf_cases v; sf_cases v'; cbn [SFadd];
      try (left; reflexivity); try (right; left; reflexivity);
      try (right; right; split; reflexivity);
      exfalso; destruct HM as [H|[H|[H1 H2]]]; discriminate.
Qed.

(** ** Products by a positive normal constant *)

Section Mul.
Variables (mc : positive) (ec : Z).
Hypothesis Hdc : Zdigits2 (Zpos mc) = 53.

Lemma enough_digits_mul V : 0 < V -> ec - 1074 <= rnd_exp (Zpos mc * V) (ec - 1074).
Proof.
  intros HV.
  pose proof (Zdigits2_mono (Zpos mc) (Zpos mc * V) ltac:(nia)).
  pose proof (rnd_exp_ge (Zpos mc * V) (ec - 1074)). lia.
Qed.

Lemma SFmul_finite sx mx ex :
  valid_binary (S754_finite sx mx ex) = true ->
  SFmul prec emax (S754_finite false mc ec) (S754_finite sx mx ex)
  = sround (Zpos mc) (ec - 1074) (sval (S754_finite sx mx ex)).
Proof.
  intros Hx. destruct (valid_finite _ _ _ Hx) as (Hex & _).
  cbn [SFmul xorb sval].
  pose proof (pow2_gt0 (ex + 1074) ltac:(lia)) as Hp.
  assert (Hen : ec + ex <= rnd_exp (Zpos (mc * mx)) (ec + ex)).
  { rewrite Pos2Z.inj_mul.
    pose proof (Zdigits2_mono (Zpos mc) (Zpos mc * Zpos mx) ltac:(nia)).
    pose proof (rnd_exp_ge (Zpos mc * Zpos mx) (ec + ex)). lia. }
  rewrite binary_round_aux_model by (trivial; lia).
  rewrite <- (round_model_shift sx (Zpos (mc * mx)) (ec + ex) (ex + 1074))
    by (trivial; lia).
  replace (ec + ex - (ex + 1074)) with (ec - 1074) by lia.
  rewrite Pos2Z.inj_mul, <- Z.mul_assoc.
  destruct (Zpos mx * 2 ^ (ex + 1074)) as [|q|q] eqn:E; try lia.
  destruct sx; cbn [cond_Zopp Z.opp sround]; reflexivity.
Qed.

Lemma SFmul_mono x x' :
  valid_binary x = true -> valid_binary x' = true ->
  valid_binary (SFmul prec emax (S754_finite false mc ec) x) = true ->
  valid_binary (SFmul prec emax (S754_finite false mc ec) x') = true ->
  SFleb x x' = true ->
  SFleb (SFmul prec emax (S754_finite false mc ec) x)
        (SFmul prec emax (S754_finite false mc ec) x') = true.
Proof.
  intros Hx Hx' Ho Ho' Hle.
  assert (Hz : sround (Zpos mc) (ec - 1074) 0 = S754_zero false)
    by reflexivity.
  assert (Hmono : forall W W',
             W <= W' ->
             valid_binary (sround (Zpos mc) (ec - 1074) W) = true ->
             valid_binary (sround (Zpos mc) (ec - 1074) W') = true ->
             SFleb (sround (Zpos mc) (ec - 1074) W)
                   (sround (Zpos mc) (ec - 1074) W') = true).
  { intros W W' HW. apply sround_mono; trivial; [lia|].
    intros V HV. now apply enough_digits_mul. }
  assert (Hnn : forall W, sround (Zpos mc) (ec - 1074) W <> S754_nan).
  { intros W. apply sround_not_nan; [lia|].
    intros V HV. now apply enough_digits_mul. }
  destruct x as [sx|sx| |sx mx ex]; destruct x' as [sx'|sx'| |sx' mx' ex'];
    try discriminate.
  - destruct sx, sx'; reflexivity.
  - destruct sx, sx'; (discriminate Hle || reflexivity).
  - (* zero, finite *)
    pose proof (sval_of_SFleb _ _ Hx Hx' eq_refl eq_refl Hle) as Hs.
    rewrite SFmul_finite in * by assumption.
    change (SFmul prec emax (S754_finite false mc ec) (S754_zero sx)) with (S754_zero sx).
    specialize (Hmono 0 _ Hs eq_refl Ho').
    rewrite Hz in Hmono.
    destruct sx; exact Hmono.
  - destruct sx, sx'; (discriminate Hle || reflexivity).
  - destruct sx, sx'; (discriminate Hle || reflexivity).
  - (* inf, finite *)
    destruct sx; [|destruct sx'; discriminate].
    rewrite SFmul_finite by assumption.
    change (SFmul prec emax (S754_finite false mc ec) (S754_infinity true))
      with (S754_infinity true).
    apply SFleb_inf_l. apply Hnn.
  - (* finite, zero *)
    pose proof (sval_of_SFleb _ _ Hx Hx' eq_refl eq_refl Hle) as Hs.
    rewrite SFmul_finite in * by assumption.
    change (SFmul prec emax (S754_finite false mc ec) (S754_zero sx')) with (S754_zero sx').
    specialize (Hmono _ 0 Hs Ho eq_refl).
    rewrite Hz in Hmono.
    destruct sx'; [|exact Hmono].
    revert Hmono. generalize (sround (Zpos mc) (ec - 1074) (sval (S754_finite sx mx ex))).
    intros y. sf_cases y; trivial.
  - (* finite, inf *)
    destruct sx'; [destruct sx; discriminate|].
    rewrite SFmul_finite by assumption.
    change (SFmul prec emax (S754_finite false mc ec) (S754_infinity false))
      with (S754_infinity false).
    apply SFleb_inf_r. apply Hnn.
  - pose proof (sval_of_SFleb _ _ Hx Hx' eq_refl eq_refl Hle) as Hs.
    rewrite !SFmul_finite in * by assumption.
    now apply Hmono.
Qed.

End Mul.

(** ** C10: the level is total and monotone in each pollutant *)

#[local] Open Scope float_scope.

Lemma weights_normal :
  normal_weight 0.3 /\ normal_weight 0.2 /\
  normal_weight 0.1 /\ normal_weight 0.05.
Proof. repeat split; eexists; eexists; split; vm_compute; reflexivity. Qed.

Lemma mul_weight_mono (c x x' : float) :
  normal_weight c -> (x <=? x') = true ->
  ordered_or_nan (Prim2SF (c * x)) (Prim2SF (c * x')).
Proof.
  intros (m & e & Hc & Hd) H. left.
  rewrite FloatAxioms.leb_spec in H.
  pose proof (Prim2SF_valid (c * x)) as Ho.
  pose proof (Prim2SF_valid (c * x')) as Ho'.
  rewrite FloatAxioms.mul_spec, Hc in Ho.
  rewrite FloatAxioms.mul_spec, Hc in Ho'.
  rewrite !FloatAxioms.mul_spec, Hc. unfold SF64mul in *.
  apply (SFmul_mono m e Hd); trivial; apply Prim2SF_valid.
Qed.

Lemma add_r_ordered (v v' b : float) :
  ordered_or_nan (Prim2SF v) (Prim2SF v') -> ordered_or_nan (Prim2SF (v + b)) (Prim2SF (v' + b)).
Proof.
  intros H.
  pose proof (Prim2SF_valid (v + b)) as Ho.
  pose proof (Prim2SF_valid (v' + b)) as Ho'.
  rewrite FloatAxioms.add_spec in Ho.
  rewrite FloatAxioms.add_spec in Ho'.
  rewrite !FloatAxioms.add_spec. unfold SF64add in *.
  apply SFadd_ordered_or_nan; trivial; apply Prim2SF_valid.
Qed.

Lemma add_l_ordered (b v v' : float) :
  ordered_or_nan (Prim2SF v) (Prim2SF v') -> ordered_or_nan (Prim2SF (b + v)) (Prim2SF (b + v')).
Proof.
  intros H. pose proof (add_r_ordered v v' b H) as G.
  rewrite !FloatAxioms.add_spec in G |- *. unfold SF64add in *.
  now rewrite (SFadd_comm (Prim2SF b)), (SFadd_comm (Prim2SF b)).
Qed.

Lemma SFleb_SFltb_trans x y z :
  SFleb x y = true -> SFltb y z = true -> SFltb x z = true.
Proof. unfold SFleb, SFltb. sf_cases x; sf_cases y; sf_cases z; sf_order. Qed.

Lemma level_ordered (s s' : Sample) :
  ordered_or_nan (Prim2SF (aqi_score s)) (Prim2SF (aqi_score s')) ->
  (compute_aqi_level s <= compute_aqi_level s')%Z.
Proof.
  intros H. unfold compute_aqi_level.
  rewrite !FloatAxioms.ltb_spec.
  destruct H as [H|[H|[H1 H2]]].
  - pose proof (SFleb_SFltb_trans _ _ (Prim2SF 50) H) as T50.
    pose proof (SFleb_SFltb_trans _ _ (Prim2SF 100) H) as T100.
    pose proof (SFleb_SFltb_trans _ _ (Prim2SF 200) H) as T200.
    destruct (SFltb (Prim2SF (aqi_score s')) (Prim2SF 50));
      [rewrite T50 by reflexivity; lia|].
    destruct (SFltb (Prim2SF (aqi_score s')) (Prim2SF 100));
      [rewrite T100 by reflexivity;
       destruct (SFltb (Prim2SF (aqi_score s)) (Prim2SF 50)); lia|].
    destruct (SFltb (Prim2SF (aqi_score s')) (Prim2SF 200));
      [rewrite T200 by reflexivity;
       destruct (SFltb (Prim2SF (aqi_score s)) (Prim2SF 50));
       destruct (SFltb (Prim2SF (aqi_score s)) (Prim2SF 100)); lia|].
    destruct (SFltb (Prim2SF (aqi_score s)) (Prim2SF 50));
    destruct (SFltb (Prim2SF (aqi_score s)) (Prim2SF 100));
    destruct (SFltb (Prim2SF (aqi_score s)) (Prim2SF 200)); lia.
  - rewrite H. cbn [SFltb SFcompare].
    destruct (SFltb (Prim2SF (aqi_score s)) (Prim2SF 50));
    destruct (SFltb (Prim2SF (aqi_score s)) (Prim2SF 100));
    destruct (SFltb (Prim2SF (aqi_score s)) (Prim2SF 200)); lia.
  - rewrite H1, H2. vm_compute. discriminate.
Qed.

Lemma score_raised (s s' : Sample) :
  raised s s' -> ordered_or_nan (Prim2SF (aqi_score s)) (Prim2SF (aqi_score s')).
Proof.
  destruct weights_normal as (W1 & W2 & W3 & W4).
  intros [s0 v H|s0 v H|s0 v H|s0 v H]; unfold aqi_score;
    cbn [PM2_5 PM10 NO2 O3 set_PM2_5 set_PM10 set_NO2 set_O3].
  - do 3 apply add_r_ordered. now apply mul_weight_mono.
  - do 2 apply add_r_ordered. apply add_l_ordered. now apply mul_weight_mono.
  - apply add_r_ordered. apply add_l_ordered. now apply mul_weight_mono.
  - apply add_l_ordered. now apply mul_weight_mono.
Qed.

(** C10: [compute_aqi_level] returns a level in {0,1,2,3} on every sample,
    whatever its fields hold, and raising one of PM2.5, PM10, NO2 or O3
    with every other field kept never lowers the level. *)
Theorem compute_aqi_level_total_monotone (s s' : Sample) :
  raised s s' ->
  (0 <= compute_aqi_level s <= 3)%Z /\
  (0 <= compute_aqi_level s' <= 3)%Z /\
  (compute_aqi_level s <= compute_aqi_level s')%Z.
Proof.
  intros H. split; [apply compute_aqi_level_range|].
  split; [apply compute_aqi_level_range|].
  apply level_ordered. now apply score_raised.
Qed.

Lemma compute_aqi_level_total_monotone_witness :
  (compute_aqi_level (mkSample 33 65 550 150 180 80 60 3.5 1 0 0)
   <= compute_aqi_level
        (set_PM2_5 (mkSample 33 65 550 150 180 80 60 3.5 1 0 0) 200))%Z.
Proof.
  apply (compute_aqi_level_total_monotone
           (mkSample 33 65 550 150 180 80 60 3.5 1 0 0)
           (set_PM2_5 (mkSample 33 65 550 150 180 80 60 3.5 1 0 0) 200)).
  apply raised_PM2_5. reflexivity.
Defined.

#[local] Close Scope float_scope.

(** * Further properties of the code *)

(** ** The level for arbitrary scores *)

Lemma SFeqb_self_false x : SFeqb x x = false <-> x = S754_nan.
Proof.
  unfold SFeqb. split.
  - sf_cases x; simpl; try discriminate; try reflexivity;
      rewrite Z.compare_refl, ?Pos.compare_cont_refl; discriminate.
  - intros ->. reflexivity.
Qed.

Lemma eqb_self_false (x : float) :
  (x =? x)%float = false <-> Prim2SF x = S754_nan.
Proof. rewrite FloatAxioms.eqb_spec. apply SFeqb_self_false. Qed.

#[local] Open Scope float_scope.

(** [x < c] fails exactly when [c <= x] or [x] is a NaN. *)
Lemma ltb_false_iff (x c : float) :
  (c <=? c) = true ->
  (x <? c) = false <-> (c <=? x) = true \/ (x =? x) = false.
Proof.
  intros Hc. split.
  - intros H. destruct (x =? x) eqn:Ex; [left | now right].
    assert (Hn : Prim2SF x <> S754_nan).
    { intros E. apply eqb_self_false in E. congruence. }
    rewrite FloatAxioms.leb_spec in *. rewrite FloatAxioms.ltb_spec in H.
    apply SFltb_false_SFleb; trivial. exact (SFleb_not_nan_r _ _ Hc).
  - intros [H|H].
    + now apply leb_ltb_false.
    + apply eqb_self_false in H. now rewrite FloatAxioms.ltb_spec, H.
Qed.

Lemma ltb_true_not_nan (x c : float) : (x <? c) = true -> (x =? x) = true.
Proof.
  intros H. destruct (x =? x) eqn:E; [reflexivity|].
  apply eqb_self_false in E. rewrite FloatAxioms.ltb_spec, E in H. discriminate.
Qed.

(** X1: for every sample, whatever the sign of its fields, the level is 0
    exactly when the score is below 50 (a negative score included), 1
    exactly when the score is at least 50 and below 100, 2 exactly when it
    is at least 100 and below 200, and 3 exactly when it is at least 200 or
    is a NaN. *)
Theorem compute_aqi_level_cases (s : Sample) :
  (compute_aqi_level s = 0%Z <-> (aqi_score s <? 50) = true) /\
  (compute_aqi_level s = 1%Z <->
   (50 <=? aqi_score s) = true /\ (aqi_score s <? 100) = true) /\
  (compute_aqi_level s = 2%Z <->
   (100 <=? aqi_score s) = true /\ (aqi_score s <? 200) = true) /\
  (compute_aqi_level s = 3%Z <->
   (200 <=? aqi_score s) = true \/ (aqi_score s =? aqi_score s) = false).
Proof.
  unfold compute_aqi_level. set (x := aqi_score s). cbv zeta.
  pose proof (ltb_false_iff x 50 eq_refl) as H50.
  pose proof (ltb_false_iff x 100 eq_refl) as H100.
  pose proof (ltb_false_iff x 200 eq_refl) as H200.
  pose proof (fun H => ltb_trans x 50 100 H eq_refl) as T1.
  pose proof (fun H => ltb_trans x 100 200 H eq_refl) as T2.
  pose proof (ltb_true_not_nan x 50) as N50.
  pose proof (ltb_true_not_nan x 100) as N100.
  pose proof (ltb_true_not_nan x 200) as N200.
  destruct (x <? 50), (x <? 100), (x <? 200), (50 <=? x), (100 <=? x),
    (200 <=? x), (x =? x);
    repeat split; intros; try reflexivity; try discriminate; try lia;
    intuition congruence.
Qed.

(** ** A NaN reading *)

Lemma mul_nan_r (c x : float) : is_nan x = true -> is_nan (c * x) = true.
Proof.
  unfold is_nan. rewrite !negb_true_iff, !eqb_self_false, FloatAxioms.mul_spec.
  intros ->. unfold SF64mul. now destruct (Prim2SF c).
Qed.

Lemma add_nan_l (x y : float) : is_nan x = true -> is_nan (x + y) = true.
Proof.
  unfold is_nan. rewrite !negb_true_iff, !eqb_self_false, FloatAxioms.add_spec.
  intros ->. reflexivity.
Qed.

Lemma add_nan_r (x y : float) : is_nan y = true -> is_nan (x + y) = true.
Proof.
  unfold is_nan. rewrite !negb_true_iff, !eqb_self_false, FloatAxioms.add_spec.
  intros ->. unfold SF64add. now destruct (Prim2SF x).
Qed.

Lemma nan_ltb_false (x c : float) : is_nan x = true -> (x <? c) = false.
Proof.
  unfold is_nan. rewrite negb_true_iff, eqb_self_false, FloatAxioms.ltb_spec.
  intros ->. reflexivity.
Qed.

(** X2: a NaN in one of the four pollutant fields makes the score a NaN,
    and the sample is classified Hazardous (level 3): every comparison of
    the cascade fails. *)
Theorem nan_pollutant_is_hazardous (s : Sample) :
  is_nan (PM2_5 s) = true \/ is_nan (PM10 s) = true \/
  is_nan (NO2 s) = true \/ is_nan (O3 s) = true ->
  is_nan (aqi_score s) = true /\ compute_aqi_level s = 3%Z.
Proof.
  intros H.
  assert (Hs : is_nan (aqi_score s) = true).
  { unfold aqi_score. destruct H as [H|[H|[H|H]]].
    - do 3 apply add_nan_l. now apply mul_nan_r.
    - do 2 apply add_nan_l. apply add_nan_r. now apply mul_nan_r.
    - apply add_nan_l. apply add_nan_r. now apply mul_nan_r.
    - apply add_nan_r. now apply mul_nan_r. }
  split; [exact Hs|].
  unfold compute_aqi_level. cbv zeta.
  now rewrite !(nan_ltb_false _ _ Hs).
Qed.

Lemma nan_pollutant_is_hazardous_witness :
  compute_aqi_level (mkSample 33 65 550 150 nan 80 60 3.5 1 0 0) = 3%Z.
Proof.
  apply (nan_pollutant_is_hazardous (mkSample 33 65 550 150 nan 80 60 3.5 1 0 0)).
  right; left; reflexivity.
Defined.

(** ** Raising several pollutants at once *)

Lemma raised_chain (s : Sample) (v1 v2 v3 v4 : float) :
  (PM2_5 s <=? v1) = true -> (PM10 s <=? v2) = true ->
  (NO2 s <=? v3) = true -> (O3 s <=? v4) = true ->
  (compute_aqi_level s
   <= compute_aqi_level (set_O3 (set_NO2 (set_PM10 (set_PM2_5 s v1) v2) v3) v4))%Z.
Proof.
  intros H1 H2 H3 H4.
  set (s1 := set_PM2_5 s v1). set (s2 := set_PM10 s1 v2).
  set (s3 := set_NO2 s2 v3). set (s4 := set_O3 s3 v4).
  assert (R1 : raised s s1) by (apply raised_PM2_5; exact H1).
  assert (R2 : raised s1 s2) by (apply raised_PM10; exact H2).
  assert (R3 : raised s2 s3) by (apply raised_NO2; exact H3).
  assert (R4 : raised s3 s4) by (apply raised_O3; exact H4).
  pose proof (level_ordered _ _ (score_raised _ _ R1)).
  pose proof (level_ordered _ _ (score_raised _ _ R2)).
  pose proof (level_ordered _ _ (score_raised _ _ R3)).
  pose proof (level_ordered _ _ (score_raised _ _ R4)).
  lia.
Qed.

(** X3: the level is monotone in the four pollutants jointly: when each of
    PM2.5, PM10, NO2 and O3 of [s] is at most that of [s'], the level of [s]
    is at most the level of [s'], whatever the other fields of the two
    samples are. *)
Theorem compute_aqi_level_monotone_jointly (s s' : Sample) :
  (PM2_5 s <=? PM2_5 s') = true -> (PM10 s <=? PM10 s') = true ->
  (NO2 s <=? NO2 s') = true -> (O3 s <=? O3 s') = true ->
  (compute_aqi_level s <= compute_aqi_level s')%Z.
Proof.
  intros H1 H2 H3 H4.
  pose proof (raised_chain s _ _ _ _ H1 H2 H3 H4) as H.
  assert (E : compute_aqi_level
                (set_O3 (set_NO2 (set_PM10 (set_PM2_5 s (PM2_5 s')) (PM10 s'))
                                 (NO2 s')) (O3 s'))
              = compute_aqi_level s') by reflexivity.
  rewrite E in H. exact H.
Qed.

Lemma compute_aqi_level_monotone_jointly_witness :
  (compute_aqi_level (mkSample 10 20 300 5 10 2 5 0.5 0 0 0)
   <= compute_aqi_level (mkSample 45 90 800 250 300 200 180 10 1 0 0))%Z.
Proof.
  apply (compute_aqi_level_monotone_jointly
           (mkSample 10 20 300 5 10 2 5 0.5 0 0 0)
           (mkSample 45 90 800 250 300 200 180 10 1 0 0));
    reflexivity.
Defined.

#[local] Close Scope float_scope.

(** ** The health-risk rule outside its table *)

(** X4: [compute_health_risk] answers for every pair of integers: the
    result is always 0, 1 or 2; for an AQI level outside 0..3 it is 2 when
    the city type is 1 and 1 otherwise; at level 2 every city type other
    than 1 counts as rural; and for a level that is not negative the risk
    never exceeds the level. *)
Theorem compute_health_risk_total (s : Sample) :
  0 <= compute_health_risk s <= 2 /\
  (AQI_Level s < 0 \/ 3 < AQI_Level s ->
   compute_health_risk s = if CityType s =? 1 then 2 else 1) /\
  (AQI_Level s = 2 -> CityType s <> 1 -> compute_health_risk s = 1) /\
  (0 <= AQI_Level s -> compute_health_risk s <= AQI_Level s).
Proof.
  unfold compute_health_risk.
  destruct (Z.eqb_spec (AQI_Level s) 0), (Z.eqb_spec (AQI_Level s) 1),
    (Z.eqb_spec (AQI_Level s) 2), (Z.eqb_spec (AQI_Level s) 3),
    (Z.eqb_spec (CityType s) 1); cbn [andb];
    repeat split; intros; try lia; try reflexivity.
Qed.

(** X5: inside the table the risk is monotone: when the AQI level (within
    0..3) does not decrease and an urban sample stays urban, the risk does
    not decrease. *)
Theorem compute_health_risk_monotone (s s' : Sample) :
  0 <= AQI_Level s <= AQI_Level s' -> AQI_Level s' <= 3 ->
  (CityType s = 1 -> CityType s' = 1) ->
  compute_health_risk s <= compute_health_risk s'.
Proof.
  unfold compute_health_risk. intros Ha Hb Hc.
  destruct (Z.eqb_spec (AQI_Level s) 0), (Z.eqb_spec (AQI_Level s) 1),
    (Z.eqb_spec (AQI_Level s) 2), (Z.eqb_spec (AQI_Level s) 3),
    (Z.eqb_spec (CityType s) 1),
    (Z.eqb_spec (AQI_Level s') 0), (Z.eqb_spec (AQI_Level s') 1),
    (Z.eqb_spec (AQI_Level s') 2), (Z.eqb_spec (AQI_Level s') 3),
    (Z.eqb_spec (CityType s') 1); cbn [andb]; lia.
Qed.

Lemma compute_health_risk_monotone_witness :
  compute_health_risk (mkSample 33 65 550 150 180 80 60 3.5 0 2 0)
  <= compute_health_risk (mkSample 33 65 550 150 180 80 60 3.5 1 2 0).
Proof.
  apply (compute_health_risk_monotone
           (mkSample 33 65 550 150 180 80 60 3.5 0 2 0)
           (mkSample 33 65 550 150 180 80 60 3.5 1 2 0)).
  - cbn [AQI_Level]. lia.
  - cbn [AQI_Level]. lia.
  - cbn [CityType]. lia.
Defined.

(** ** The labels printed for a query *)

Lemma label_sample_pairs (s : Sample) :
  let s' := label_sample s in
  (AQI_Level s' = 0 /\ Health_Risk s' = 0) \/
  (AQI_Level s' = 1 /\ Health_Risk s' = 1) \/
  (AQI_Level s' = 2 /\ Health_Risk s' = 1 /\ CityType s' <> 1) \/
  (AQI_Level s' = 2 /\ Health_Risk s' = 2 /\ CityType s' = 1) \/
  (AQI_Level s' = 3 /\ Health_Risk s' = 2).
Proof.
  cbv zeta. unfold label_sample, set_Health_Risk, set_AQI_Level, compute_health_risk.
  cbn [AQI_Level Health_Risk CityType].
  pose proof (compute_aqi_level_range s) as Hr.
  destruct (Z.eqb_spec (compute_aqi_level s) 0), (Z.eqb_spec (compute_aqi_level s) 1),
    (Z.eqb_spec (compute_aqi_level s) 2), (Z.eqb_spec (compute_aqi_level s) 3),
    (Z.eqb_spec (CityType s) 1); cbn [andb]; try lia; tauto.
Qed.

Lemma predict_line_query (uninit : Sample) (line : string) :
  exists s,
    query (predict_line uninit line) = label_sample s /\
    aqi_name (predict_line uninit line)
    = array_at AQI_labels (AQI_Level (label_sample s)) /\
    hr_name (predict_line uninit line)
    = array_at HR_labels (Health_Risk (label_sample s)).
Proof.
  unfold predict_line.
  destruct (String.eqb line "demo"); [|destruct (parse_sample line uninit)];
    eexists; repeat split.
Qed.

(** X6: whatever the input, the query prints one of five pairs of labels:
    Good / Low, Moderate / Medium, Unhealthy / Medium (city type other than
    1), Unhealthy / High (city type 1) and Hazardous / High; both indices
    lie inside their label arrays. *)
Theorem interactive_label_pairs (uninit : Sample) (cin : list string) :
  let p := interactive uninit cin in
  (predicted_labels p = (0, 0) /\
   aqi_name p = Some "Good"%string /\ hr_name p = Some "Low"%string) \/
  (predicted_labels p = (1, 1) /\
   aqi_name p = Some "Moderate"%string /\ hr_name p = Some "Medium"%string) \/
  (predicted_labels p = (2, 1) /\ CityType (query p) <> 1 /\
   aqi_name p = Some "Unhealthy"%string /\ hr_name p = Some "Medium"%string) \/
  (predicted_labels p = (2, 2) /\ CityType (query p) = 1 /\
   aqi_name p = Some "Unhealthy"%string /\ hr_name p = Some "High"%string) \/
  (predicted_labels p = (3, 2) /\
   aqi_name p = Some "Hazardous"%string /\ hr_name p = Some "High"%string).
Proof.
  cbv zeta. unfold interactive, predicted_labels.
  destruct (predict_line_query uninit (read_line cin)) as (s & Hq & Ha & Hh).
  rewrite Ha, Hh, Hq.
  destruct (label_sample_pairs s) as [H|[H|[H|[H|H]]]];
    [ left | right; left | do 2 right; left | do 3 right; left | do 4 right ];
    repeat match goal with H : _ /\ _ |- _ => destruct H end;
    repeat match goal with H : _ = _ |- _ => rewrite H end;
    repeat split; assumption.
Qed.

(** ** Indeterminate initial contents *)

Lemma label_sample_inputs (s s' : Sample) :
  same_inputs s s' -> label_sample s = label_sample s'.
Proof.
  destruct s, s'. unfold same_inputs. cbn.
  intros (-> & -> & -> & -> & -> & -> & -> & -> & ->). reflexivity.
Qed.

Lemma parse_sample_uninit (line : string) (u u' : Sample) :
  match parse_sample line u, parse_sample line u' with
  | Some s, Some s' => same_inputs s s'
  | None, None => True
  | _, _ => False
  end.
Proof.
  unfold parse_sample.
  repeat match goal with
  | |- context [match extract_double ?l with _ => _ end] =>
      destruct (extract_double l) as [[? ?]|]; [|exact I]
  end.
  destruct (extract_int _) as [[? ?]|]; [|exact I].
  repeat split.
Qed.

Lemma predict_line_uninit (u u' : Sample) (line : string) :
  predict_line u line = predict_line u' line.
Proof.
  unfold predict_line.
  assert (D : label_sample (demo_sample u) = label_sample (demo_sample u'))
    by (apply label_sample_inputs; repeat split).
  destruct (String.eqb line "demo").
  - now rewrite D.
  - pose proof (parse_sample_uninit line u u') as H.
    destruct (parse_sample line u) as [s|], (parse_sample line u') as [s'|];
      try contradiction.
    + now rewrite (label_sample_inputs s s' H).
    + now rewrite D.
Qed.

Section Uninit.

Variable rng : Type.
Variable uniform_real_distribution : float -> float -> rng -> float * rng.
Variable uniform_int_distribution : Z -> Z -> rng -> Z * rng.
Variable shuffle : list Sample -> rng -> list Sample * rng.
Variables uninit uninit' : nat -> Sample.

Lemma gen_sample_uninit (i : nat) (g : rng) :
  gen_sample rng uniform_real_distribution uniform_int_distribution uninit i g
  = gen_sample rng uniform_real_distribution uniform_int_distribution uninit' i g.
Proof.
  unfold gen_sample.
  repeat match goal with
  | |- context [rnd_double ?r ?d ?a ?b ?g] =>
      destruct (rnd_double r d a b g) as [? ?]
  end.
  destruct (rnd_int _ _ _ _ _) as [? ?].
  apply f_equal2; [apply label_sample_inputs; repeat split | reflexivity].
Qed.

Lemma generate_uninit (steps : nat) :
  forall i g data,
    generate rng uniform_real_distribution uniform_int_distribution uninit
             steps i g data
    = generate rng uniform_real_distribution uniform_int_distribution uninit'
               steps i g data.
Proof.
  induction steps as [|k IH]; intros i g data; [reflexivity|].
  cbn [generate]. rewrite gen_sample_uninit.
  destruct (gen_sample _ _ _ _ _ _) as [s g']. apply IH.
Qed.

(** X7: the result of [main] does not depend on the indeterminate initial
    contents of its [Sample] objects: every field is written before it is
    read. *)
Theorem main_ignores_uninitialised (g : rng) (cin : list string) :
  main rng uniform_real_distribution uniform_int_distribution shuffle uninit
       g cin
  = main rng uniform_real_distribution uniform_int_distribution shuffle uninit'
         g cin.
Proof.
  unfold main, evaluate. rewrite generate_uninit.
  destruct (generate _ _ _ _ _ _ _ _) as [data g1].
  destruct (shuffle data g1) as [data' g2].
  unfold interactive.
  now rewrite (predict_line_uninit (uninit (Z.to_nat N)) (uninit' (Z.to_nat N))).
Qed.

End Uninit.

(** ** The lines the query reads *)

Lemma read_line_first (line : string) (rest : list string) :
  line <> EmptyString -> read_line (line :: rest) = line.
Proof.
  intros Hne. unfold read_line, getline.
  destruct (String.eqb_spec line EmptyString); [contradiction | reflexivity].
Qed.

Lemma predict_line_empty (uninit : Sample) :
  predict_line uninit EmptyString
  = mkPrediction (mkSample 33 65 550 150 180 80 60 3.5 1 1 1) true true
                 (Some "Moderate"%string) (Some "Medium"%string).
Proof.
  unfold predict_line. cbn [String.eqb].
  rewrite empty_line_unparsable. reflexivity.
Qed.

(** X8: the query reads one line, and a second one only when the first is
    empty; the lines after them never matter. At the end of the input, or
    when the line finally read is empty, the invalid-input notice is printed
    and the demo sample is classified (Moderate / Medium). *)
Theorem interactive_reads_two_lines_at_most (uninit : Sample) :
  (forall line rest,
     line <> EmptyString ->
     interactive uninit (line :: rest) = predict_line uninit line) /\
  (forall line rest,
     interactive uninit (EmptyString :: line :: rest)
     = predict_line uninit line) /\
  (forall cin,
     cin = [] \/ cin = [EmptyString] \/
     (exists rest, cin = EmptyString :: EmptyString :: rest) ->
     interactive uninit cin
     = mkPrediction (mkSample 33 65 550 150 180 80 60 3.5 1 1 1) true true
                    (Some "Moderate"%string) (Some "Medium"%string)).
Proof.
  split; [|split].
  - intros line rest Hne. unfold interactive. now rewrite read_line_first.
  - intros line rest. reflexivity.
  - intros cin [->|[->|[rest ->]]]; unfold interactive;
      change (read_line _) with EmptyString; apply predict_line_empty.
Qed.

(** ** Relations between the counters *)

Lemma count_of_pointwise_sum {A} (f g h : A -> bool) (l : list A) :
  (forall x, (if f x then 1 else 0) + (if g x then 1 else 0)
             = (if h x then 1 else 0)) ->
  count_of f l + count_of g l = count_of h l.
Proof.
  intros H. induction l as [|x l IH]; [reflexivity|].
  rewrite !count_of_cons. specialize (H x). lia.
Qed.

Lemma count_of_fst (f : Z -> bool) (l1 l2 : list Z) :
  length l1 = length l2 ->
  count_of (fun ab => f (fst ab)) (combine l1 l2) = count_of f l1.
Proof.
  revert l2. induction l1 as [|a l1 IH]; intros [|b l2] H; try discriminate;
    [reflexivity|].
  cbn [combine]. rewrite !count_of_cons. cbn [fst]. rewrite IH; [reflexivity|].
  now injection H.
Qed.

Lemma count_of_snd (f : Z -> bool) (l1 l2 : list Z) :
  length l1 = length l2 ->
  count_of (fun ab => f (snd ab)) (combine l1 l2) = count_of f l2.
Proof.
  revert l2. induction l1 as [|a l1 IH]; intros [|b l2] H; try discriminate;
    [reflexivity|].
  cbn [combine]. rewrite !count_of_cons. cbn [snd]. rewrite IH; [reflexivity|].
  now injection H.
Qed.

Lemma count_tp_fn (label : Z) (l1 l2 : list Z) :
  length l1 = length l2 ->
  count_of (is_tp label) (combine l1 l2) + count_of (is_fn label) (combine l1 l2)
  = count_of (fun v => v =? label) l1.
Proof.
  intros H. rewrite <- (count_of_fst (fun v => v =? label) l1 l2 H).
  apply count_of_pointwise_sum. intros [a b]. unfold is_tp, is_fn. cbn [fst snd].
  destruct (a =? label), (b =? label); reflexivity.
Qed.

Lemma count_tp_fp (label : Z) (l1 l2 : list Z) :
  length l1 = length l2 ->
  count_of (is_tp label) (combine l1 l2) + count_of (is_fp label) (combine l1 l2)
  = count_of (fun v => v =? label) l2.
Proof.
  intros H. rewrite <- (count_of_snd (fun v => v =? label) l1 l2 H).
  apply count_of_pointwise_sum. intros [a b]. unfold is_tp, is_fp. cbn [fst snd].
  destruct (a =? label), (b =? label); reflexivity.
Qed.

(** X9: for sequences of equal length, the support counted by the second
    loop is tp + fn of the first loop, the number of predictions equal to
    the label is tp + fp, tp is at most the support, and the recall is tp
    divided by the support (0 for an empty support). *)
Theorem support_is_tp_plus_fn (y_true y_pred : list Z) (label : Z) :
  length y_true = length y_pred ->
  Z.of_nat (length y_true) <= Int.INT_MAX ->
  exists c m,
    confusion_loop (Z.to_nat (Int.of_size (length y_true))) y_true y_pred
                   label 0 (mkConfusion 0 0 0) = Some c /\
    compute_metrics_for_label y_true y_pred label = Some m /\
    support m = tp c + fn c /\
    count_of (fun v => v =? label) y_pred = tp c + fp c /\
    0 <= tp c <= support m /\
    recall m = (if support m =? 0 then 0%float
                else (double_of_int (tp c) / double_of_int (support m))%float).
Proof.
  intros Hl Hmax.
  eexists; eexists. split; [apply confusion_loop_total; assumption|].
  split; [apply compute_metrics_for_label_eq; assumption|].
  cbn [tp fp fn]. unfold metrics_of_counts. cbn [support recall].
  pose proof (count_tp_fn label y_true y_pred Hl) as Hs.
  pose proof (count_tp_fp label y_true y_pred Hl) as Hp.
  pose proof (count_of_bounds (is_tp label) (combine y_true y_pred)) as Ht.
  pose proof (count_of_bounds (is_fn label) (combine y_true y_pred)) as Hf.
  rewrite <- Hs. repeat split; try lia.
Qed.

Lemma support_is_tp_plus_fn_witness :
  exists c m,
    confusion_loop 4 [1; 0; 1; 2] [1; 1; 0; 2] 1 0 (mkConfusion 0 0 0) = Some c /\
    compute_metrics_for_label [1; 0; 1; 2] [1; 1; 0; 2] 1 = Some m /\
    support m = tp c + fn c.
Proof.
  destruct (support_is_tp_plus_fn [1; 0; 1; 2] [1; 1; 0; 2] 1 eq_refl
              ltac:(small_length)) as (c & m & H1 & H2 & H3 & _).
  exists c, m. repeat split; assumption.
Defined.

Lemma count_tp_swap (label : Z) (l1 : list Z) :
  forall l2,
    count_of (is_tp label) (combine l2 l1) = count_of (is_tp label) (combine l1 l2).
Proof.
  induction l1 as [|a l1 IH]; intros [|b l2]; try reflexivity.
  cbn [combine]. rewrite !count_of_cons, IH. unfold is_tp. cbn [fst snd].
  now rewrite andb_comm.
Qed.

Lemma count_fp_swap (label : Z) (l1 : list Z) :
  forall l2,
    count_of (is_fp label) (combine l2 l1) = count_of (is_fn label) (combine l1 l2).
Proof.
  induction l1 as [|a l1 IH]; intros [|b l2]; try reflexivity.
  cbn [combine]. rewrite !count_of_cons, IH. unfold is_fp, is_fn. cbn [fst snd].
  now rewrite andb_comm.
Qed.

Lemma count_fn_swap (label : Z) (l1 : list Z) :
  forall l2,
    count_of (is_fn label) (combine l2 l1) = count_of (is_fp label) (combine l1 l2).
Proof.
  induction l1 as [|a l1 IH]; intros [|b l2]; try reflexivity.
  cbn [combine]. rewrite !count_of_cons, IH. unfold is_fp, is_fn. cbn [fst snd].
  now rewrite andb_comm.
Qed.

(** ** The order of the positions, and batches *)

Lemma count_of_perm {A} (f : A -> bool) (l l' : list A) :
  Permutation l l' -> count_of f l = count_of f l'.
Proof.
  induction 1 as [|x l l' _ IH|x y l|l l' l'' _ IH1 _ IH2].
  - reflexivity.
  - now rewrite !count_of_cons, IH.
  - rewrite !count_of_cons. lia.
  - now rewrite IH1.
Qed.

Lemma count_of_app {A} (f : A -> bool) (l l' : list A) :
  count_of f (l ++ l') = count_of f l + count_of f l'.
Proof.
  induction l as [|x l IH]; [rewrite count_of_nil; reflexivity|].
  cbn [app]. rewrite !count_of_cons, IH. lia.
Qed.

Lemma combine_app_same {A B} (l1 : list A) :
  forall (m1 : list B) l2 m2,
    length l1 = length m1 ->
    combine (l1 ++ l2) (m1 ++ m2) = combine l1 m1 ++ combine l2 m2.
Proof.
  induction l1 as [|a l1 IH]; intros [|b m1] l2 m2 H; try discriminate;
    [reflexivity|].
  cbn [app combine]. f_equal. apply IH. now injection H.
Qed.

(** X10: the metrics and the accuracy do not depend on the order of the
    positions: two pairs of sequences whose position-wise pairs are a
    permutation of one another have the same per-label metrics and the same
    accuracy. *)
Theorem metrics_order_invariant (y_true y_pred y_true' y_pred' : list Z)
  (label : Z) :
  length y_true = length y_pred ->
  length y_true' = length y_pred' ->
  Z.of_nat (length y_true) <= Int.INT_MAX ->
  Permutation (combine y_true y_pred) (combine y_true' y_pred') ->
  compute_metrics_for_label y_true y_pred label
  = compute_metrics_for_label y_true' y_pred' label /\
  accuracy y_true y_pred = accuracy y_true' y_pred'.
Proof.
  intros Hl Hl' Hmax Hperm.
  assert (Hlen : length y_true' = length y_true).
  { apply Permutation_length in Hperm.
    rewrite !length_combine, <- Hl, <- Hl', !Nat.min_id in Hperm. lia. }
  assert (Hmax' : Z.of_nat (length y_true') <= Int.INT_MAX)
    by (rewrite Hlen; exact Hmax).
  rewrite !compute_metrics_for_label_eq, !accuracy_eq by assumption.
  rewrite <- (count_of_fst (fun v => v =? label) y_true y_pred Hl).
  rewrite <- (count_of_fst (fun v => v =? label) y_true' y_pred' Hl').
  rewrite !(count_of_perm _ _ _ Hperm), Hlen. split; reflexivity.
Qed.

Lemma metrics_order_invariant_witness :
  compute_metrics_for_label [1; 0; 1; 2] [1; 1; 0; 2] 1
  = compute_metrics_for_label [2; 1; 0; 1] [2; 1; 1; 0] 1.
Proof.
  apply (metrics_order_invariant [1; 0; 1; 2] [1; 1; 0; 2]
           [2; 1; 0; 1] [2; 1; 1; 0] 1 eq_refl eq_refl ltac:(small_length)).
  cbn [combine]. apply Permutation_sym.
  exact (Permutation_cons_append [(1, 1); (0, 1); (1, 0)] (2, 2)).
Defined.

(** X11: the counters add up over batches: for the concatenation of two
    pairs of sequences, tp, fp, fn and the support are the sums of those of
    the two parts. *)
Theorem counters_add_over_batches (y_true1 y_pred1 y_true2 y_pred2 : list Z)
  (label : Z) :
  length y_true1 = length y_pred1 ->
  length y_true2 = length y_pred2 ->
  Z.of_nat (length (y_true1 ++ y_true2)) <= Int.INT_MAX ->
  exists c1 c2 c m1 m2 m,
    confusion_loop (Z.to_nat (Int.of_size (length y_true1))) y_true1 y_pred1
                   label 0 (mkConfusion 0 0 0) = Some c1 /\
    confusion_loop (Z.to_nat (Int.of_size (length y_true2))) y_true2 y_pred2
                   label 0 (mkConfusion 0 0 0) = Some c2 /\
    confusion_loop (Z.to_nat (Int.of_size (length (y_true1 ++ y_true2))))
                   (y_true1 ++ y_true2) (y_pred1 ++ y_pred2)
                   label 0 (mkConfusion 0 0 0) = Some c /\
    (tp c = tp c1 + tp c2 /\ fp c = fp c1 + fp c2 /\ fn c = fn c1 + fn c2) /\
    compute_metrics_for_label y_true1 y_pred1 label = Some m1 /\
    compute_metrics_for_label y_true2 y_pred2 label = Some m2 /\
    compute_metrics_for_label (y_true1 ++ y_true2) (y_pred1 ++ y_pred2) label
    = Some m /\
    support m = support m1 + support m2.
Proof.
  intros H1 H2 Hmax.
  assert (H12 : length (y_true1 ++ y_true2) = length (y_pred1 ++ y_pred2))
    by (rewrite !length_app; lia).
  rewrite length_app in Hmax.
  assert (Hm1 : Z.of_nat (length y_true1) <= Int.INT_MAX) by lia.
  assert (Hm2 : Z.of_nat (length y_true2) <= Int.INT_MAX) by lia.
  assert (Hm : Z.of_nat (length (y_true1 ++ y_true2)) <= Int.INT_MAX)
    by (rewrite length_app; lia).
  do 6 eexists.
  split; [apply confusion_loop_total; assumption|].
  split; [apply confusion_loop_total; assumption|].
  split; [apply confusion_loop_total; assumption|].
  cbn [tp fp fn]. rewrite (combine_app_same y_true1 y_pred1) by assumption.
  split; [rewrite !count_of_app; repeat split|].
  split; [apply compute_metrics_for_label_eq; assumption|].
  split; [apply compute_metrics_for_label_eq; assumption|].
  split; [apply compute_metrics_for_label_eq; assumption|].
  unfold metrics_of_counts. cbn [support]. apply count_of_app.
Qed.

Lemma counters_add_over_batches_witness :
  exists m1 m2 m,
    compute_metrics_for_label [1; 0] [1; 1] 1 = Some m1 /\
    compute_metrics_for_label [1; 2] [0; 2] 1 = Some m2 /\
    compute_metrics_for_label [1; 0; 1; 2] [1; 1; 0; 2] 1 = Some m /\
    support m = support m1 + support m2.
Proof.
  destruct (counters_add_over_batches [1; 0] [1; 1] [1; 2] [0; 2] 1
              eq_refl eq_refl ltac:(unfold Int.INT_MAX; cbn [app length]; lia))
    as (c1 & c2 & c & m1 & m2 & m & _ & _ & _ & _ & E1 & E2 & E & Hs).
  exists m1, m2, m. repeat split; assumption.
Defined.

(** ** Accuracy and the true positives of the labels *)

Lemma Forall_combine_fst (P : Z -> Prop) (l1 : list Z) :
  forall l2 : list Z,
    Forall P l1 -> Forall (fun ab => P (fst ab)) (combine l1 l2).
Proof.
  induction l1 as [|a l1 IH]; intros [|b l2] H; try constructor.
  - exact (Forall_inv H).
  - apply IH. exact (Forall_inv_tail H).
Qed.

Lemma Forall_combine_snd (P : Z -> Prop) (l1 : list Z) :
  forall l2 : list Z,
    Forall P l2 -> Forall (fun ab => P (snd ab)) (combine l1 l2).
Proof.
  induction l1 as [|a l1 IH]; intros [|b l2] H; try constructor.
  - exact (Forall_inv H).
  - apply IH. exact (Forall_inv_tail H).
Qed.

(** Over the four labels, the true positives are the positions that agree,
    and the false positives and the false negatives are both the positions
    that do not. *)
Lemma counts_over_labels (l : list (Z * Z)) :
  Forall (fun ab => 0 <= fst ab <= 3) l ->
  Forall (fun ab => 0 <= snd ab <= 3) l ->
  count_of (is_tp 0) l + count_of (is_tp 1) l + count_of (is_tp 2) l
  + count_of (is_tp 3) l = count_of agree l /\
  count_of (is_fp 0) l + count_of (is_fp 1) l + count_of (is_fp 2) l
  + count_of (is_fp 3) l = Z.of_nat (length l) - count_of agree l /\
  count_of (is_fn 0) l + count_of (is_fn 1) l + count_of (is_fn 2) l
  + count_of (is_fn 3) l = Z.of_nat (length l) - count_of agree l.
Proof.
  induction l as [|[a b] l IH]; intros Ha Hb; [repeat split|].
  destruct (IH (Forall_inv_tail Ha) (Forall_inv_tail Hb)) as (I1 & I2 & I3).
  apply Forall_inv in Ha. apply Forall_inv in Hb. cbn [fst snd] in Ha, Hb.
  rewrite !count_of_cons. unfold is_tp at 1 3 5 7, is_fp at 1 3 5 7,
    is_fn at 1 3 5 7, agree at 1 3 5. cbn [fst snd length].
  destruct (Z.eqb_spec a 0), (Z.eqb_spec a 1), (Z.eqb_spec a 2),
    (Z.eqb_spec a 3), (Z.eqb_spec b 0), (Z.eqb_spec b 1), (Z.eqb_spec b 2),
    (Z.eqb_spec b 3), (Z.eqb_spec a b); cbn [andb negb]; try lia.
Qed.

(** X19: for sequences of equal length over the labels 0..3, the overall
    accuracy is the sum of the true positives of the four labels divided by
    the length; the false positives and the false negatives of the four
    labels have the same total, the number of positions that disagree. *)
Theorem accuracy_is_sum_of_true_positives (y_true y_pred : list Z) :
  length y_true = length y_pred ->
  Z.of_nat (length y_true) <= Int.INT_MAX ->
  Forall (fun v => 0 <= v <= 3) y_true ->
  Forall (fun v => 0 <= v <= 3) y_pred ->
  exists c0 c1 c2 c3,
    (confusion_loop (Z.to_nat (Int.of_size (length y_true))) y_true y_pred
                    0 0 (mkConfusion 0 0 0) = Some c0 /\
     confusion_loop (Z.to_nat (Int.of_size (length y_true))) y_true y_pred
                    1 0 (mkConfusion 0 0 0) = Some c1 /\
     confusion_loop (Z.to_nat (Int.of_size (length y_true))) y_true y_pred
                    2 0 (mkConfusion 0 0 0) = Some c2 /\
     confusion_loop (Z.to_nat (Int.of_size (length y_true))) y_true y_pred
                    3 0 (mkConfusion 0 0 0) = Some c3) /\
    accuracy y_true y_pred
    = Some (double_of_int (tp c0 + tp c1 + tp c2 + tp c3)
            / double_of_size (length y_true))%float /\
    fp c0 + fp c1 + fp c2 + fp c3 = fn c0 + fn c1 + fn c2 + fn c3 /\
    tp c0 + tp c1 + tp c2 + tp c3 + (fp c0 + fp c1 + fp c2 + fp c3)
    = Z.of_nat (length y_true).
Proof.
  intros Hl Hmax Ht Hp.
  do 4 eexists.
  split; [repeat split; apply confusion_loop_total; assumption|].
  cbn [tp fp fn].
  destruct (counts_over_labels (combine y_true y_pred)
              (Forall_combine_fst _ y_true y_pred Ht)
              (Forall_combine_snd _ y_true y_pred Hp)) as (H1 & H2 & H3).
  rewrite length_combine, <- Hl, Nat.min_id in H2, H3.
  rewrite H1. split; [apply accuracy_eq; assumption|]. lia.
Qed.

Lemma accuracy_is_sum_of_true_positives_witness :
  exists c0 c1 c2 c3,
    (confusion_loop 4 [0; 1; 2; 3] [0; 1; 1; 1] 0 0 (mkConfusion 0 0 0)
     = Some c0 /\
     confusion_loop 4 [0; 1; 2; 3] [0; 1; 1; 1] 1 0 (mkConfusion 0 0 0)
     = Some c1 /\
     confusion_loop 4 [0; 1; 2; 3] [0; 1; 1; 1] 2 0 (mkConfusion 0 0 0)
     = Some c2 /\
     confusion_loop 4 [0; 1; 2; 3] [0; 1; 1; 1] 3 0 (mkConfusion 0 0 0)
     = Some c3) /\
    accuracy [0; 1; 2; 3] [0; 1; 1; 1]
    = Some (double_of_int (tp c0 + tp c1 + tp c2 + tp c3)
            / double_of_size 4)%float.
Proof.
  destruct (accuracy_is_sum_of_true_positives [0; 1; 2; 3] [0; 1; 1; 1]
              eq_refl ltac:(small_length)
              ltac:(repeat constructor; lia) ltac:(repeat constructor; lia))
    as (c0 & c1 & c2 & c3 & H & Ha & _).
  exists c0, c1, c2, c3. split; assumption.
Defined.

(** ** Sequences of different lengths *)

(** The first loop only reads the first [length y_true] predictions. *)
Lemma confusion_loop_prefix label l1 :
  forall l2 pre1 pre2 x2 c,
    length l1 = length l2 -> length pre1 = length pre2 ->
    Z.of_nat (length pre1 + length l1) <= Int.INT_MAX ->
    confusion_loop (length l1) (pre1 ++ l1) (pre2 ++ l2 ++ x2) label
                   (Z.of_nat (length pre1)) c
    = confusion_loop (length l1) (pre1 ++ l1) (pre2 ++ l2) label
                     (Z.of_nat (length pre1)) c.
Proof.
  induction l1 as [|a l1 IH]; intros l2 pre1 pre2 x2 c Hl Hp Hmax;
    [reflexivity|].
  destruct l2 as [|b l2]; [discriminate|].
  injection Hl as Hl. cbn [length] in Hmax.
  cbn [confusion_loop length]. unfold confusion_step.
  pose proof (nth_error_middle pre2 b l2) as Hb. rewrite <- Hp in Hb.
  pose proof (nth_error_middle pre2 b (l2 ++ x2)) as Hb'. rewrite <- Hp in Hb'.
  cbn [app]. rewrite Nat2Z.id, nth_error_middle, Hb, Hb'.
  rewrite (incr_small (Z.of_nat (length pre1))) by lia.
  replace (Z.of_nat (length pre1) + 1)
    with (Z.of_nat (length (pre1 ++ [a])))
    by (rewrite length_app; simpl; lia).
  replace (pre1 ++ a :: l1) with ((pre1 ++ [a]) ++ l1)
    by (rewrite <- app_assoc; reflexivity).
  replace (pre2 ++ b :: l2 ++ x2) with ((pre2 ++ [b]) ++ l2 ++ x2)
    by (rewrite <- app_assoc; reflexivity).
  replace (pre2 ++ b :: l2) with ((pre2 ++ [b]) ++ l2)
    by (rewrite <- app_assoc; reflexivity).
  apply IH; trivial.
  - rewrite !length_app. simpl. lia.
  - rewrite length_app. simpl. lia.
Qed.

(** With fewer predictions than true labels, the loop reaches an index
    that [y_pred] does not have. *)
Lemma confusion_loop_short label l1 :
  forall l2 pre1 pre2 a rest c j,
    length l1 = length l2 -> length pre1 = length pre2 ->
    Z.of_nat (length pre1 + length l1) < Int.INT_MAX ->
    confusion_loop (length l1 + S j) (pre1 ++ l1 ++ a :: rest) (pre2 ++ l2)
                   label (Z.of_nat (length pre1)) c
    = None.
Proof.
  induction l1 as [|a1 l1 IH]; intros l2 pre1 pre2 a rest c j Hl Hp Hmax.
  - destruct l2; [|discriminate]. cbn [length Nat.add confusion_loop app].
    unfold confusion_step. rewrite Nat2Z.id, nth_error_middle, app_nil_r.
    rewrite Hp. now rewrite (proj2 (nth_error_None pre2 (length pre2))) by lia.
  - destruct l2 as [|b l2]; [discriminate|].
    injection Hl as Hl. cbn [length] in Hmax.
    cbn [length Nat.add confusion_loop app]. unfold confusion_step.
    pose proof (nth_error_middle pre2 b l2) as Hb. rewrite <- Hp in Hb.
    rewrite Nat2Z.id, nth_error_middle, Hb.
    rewrite (incr_small (Z.of_nat (length pre1))) by lia.
    replace (Z.of_nat (length pre1) + 1)
      with (Z.of_nat (length (pre1 ++ [a1])))
      by (rewrite length_app; simpl; lia).
    replace (pre1 ++ a1 :: l1 ++ a :: rest)
      with ((pre1 ++ [a1]) ++ l1 ++ a :: rest)
      by (rewrite <- app_assoc; reflexivity).
    replace (pre2 ++ b :: l2) with ((pre2 ++ [b]) ++ l2)
      by (rewrite <- app_assoc; reflexivity).
    apply IH; trivial.
    + rewrite !length_app. simpl. lia.
    + rewrite length_app. simpl. lia.
Qed.

(** X12: the first loop runs over the indices of [y_true]: with fewer
    predictions than true labels it reads [y_pred] out of range (undefined
    behaviour, [None] here); with more, only the first [length y_true]
    predictions are read. *)
Theorem metrics_length_mismatch (y_true y_pred : list Z) (label : Z) :
  Z.of_nat (length y_true) <= Int.INT_MAX ->
  ((length y_pred < length y_true)%nat ->
   compute_metrics_for_label y_true y_pred label = None) /\
  ((length y_true <= length y_pred)%nat ->
   compute_metrics_for_label y_true y_pred label
   = compute_metrics_for_label y_true (firstn (length y_true) y_pred) label).
Proof.
  intros Hmax. unfold compute_metrics_for_label.
  rewrite of_size_small, Nat2Z.id by assumption. split; intros Hlen.
  - pose proof (firstn_skipn (length y_pred) y_true) as Ey.
    assert (Hf : length (firstn (length y_pred) y_true) = length y_pred)
      by (rewrite length_firstn; lia).
    pose proof (length_skipn (length y_pred) y_true) as Hs.
    destruct (skipn (length y_pred) y_true) as [|a rest];
      cbn [length] in Hs; [lia|].
    pose proof (confusion_loop_short label (firstn (length y_pred) y_true)
                  y_pred [] [] a rest (mkConfusion 0 0 0) (length rest)
                  Hf eq_refl) as H.
    cbn [app length Z.of_nat Nat.add] in H. rewrite Ey, Hf in H.
    replace (length y_pred + S (length rest))%nat with (length y_true) in H
      by lia.
    now rewrite H by lia.
  - pose proof (firstn_skipn (length y_true) y_pred) as Ey.
    assert (Hf : length y_true = length (firstn (length y_true) y_pred))
      by (rewrite length_firstn; lia).
    pose proof (confusion_loop_prefix label y_true
                  (firstn (length y_true) y_pred) [] []
                  (skipn (length y_true) y_pred) (mkConfusion 0 0 0)
                  Hf eq_refl) as H.
    cbn [app length Z.of_nat Nat.add] in H. rewrite Ey in H.
    now rewrite H by lia.
Qed.

Lemma metrics_length_mismatch_witness :
  compute_metrics_for_label [1; 0; 1] [1; 0] 1 = None /\
  compute_metrics_for_label [1; 0] [1; 1; 7; 7] 1
  = compute_metrics_for_label [1; 0] [1; 1] 1.
Proof.
  split.
  - apply (proj1 (metrics_length_mismatch [1; 0; 1] [1; 0] 1
                    ltac:(small_length))).
    cbn [length]. lia.
  - apply (proj2 (metrics_length_mismatch [1; 0] [1; 1; 7; 7] 1
                    ltac:(small_length))).
    cbn [length]. lia.
Defined.

(** ** Binary64 rounding: a quotient with its remainder *)

Lemma loc_code_range l : 0 <= loc_code l <= 3.
Proof. destruct l as [|[]]; simpl; lia. Qed.

Lemma shr_record_of_loc_code q l :
  0 <= q -> shr_record_of_loc q l = shr_rec (4 * q + loc_code l) 2.
Proof.
  intros Hq. unfold shr_rec, rbit, sbit.
  change (2 <=? 0) with false. change (2 - 1) with 1. cbv iota.
  change (2 ^ 2) with 4. change (2 ^ 1) with 2.
  pose proof (loc_code_range l) as Hc.
  assert (E1 : (4 * q + loc_code l) / 4 = q)
    by (symmetry; apply Z.div_unique with (r := loc_code l); lia).
  rewrite E1.
  assert (E2 : (4 * q + loc_code l) / 2 = 2 * q + loc_code l / 2).
  { replace (4 * q + loc_code l) with (loc_code l + (2 * q) * 2) by lia.
    rewrite Z.div_add by lia. lia. }
  assert (E3 : (4 * q + loc_code l) mod 2 = loc_code l mod 2).
  { replace (4 * q + loc_code l) with (loc_code l + (2 * q) * 2) by lia.
    now rewrite Z.mod_add by lia. }
  rewrite E2, E3.
  replace (2 * q + loc_code l / 2) with (loc_code l / 2 + 2 * q) by lia.
  rewrite Z.odd_add_mul_2.
  destruct l as [|[]]; reflexivity.
Qed.

Lemma iter_shr_1_from V k0 k :
  0 <= V -> 0 <= k0 ->
  Nat.iter k shr_1 (shr_rec V k0) = shr_rec V (k0 + Z.of_nat k).
Proof.
  intros HV Hk. induction k as [|k IH].
  - simpl. now rewrite Z.add_0_r.
  - rewrite Nat.iter_succ, IH, shr_rec_succ by lia. f_equal. lia.
Qed.

Lemma shr_from V e k0 n :
  0 <= V -> 0 <= k0 -> 0 <= n ->
  shr (shr_rec V k0) e n = (shr_rec V (k0 + n), e + n).
Proof.
  intros HV Hk Hn. destruct n as [|p|p]; try lia.
  - simpl. now rewrite !Z.add_0_r.
  - unfold shr. rewrite iter_pos_nat, iter_shr_1_from by trivial.
    now rewrite positive_nat_Z.
Qed.

Lemma Zdigits2_quad q c :
  0 < q -> 0 <= c <= 3 -> Zdigits2 (4 * q + c) = Zdigits2 q + 2.
Proof.
  intros Hq Hc. destruct (Zdigits2_bounds q Hq) as [Hd [Hlo Hhi]].
  apply Zdigits2_unique; [lia|].
  replace (Zdigits2 q + 2 - 1) with (Zdigits2 q - 1 + 2) by lia.
  rewrite !pow2_split by lia. change (2 ^ 2) with 4. lia.
Qed.

(** Rounding a quotient [q] whose remainder sits at [l] is rounding the
    exact mantissa [4 * q + loc_code l], two binary places lower. *)
Lemma binary_round_aux_loc s q e l :
  0 < q -> e <= fexp prec emax (Zdigits2 q + e) ->
  binary_round_aux prec emax s q e l
  = round_model s (4 * q + loc_code l) (e - 2).
Proof.
  intros Hq He. pose proof (loc_code_range l) as Hc.
  unfold binary_round_aux, round_model, shr_fexp.
  rewrite (Zdigits2_quad q (loc_code l)) by lia.
  replace (Zdigits2 q + 2 + (e - 2)) with (Zdigits2 q + e) by lia.
  set (e1 := fexp prec emax (Zdigits2 q + e)) in *. clearbody e1.
  rewrite shr_record_of_loc_code by lia.
  set (V := 4 * q + loc_code l).
  rewrite (shr_from V e 2 (e1 - e)) by lia. cbv beta iota. cbn [shr_m shr_rec].
  replace (e1 - (e - 2)) with (2 + (e1 - e)) by lia.
  change (round_nearest_even (V / 2 ^ (2 + (e1 - e)))
            (loc_of_shr_record (shr_rec V (2 + (e1 - e)))))
    with (rnd V (2 + (e1 - e))).
  replace (e + (e1 - e)) with e1 by lia.
  pose proof (rnd_nonneg V (2 + (e1 - e)) ltac:(lia) ltac:(lia)) as Hm.
  set (m2 := rnd V (2 + (e1 - e))) in *.
  unfold renorm, pack. cbn [shr_record_of_loc].
  destruct (Z.ltb_spec 0 (fexp prec emax (Zdigits2 m2 + e1) - e1)).
  - rewrite shr_closed by lia. reflexivity.
  - rewrite shr_nonpos by lia. reflexivity.
Qed.

(** The remainder's position, against twice the remainder. *)
Lemma new_location_code m r :
  0 < m -> 0 <= r < m ->
  (r = 0 /\ loc_code (new_location m r) = 0) \/
  (0 < 2 * r < m /\ loc_code (new_location m r) = 1) \/
  (0 < r /\ 2 * r = m /\ loc_code (new_location m r) = 2) \/
  (2 * r > m /\ loc_code (new_location m r) = 3).
Proof.
  intros Hm Hr. unfold new_location, new_location_even, new_location_odd.
  destruct (Z.even m) eqn:Ev; cbv beta;
    change (IntDef.Z.eqb r 0) with (Z.eqb r 0);
    (destruct (Z.eqb_spec r 0) as [->|Hz]; [left; auto | right]).
  - change (IntDef.Z.compare (IntDef.Z.mul 2 r) m) with (Z.compare (2 * r) m).
    destruct (Z.compare_spec (2 * r) m); cbn [loc_code];
      [right; left|left|right; right]; lia.
  - assert (Ho : Z.odd m = true) by (rewrite <- Z.negb_even, Ev; reflexivity).
    assert (2 * r <> m).
    { intros E. rewrite <- E, Z.odd_mul in Ho. discriminate. }
    change (IntDef.Z.compare (IntDef.Z.add (IntDef.Z.mul 2 r) 1) m)
      with (Z.compare (2 * r + 1) m).
    destruct (Z.compare_spec (2 * r + 1) m); cbn [loc_code];
      [left|left|right; right]; lia.
Qed.

(** The quotient of two normal values is the rounding of an exact mantissa
    [V] at exponent [e1 - e2 - 55], and [V] compares with every integer as
    the exact quotient [m1 * 2^55 / m2] does. *)
Lemma SFdiv_normal s1 m1 e1 s2 m2 e2 :
  Zdigits2 (Zpos m1) = 53 -> Zdigits2 (Zpos m2) = 53 ->
  -1021 <= e1 - e2 ->
  exists V,
    0 < V /\
    e1 - e2 - 55 <= rnd_exp V (e1 - e2 - 55) /\
    SFdiv prec emax (S754_finite s1 m1 e1) (S754_finite s2 m2 e2)
    = round_model (xorb s1 s2) V (e1 - e2 - 55) /\
    (forall Y, Y * Zpos m2 <= Zpos m1 * 2 ^ 55 -> Y <= V) /\
    (forall Y, Zpos m1 * 2 ^ 55 <= Y * Zpos m2 -> V <= Y).
Proof.
  intros H1 H2 HD.
  destruct (Zdigits2_bounds (Zpos m1) ltac:(lia)) as [_ B1].
  destruct (Zdigits2_bounds (Zpos m2) ltac:(lia)) as [_ B2].
  rewrite H1 in B1. rewrite H2 in B2.
  change (2 ^ (53 - 1)) with (2 ^ 52) in *.
  cbn [SFdiv]. unfold SFdiv_core_binary. rewrite H1, H2.
  replace (53 + e1 - (53 + e2)) with (e1 - e2) by lia.
  rewrite fexp_eq.
  set (D := e1 - e2) in *.
  replace (Z.min (Z.max (D - 53) (-1074)) D) with (D - 53) by lia.
  replace (D - (D - 53)) with 53 by lia. cbv zeta iota.
  rewrite Z.shiftl_mul_pow2 by lia.
  pose proof (Z_div_mod (Zpos m1 * 2 ^ 53) (Zpos m2) ltac:(lia)) as Hqr.
  destruct (Z.div_eucl (Zpos m1 * 2 ^ 53) (Zpos m2)) as [q r].
  destruct Hqr as [Hq Hr].
  assert (Hq52 : 2 ^ 52 <= q) by nia.
  assert (Hdq : 53 <= Zdigits2 q).
  { destruct (Zdigits2_bounds q ltac:(lia)) as [_ [_ Hhi]].
    destruct (Z_lt_le_dec (Zdigits2 q) 53) as [Hlt|]; [|assumption].
    exfalso. assert (2 ^ Zdigits2 q <= 2 ^ 52) by (apply pow2_le; 
      destruct (Zdigits2_bounds q ltac:(lia)); lia). lia. }
  rewrite binary_round_aux_loc by (rewrite ?fexp_eq; lia).
  replace (D - 53 - 2) with (D - 55) by lia.
  pose proof (loc_code_range (new_location (Zpos m2) r)) as Hc.
  exists (4 * q + loc_code (new_location (Zpos m2) r)).
  split; [lia|]. split.
  { unfold rnd_exp. rewrite fexp_eq, Zdigits2_quad by lia. lia. }
  split; [reflexivity|].
  assert (E55 : Zpos m1 * 2 ^ 55 = 4 * (Zpos m2 * q + r))
    by (rewrite <- Hq; change (2 ^ 55) with (2 ^ 53 * 4); lia).
  rewrite E55.
  destruct (new_location_code (Zpos m2) r ltac:(lia) Hr)
    as [[Hz Hl]|[[Hz Hl]|[(Hz & Hz' & Hl)|[Hz Hl]]]]; rewrite Hl;
    split; intros Y HY; nia.
Qed.

(** ** Binary64 rounding: comparison with representable values *)

Lemma rnd_exp_canonical m e :
  valid_binary (S754_finite false m e) = true -> rnd_exp (Zpos m) e = e.
Proof.
  intros Hv. destruct (valid_finite _ _ _ Hv) as (He & Hd & Hc).
  unfold rnd_exp. rewrite fexp_eq. lia.
Qed.

Lemma round_model_canonical m e :
  valid_binary (S754_finite false m e) = true ->
  round_model false (Zpos m) e = S754_finite false m e.
Proof.
  intros Hv. destruct (valid_finite _ _ _ Hv) as (He & Hd & Hc).
  pose proof (rnd_exp_canonical m e Hv) as Hr.
  rewrite <- (round_model_shift false (Zpos m) e (e + 1074)) by lia.
  replace (e - (e + 1074)) with (-1074) by lia.
  pose proof (sround_exact false m e Hv) as Hx. cbn [sval cond_Zopp] in Hx.
  pose proof (pow2_gt0 (e + 1074) ltac:(lia)) as Hp.
  destruct (Zpos m * 2 ^ (e + 1074)) as [|p|p] eqn:E; try lia.
  rewrite sround_pos, Z.mul_1_l in Hx. exact Hx.
Qed.

(** [m * 2^e] written at a lower exponent [b] rounds to itself. *)
Lemma round_model_exact m e b :
  valid_binary (S754_finite false m e) = true -> b <= e ->
  round_model false (Zpos m * 2 ^ (e - b)) b = S754_finite false m e.
Proof.
  intros Hv Hb.
  rewrite <- (round_model_canonical m e Hv).
  rewrite <- (round_model_shift false (Zpos m) e (e - b))
    by (rewrite ?rnd_exp_canonical by assumption; lia).
  f_equal. lia.
Qed.

Lemma rebase_le V b V' b' K c :
  0 <= b + K -> 0 <= b' + K -> c <= b -> c <= b' ->
  V * 2 ^ (b + K) <= V' * 2 ^ (b' + K) ->
  V * 2 ^ (b - c) <= V' * 2 ^ (b' - c).
Proof.
  intros H1 H2 H3 H4 H.
  replace (b + K) with ((b - c) + (c + K)) in H by lia.
  replace (b' + K) with ((b' - c) + (c + K)) in H by lia.
  destruct (Z_le_gt_dec 0 (c + K)) as [Hc|Hc].
  - rewrite (pow2_split (b - c) (c + K)), (pow2_split (b' - c) (c + K)),
      !Z.mul_assoc in H by lia.
    apply (Z.mul_le_mono_pos_r _ _ (2 ^ (c + K))); [now apply pow2_gt0 | exact H].
  - (* the common exponent lies below [-K]: scale up instead *)
    replace (b - c) with ((b - c + (c + K)) + - (c + K)) by lia.
    replace (b' - c) with ((b' - c + (c + K)) + - (c + K)) by lia.
    rewrite (pow2_split (b - c + (c + K))), (pow2_split (b' - c + (c + K))),
      !Z.mul_assoc by lia.
    apply Z.mul_le_mono_nonneg_r; [apply Z.pow_nonneg; lia | exact H].
Qed.

(** Two roundings compare as the numbers they round. *)
Lemma round_model_le V b V' b' K :
  0 < V -> 0 < V' -> b <= rnd_exp V b -> b' <= rnd_exp V' b' ->
  0 <= b + K -> 0 <= b' + K ->
  valid_binary (round_model false V b) = true ->
  valid_binary (round_model false V' b') = true ->
  V * 2 ^ (b + K) <= V' * 2 ^ (b' + K) ->
  SFleb (round_model false V b) (round_model false V' b') = true.
Proof.
  intros HV HV' Hb Hb' HK HK' Hv Hv' Hle.
  set (c := Z.min b b').
  pose proof (rebase_le V b V' b' K c HK HK' ltac:(lia) ltac:(lia) Hle) as H.
  rewrite <- (round_model_shift false V b (b - c)) in Hv |- * by lia.
  rewrite <- (round_model_shift false V' b' (b' - c)) in Hv' |- * by lia.
  replace (b - (b - c)) with c in * by lia.
  replace (b' - (b' - c)) with c in * by lia.
  pose proof (pow2_gt0 (b - c) ltac:(lia)).
  apply round_model_mono; trivial.
  - split; [nia | exact H].
  - rewrite <- (rnd_exp_shift V b (b - c)) in Hb by lia.
    replace (b - (b - c)) with c in Hb by lia. lia.
Qed.

Lemma round_model_le_const V b m e K :
  0 < V -> b <= rnd_exp V b -> 0 <= b + K -> 0 <= e + K ->
  valid_binary (S754_finite false m e) = true ->
  valid_binary (round_model false V b) = true ->
  V * 2 ^ (b + K) <= Zpos m * 2 ^ (e + K) ->
  SFleb (round_model false V b) (S754_finite false m e) = true.
Proof.
  intros HV Hb HK HK' Hm Hv Hle.
  pose proof (rnd_exp_canonical m e Hm) as Hc.
  rewrite <- (round_model_canonical m e Hm) in Hm |- *.
  apply (round_model_le V b (Zpos m) e K); trivial; lia.
Qed.

Lemma round_model_ge_const V b m e K :
  0 < V -> b <= rnd_exp V b -> 0 <= b + K -> 0 <= e + K ->
  valid_binary (S754_finite false m e) = true ->
  valid_binary (round_model false V b) = true ->
  Zpos m * 2 ^ (e + K) <= V * 2 ^ (b + K) ->
  SFleb (S754_finite false m e) (round_model false V b) = true.
Proof.
  intros HV Hb HK HK' Hm Hv Hle.
  pose proof (rnd_exp_canonical m e Hm) as Hc.
  rewrite <- (round_model_canonical m e Hm) in Hm |- *.
  apply (round_model_le (Zpos m) e V b K); trivial; lia.
Qed.

(** ** Counts as doubles, and their quotients *)

Lemma valid_intro s m e :
  -1074 <= e <= 971 -> Zdigits2 (Zpos m) <= 53 ->
  (e = -1074 \/ Zdigits2 (Zpos m) = 53) ->
  valid_binary (S754_finite s m e) = true.
Proof.
  intros He Hd Hc.
  unfold SpecFloat.valid_binary, bounded, canonical_mantissa.
  apply andb_true_iff. split.
  - apply Z.eqb_eq. rewrite fexp_eq. cbn [Zdigits2] in *. lia.
  - apply Z.leb_le. change (emax - prec) with 971. lia.
Qed.

(** [(double)a] for a count [a]: the mantissa is [a] shifted to 53 digits. *)
Lemma double_of_int_repr a :
  0 < a < 2 ^ 53 ->
  exists m,
    Prim2SF (double_of_int a) = S754_finite false m (Zdigits2 a - 53) /\
    Zpos m = a * 2 ^ (53 - Zdigits2 a) /\ Zdigits2 (Zpos m) = 53.
Proof.
  intros Ha. unfold double_of_int.
  destruct (Z.ltb_spec a 0); [lia|].
  rewrite of_uint63_spec, Uint63.of_Z_spec.
  rewrite Z.mod_small by (change wB with (2 ^ 63); split; [lia|];
    apply Z.lt_trans with (2 ^ 53); [lia | reflexivity]).
  destruct a as [|p|p]; try lia.
  change (binary_normalize prec emax (Zpos p) 0 false)
    with (binary_round prec emax false p 0).
  destruct (Zdigits2_bounds (Zpos p) ltac:(lia)) as [Hd0 Hd].
  pose proof (Zdigits2_lt_pow2 (Zpos p) 53 ltac:(lia) ltac:(lia)) as Hd53.
  set (d := Zdigits2 (Zpos p)) in *.
  rewrite (binary_round_base false p 0 (d - 53))
    by (rewrite ?fexp_eq; fold d; lia).
  replace (0 - (d - 53)) with (53 - d) by lia.
  pose proof (pow2_gt0 (53 - d) ltac:(lia)) as Hp.
  assert (HM : 0 < Zpos p * 2 ^ (53 - d)) by lia.
  assert (Hdm : Zdigits2 (Zpos p * 2 ^ (53 - d)) = 53)
    by (rewrite Zdigits2_mul_pow2 by lia; fold d; lia).
  destruct (Zpos p * 2 ^ (53 - d)) as [|m|m] eqn:EM; try lia.
  exists m. split; [|split; [reflexivity | exact Hdm]].
  apply round_model_canonical. apply valid_intro; lia.
Qed.

Lemma scale_counts_le (x y A A' B B' T : Z) :
  0 < A' -> 0 < B' -> 0 < T -> A * A' = T -> B * B' = T ->
  x * A <= y * B -> x * B' <= y * A'.
Proof.
  intros HA HB HT EA EB H.
  apply (Z.mul_le_mono_pos_r _ _ T HT).
  replace (x * B' * T) with (x * A * (A' * B')) by (rewrite <- EA; ring).
  replace (y * A' * T) with (y * B * (A' * B')) by (rewrite <- EB; ring).
  apply Z.mul_le_mono_nonneg_r; [nia | exact H].
Qed.

(** The quotient of two counts is the rounding of an exact mantissa [V]
    that compares with every integer as [a * 2^(55 + db) / (b * 2^da)]
    does, [da] and [db] being the digit counts of [a] and [b]. *)
Lemma div_counts_model a b :
  0 < a < 2 ^ 53 -> 0 < b < 2 ^ 53 ->
  exists V,
    0 < V /\
    Zdigits2 a - Zdigits2 b - 55 <= rnd_exp V (Zdigits2 a - Zdigits2 b - 55) /\
    Prim2SF (double_of_int a / double_of_int b)
    = round_model false V (Zdigits2 a - Zdigits2 b - 55) /\
    (forall Y, Y * b * 2 ^ Zdigits2 a <= a * 2 ^ 55 * 2 ^ Zdigits2 b -> Y <= V) /\
    (forall Y, a * 2 ^ 55 * 2 ^ Zdigits2 b <= Y * b * 2 ^ Zdigits2 a -> V <= Y).
Proof.
  intros Ha Hb.
  destruct (double_of_int_repr a Ha) as (m1 & E1 & V1 & D1).
  destruct (double_of_int_repr b Hb) as (m2 & E2 & V2 & D2).
  destruct (Zdigits2_bounds a ltac:(lia)) as [Hda _].
  destruct (Zdigits2_bounds b ltac:(lia)) as [Hdb _].
  pose proof (Zdigits2_lt_pow2 a 53 ltac:(lia) ltac:(lia)) as Hda'.
  pose proof (Zdigits2_lt_pow2 b 53 ltac:(lia) ltac:(lia)) as Hdb'.
  rewrite FloatAxioms.div_spec, E1, E2. unfold SF64div.
  destruct (SFdiv_normal false m1 (Zdigits2 a - 53) false m2 (Zdigits2 b - 53)
              D1 D2 ltac:(lia)) as (V & HV & Hb0 & HE & Hlo & Hhi).
  replace (Zdigits2 a - 53 - (Zdigits2 b - 53) - 55)
    with (Zdigits2 a - Zdigits2 b - 55) in * by lia.
  exists V. split; [exact HV|]. split; [exact Hb0|]. split; [exact HE|].
  set (da := Zdigits2 a) in *. set (db := Zdigits2 b) in *.
  pose proof (pow2_gt0 (53 - da) ltac:(lia)) as PA.
  pose proof (pow2_gt0 (53 - db) ltac:(lia)) as PB.
  assert (EA : 2 ^ da * 2 ^ (53 - da) = 2 ^ 53)
    by (rewrite <- pow2_split by lia; f_equal; lia).
  assert (EB : 2 ^ db * 2 ^ (53 - db) = 2 ^ 53)
    by (rewrite <- pow2_split by lia; f_equal; lia).
  rewrite V1, V2 in *.
  split; intros Y HY.
  - apply Hlo.
    replace (Y * (b * 2 ^ (53 - db))) with (Y * b * 2 ^ (53 - db)) by ring.
    replace (a * 2 ^ (53 - da) * 2 ^ 55) with (a * 2 ^ 55 * 2 ^ (53 - da)) by ring.
    apply (scale_counts_le (Y * b) (a * 2 ^ 55) (2 ^ da) (2 ^ (53 - da))
             (2 ^ db) (2 ^ (53 - db)) (2 ^ 53)); trivial; lia.
  - apply Hhi.
    replace (Y * (b * 2 ^ (53 - db))) with (Y * b * 2 ^ (53 - db)) by ring.
    replace (a * 2 ^ (53 - da) * 2 ^ 55) with (a * 2 ^ 55 * 2 ^ (53 - da)) by ring.
    apply (scale_counts_le (a * 2 ^ 55) (Y * b) (2 ^ db) (2 ^ (53 - db))
             (2 ^ da) (2 ^ (53 - da)) (2 ^ 53)); trivial; lia.
Qed.

#[local] Open Scope float_scope.

(** A count divided by a count that is at least as large lies between
    [2^-53] and 1, and strictly below 1 when the divisor is larger. *)
Lemma div_counts_unit a b :
  (0 < a <= b)%Z -> (b < 2 ^ 53)%Z ->
  (0x1p-53 <=? double_of_int a / double_of_int b) = true /\
  (double_of_int a / double_of_int b <=? 1) = true /\
  ((a < b)%Z ->
   (double_of_int a / double_of_int b <=? 0x1.fffffffffffffp-1) = true).
Proof.
  intros Ha Hb.
  destruct (div_counts_model a b ltac:(lia) ltac:(lia))
    as (V & HV & Hb0 & HE & Hlo & Hhi).
  pose proof (Prim2SF_valid (double_of_int a / double_of_int b)) as Hval.
  rewrite !FloatAxioms.leb_spec, HE in *.
  destruct (Zdigits2_bounds a ltac:(lia)) as [Hda _].
  destruct (Zdigits2_bounds b ltac:(lia)) as [Hdb _].
  pose proof (Zdigits2_lt_pow2 b 53 ltac:(lia) ltac:(lia)) as Hdb'.
  pose proof (Zdigits2_mono a b ltac:(lia)) as Hdab.
  set (da := Zdigits2 a) in *. set (db := Zdigits2 b) in *.
  pose proof (pow2_gt0 da ltac:(lia)) as Pa.
  pose proof (pow2_gt0 db ltac:(lia)) as Pb.
  assert (Esplit : forall j, (0 <= j)%Z ->
            (2 ^ (j - da + db) * 2 ^ da = 2 ^ j * 2 ^ db)%Z).
  { intros j Hj. rewrite <- !pow2_split by lia. f_equal. lia. }
  assert (Escale : forall j, (0 <= j)%Z ->
            (2 ^ (j - da + db) * 2 ^ (da - db - 55 + 200) = 2 ^ (j + 145))%Z).
  { intros j Hj. rewrite <- !pow2_split by lia. f_equal. lia. }
  repeat split.
  - (* 2^-53 <= a / b *)
    change (Prim2SF 0x1p-53) with (S754_finite false 4503599627370496 (-105)).
    apply (round_model_ge_const V _ _ _ 200); trivial; try lia.
    assert (HY : (2 ^ (2 - da + db) <= V)%Z).
    { apply Hlo. pose proof (Esplit 2%Z ltac:(lia)) as E.
      replace (2 ^ (2 - da + db) * b * 2 ^ da)%Z
        with (2 ^ (2 - da + db) * 2 ^ da * b)%Z by ring.
      rewrite E. change (2 ^ 2)%Z with 4%Z.
      assert (4 * b <= a * 2 ^ 55)%Z by lia. nia. }
    pose proof (Escale 2%Z ltac:(lia)) as E.
    pose proof (pow2_gt0 (da - db - 55 + 200) ltac:(lia)).
    change (4503599627370496 * 2 ^ (-105 + 200))%Z with (2 ^ (2 + 145))%Z.
    rewrite <- E. nia.
  - (* a / b <= 1 *)
    change (Prim2SF 1) with (S754_finite false 4503599627370496 (-52)).
    apply (round_model_le_const V _ _ _ 200); trivial; try lia.
    assert (HY : (V <= 2 ^ (55 - da + db))%Z).
    { apply Hhi. pose proof (Esplit 55%Z ltac:(lia)) as E.
      replace (2 ^ (55 - da + db) * b * 2 ^ da)%Z
        with (2 ^ (55 - da + db) * 2 ^ da * b)%Z by ring.
      rewrite E. pose proof (pow2_gt0 55 ltac:(lia)). nia. }
    pose proof (Escale 55%Z ltac:(lia)) as E.
    pose proof (pow2_gt0 (da - db - 55 + 200) ltac:(lia)).
    change (4503599627370496 * 2 ^ (-52 + 200))%Z with (2 ^ (55 + 145))%Z.
    rewrite <- E. nia.
  - (* a / b <= 1 - 2^-53 when a < b *)
    intros Hlt.
    change (Prim2SF 0x1.fffffffffffffp-1)
      with (S754_finite false 9007199254740991 (-53)).
    apply (round_model_le_const V _ _ _ 200); trivial; try lia.
    assert (HY : (V <= 9007199254740991 * 2 ^ (2 - da + db))%Z).
    { apply Hhi. pose proof (Esplit 2%Z ltac:(lia)) as E.
      replace (9007199254740991 * 2 ^ (2 - da + db) * b * 2 ^ da)%Z
        with (9007199254740991 * b * (2 ^ (2 - da + db) * 2 ^ da))%Z by ring.
      rewrite E. change (2 ^ 2)%Z with 4%Z. change (2 ^ 55)%Z with (2 ^ 53 * 4)%Z.
      assert (a * 2 ^ 53 <= 9007199254740991 * b)%Z by lia. nia. }
    pose proof (Escale 2%Z ltac:(lia)) as E.
    pose proof (pow2_gt0 (da - db - 55 + 200) ltac:(lia)).
    change (9007199254740991 * 2 ^ (-53 + 200))%Z
      with (9007199254740991 * 2 ^ (2 + 145))%Z.
    rewrite <- E. nia.
Qed.

#[local] Close Scope float_scope.

(** ** Values between two powers of two *)

Lemma normal_exp_bounds m e lo hi :
  Zdigits2 (Zpos m) = 53 -> 0 <= e + 1074 -> 0 <= lo -> 0 <= hi ->
  2 ^ lo <= Zpos m * 2 ^ (e + 1074) <= 2 ^ hi ->
  lo - 1127 < e <= hi - 1126.
Proof.
  intros Hd He Hlo Hhi [H1 H2].
  destruct (Zdigits2_bounds (Zpos m) ltac:(lia)) as [_ B]. rewrite Hd in B.
  change (2 ^ (53 - 1)) with (2 ^ 52) in B.
  pose proof (pow2_gt0 (e + 1074) He) as Hp.
  split.
  - destruct (Z_lt_le_dec (lo - 1127) e) as [|Hc]; [assumption|exfalso].
    assert (2 ^ (53 + (e + 1074)) <= 2 ^ lo) by (apply pow2_le; lia).
    rewrite pow2_split in H by lia. nia.
  - destruct (Z_le_gt_dec e (hi - 1126)) as [|Hc]; [assumption|exfalso].
    assert (2 ^ (hi + 1) <= 2 ^ (52 + (e + 1074))) by (apply pow2_le; lia).
    rewrite pow2_succ, (pow2_split 52) in H by lia. nia.
Qed.

(** A valid value between two positive normal bounds is a positive normal
    number. *)
Lemma between_normal x lo hi :
  valid_binary x = true -> 52 <= lo -> 0 <= hi ->
  SFleb (S754_finite false 4503599627370496 (lo - 1126)) x = true ->
  SFleb x (S754_finite false 4503599627370496 (hi - 1126)) = true ->
  valid_binary (S754_finite false 4503599627370496 (lo - 1126)) = true ->
  valid_binary (S754_finite false 4503599627370496 (hi - 1126)) = true ->
  exists m e,
    x = S754_finite false m e /\ Zdigits2 (Zpos m) = 53 /\
    2 ^ lo <= Zpos m * 2 ^ (e + 1074) <= 2 ^ hi /\
    lo - 1127 < e <= hi - 1126.
Proof.
  intros Hv Hlo0 Hhi0 Hlo Hhi Vlo Vhi.
  assert (Hf : finite_or_zero x = true).
  { destruct x as [[]|[]| |[] m e]; try reflexivity; discriminate. }
  pose proof (sval_of_SFleb _ _ Vlo Hv eq_refl Hf Hlo) as S1.
  pose proof (sval_of_SFleb _ _ Hv Vhi Hf eq_refl Hhi) as S2.
  cbn [sval cond_Zopp] in S1, S2.
  replace (lo - 1126 + 1074) with (lo - 52) in S1 by lia.
  replace (hi - 1126 + 1074) with (hi - 52) in S2 by lia.
  assert (E52 : forall k, 52 <= k -> 4503599627370496 * 2 ^ (k - 52) = 2 ^ k).
  { intros k Hk. change 4503599627370496 with (2 ^ 52).
    rewrite <- pow2_split by lia. f_equal. lia. }
  rewrite E52 in S1 by lia.
  pose proof (pow2_gt0 lo ltac:(lia)) as Plo.
  destruct x as [[]|[]| |[] m e]; cbn [sval cond_Zopp] in S1, S2;
    try discriminate; try lia.
  destruct (valid_finite _ _ _ Vhi) as (Ehi & _).
  rewrite E52 in S2 by lia.
  destruct (valid_finite _ _ _ Hv) as (He & Hd & Hc).
  assert (Hd53 : Zdigits2 (Zpos m) = 53).
  { destruct Hc as [->|]; [|assumption].
    change (-1074 + 1074) with 0 in S1. rewrite Z.mul_1_r in S1.
    destruct (Zdigits2_bounds (Zpos m) ltac:(lia)) as [_ [_ B]].
    destruct (Z.eq_dec (Zdigits2 (Zpos m)) 53); [assumption|exfalso].
    assert (2 ^ Zdigits2 (Zpos m) <= 2 ^ 52)
      by (apply pow2_le; pose proof (Zdigits2_bounds (Zpos m)); lia).
    assert (2 ^ 52 <= 2 ^ lo) by (apply pow2_le; lia). lia. }
  exists m, e. split; [reflexivity|]. split; [exact Hd53|]. split; [lia|].
  apply (normal_exp_bounds m e lo hi); trivial; lia.
Qed.

(** ** Quotients of ordered normal values *)

Lemma sround_positive k b W : 0 < W -> sround k b W = round_model false (k * W) b.
Proof. destruct W; try lia. reflexivity. Qed.

Lemma normal_order_exp m1 e1 m2 e2 :
  Zdigits2 (Zpos m1) = 53 -> Zdigits2 (Zpos m2) = 53 ->
  -1074 <= e1 -> -1074 <= e2 ->
  Zpos m1 * 2 ^ (e1 + 1074) <= Zpos m2 * 2 ^ (e2 + 1074) -> e1 <= e2.
Proof.
  intros H1 H2 He1 He2 H.
  destruct (Zdigits2_bounds (Zpos m1) ltac:(lia)) as [_ B1].
  destruct (Zdigits2_bounds (Zpos m2) ltac:(lia)) as [_ B2].
  rewrite H1 in B1. rewrite H2 in B2. change (2 ^ (53 - 1)) with (2 ^ 52) in *.
  destruct (Z_le_gt_dec e1 e2) as [|Hc]; [assumption|exfalso].
  assert (Hp : 2 ^ (e2 + 1074 + 1) <= 2 ^ (e1 + 1074)) by (apply pow2_le; lia).
  rewrite pow2_succ in Hp by lia.
  pose proof (pow2_gt0 (e2 + 1074) ltac:(lia)). nia.
Qed.

Lemma SFdiv_le_one m1 e1 m2 e2 :
  Zdigits2 (Zpos m1) = 53 -> Zdigits2 (Zpos m2) = 53 ->
  -1074 <= e1 -> -1074 <= e2 -> -1021 <= e1 - e2 ->
  Zpos m1 * 2 ^ (e1 + 1074) <= Zpos m2 * 2 ^ (e2 + 1074) ->
  valid_binary (SFdiv prec emax (S754_finite false m1 e1)
                                (S754_finite false m2 e2)) = true ->
  SFleb (SFdiv prec emax (S754_finite false m1 e1) (S754_finite false m2 e2))
        (S754_finite false 4503599627370496 (-52)) = true.
Proof.
  intros H1 H2 He1 He2 HD Hle Hv.
  pose proof (normal_order_exp m1 e1 m2 e2 H1 H2 He1 He2 Hle) as He.
  destruct (SFdiv_normal false m1 e1 false m2 e2 H1 H2 HD)
    as (V & HV & Hb0 & HE & Hlo & Hhi).
  cbn [xorb] in HE. rewrite HE in *.
  assert (HY : V <= 2 ^ (55 - (e1 - e2))).
  { apply Hhi.
    pose proof (rebase_le (Zpos m1) e1 (Zpos m2) e2 1074 (e1 - 55)
                  ltac:(lia) ltac:(lia) ltac:(lia) ltac:(lia) Hle) as H.
    replace (e1 - (e1 - 55)) with 55 in H by lia.
    replace (e2 - (e1 - 55)) with (55 - (e1 - e2)) in H by lia. lia. }
  apply (round_model_le_const V _ _ _ 1200); trivial; try lia.
  pose proof (pow2_gt0 (e1 - e2 - 55 + 1200) ltac:(lia)) as Hp.
  assert (E : 2 ^ (55 - (e1 - e2)) * 2 ^ (e1 - e2 - 55 + 1200)
              = 4503599627370496 * 2 ^ (-52 + 1200)).
  { change 4503599627370496 with (2 ^ 52).
    rewrite <- !pow2_split by lia. f_equal. lia. }
  rewrite <- E. nia.
Qed.

(** ** The harmonic mean of two ratios *)

Lemma unit_ratio_repr x :
  unit_ratio x ->
  exists m e,
    x = S754_finite false m e /\ Zdigits2 (Zpos m) = 53 /\
    2 ^ 1021 <= Zpos m * 2 ^ (e + 1074) <= 2 ^ 1074 /\ -106 < e <= -52.
Proof.
  intros (Hv & Hlo & Hhi).
  exact (between_normal x 1021 1074 Hv ltac:(lia) ltac:(lia) Hlo Hhi
           eq_refl eq_refl).
Qed.

(** Doubling a normal value only raises its exponent. *)
Lemma SFmul_two m e :
  Zdigits2 (Zpos m) = 53 -> -1074 <= e <= 970 ->
  SFmul prec emax (S754_finite false 4503599627370496 (-51))
                  (S754_finite false m e)
  = S754_finite false m (e + 1).
Proof.
  intros Hd He.
  assert (Hv : valid_binary (S754_finite false m e) = true)
    by (apply valid_intro; lia).
  assert (Hv' : valid_binary (S754_finite false m (e + 1)) = true)
    by (apply valid_intro; lia).
  rewrite (SFmul_finite 4503599627370496 (-51) eq_refl false m e Hv).
  cbn [sval cond_Zopp].
  pose proof (pow2_gt0 (e + 1074) ltac:(lia)) as Hp.
  rewrite sround_positive by lia.
  rewrite <- (round_model_exact m (e + 1) (-51 - 1074) Hv' ltac:(lia)).
  f_equal. change 4503599627370496 with (2 ^ 52).
  replace (e + 1 - (-51 - 1074)) with (52 + (e + 1074)) by lia.
  rewrite (pow2_split 52) by lia. ring.
Qed.

Lemma unit_products (SP SR : Z) :
  2 ^ 1021 <= SP <= 2 ^ 1074 -> 2 ^ 1021 <= SR <= 2 ^ 1074 ->
  SP * SR <= (SP + SR) * 2 ^ 1073 /\ 2 ^ 2042 <= SP * SR /\
  SP + SR <= 2 ^ 1075.
Proof.
  change (2 ^ 1074) with (2 * 2 ^ 1073). change (2 ^ 1075) with (4 * 2 ^ 1073).
  change (2 ^ 2042) with (2 ^ 1021 * 2 ^ 1021).
  assert (HL : 0 < 2 ^ 1021) by (apply pow2_gt0; lia).
  assert (HH : 0 < 2 ^ 1073) by (apply pow2_gt0; lia).
  set (L := 2 ^ 1021) in *. set (H := 2 ^ 1073) in *. clearbody L H.
  intros [H1 H2] [H3 H4]. repeat split; nia.
Qed.

(** The numerator [2 * p * r] and the denominator [p + r] of the F1 score
    of two ratios in [[2^-53, 1]]: two normal values, the first at most
    the second. *)
Lemma harmonic_parts P R :
  unit_ratio P -> unit_ratio R ->
  valid_binary
    (SFmul prec emax
       (SFmul prec emax (S754_finite false 4503599627370496 (-51)) P) R)
  = true ->
  valid_binary (SFadd prec emax P R) = true ->
  exists mN eN mD eD,
    SFmul prec emax
      (SFmul prec emax (S754_finite false 4503599627370496 (-51)) P) R
    = S754_finite false mN eN /\
    SFadd prec emax P R = S754_finite false mD eD /\
    Zdigits2 (Zpos mN) = 53 /\ Zdigits2 (Zpos mD) = 53 /\
    -1074 <= eN /\ -1074 <= eD /\ -200 <= eN - eD /\
    Zpos mN * 2 ^ (eN + 1074) <= Zpos mD * 2 ^ (eD + 1074).
Proof.
  intros HP HR.
  destruct (unit_ratio_repr P HP) as (mp & ep & -> & Hdp & Bp & Ep).
  destruct (unit_ratio_repr R HR) as (mr & er & -> & Hdr & Br & Er).
  destruct HP as (VP & _). destruct HR as (VR & _).
  rewrite SFmul_two by lia.
  rewrite (SFmul_finite mp (ep + 1) Hdp false mr er VR).
  rewrite (SFadd_finite false mp ep false mr er VP VR).
  cbn [sval cond_Zopp].
  set (SP := Zpos mp * 2 ^ (ep + 1074)) in *.
  set (SR := Zpos mr * 2 ^ (er + 1074)) in *.
  destruct (unit_products SP SR Bp Br) as (HA & HB & HC).
  assert (HSP : 0 < SP) by (pose proof (pow2_gt0 1021 ltac:(lia)); lia).
  assert (HSR : 0 < SR) by (pose proof (pow2_gt0 1021 ltac:(lia)); lia).
  rewrite !sround_positive, Z.mul_1_l by lia.
  set (bN := ep + 1 - 1074).
  pose proof (enough_digits_mul mp (ep + 1) Hdp SR HSR) as HbN. fold bN in HbN.
  pose proof (proj1 (rnd_exp_ge (SP + SR) (-1074))) as HbD.
  intros VN VD.
  assert (EN : Zpos mp * SR * 2 ^ (bN + 2200) = SP * SR * 2 ^ 53).
  { unfold SP, bN. replace (ep + 1 - 1074 + 2200) with (ep + 1074 + 53) by lia.
    rewrite pow2_split by lia. ring. }
  assert (HND : SFleb (round_model false (Zpos mp * SR) bN)
                      (round_model false (SP + SR) (-1074)) = true).
  { apply (round_model_le _ _ _ _ 2200); trivial; lia. }
  assert (HNlo : SFleb (S754_finite false 4503599627370496 (968 - 1126))
                       (round_model false (Zpos mp * SR) bN) = true).
  { apply (round_model_ge_const _ _ _ _ 2200); trivial; lia. }
  assert (HDhi : SFleb (round_model false (SP + SR) (-1074))
                       (S754_finite false 4503599627370496 (1075 - 1126)) = true).
  { apply (round_model_le_const _ _ _ _ 2200); trivial; lia. }
  pose proof (SFleb_trans _ _ _ HNlo HND) as HDlo.
  pose proof (SFleb_trans _ _ _ HND HDhi) as HNhi.
  destruct (between_normal _ 968 1075 VN ltac:(lia) ltac:(lia) HNlo HNhi
              eq_refl eq_refl) as (mN & eN & EqN & HdN & BN & EeN).
  destruct (between_normal _ 968 1075 VD ltac:(lia) ltac:(lia) HDlo HDhi
              eq_refl eq_refl) as (mD & eD & EqD & HdD & BD & EeD).
  exists mN, eN, mD, eD.
  rewrite EqN, EqD in *.
  pose proof (sval_of_SFleb _ _ VN VD eq_refl eq_refl HND) as Hs.
  cbn [sval cond_Zopp] in Hs.
  repeat split; trivial; lia.
Qed.

(** The quotient of two normal values that are not too far apart is
    positive. *)
Lemma SFdiv_pos m1 e1 m2 e2 :
  Zdigits2 (Zpos m1) = 53 -> Zdigits2 (Zpos m2) = 53 ->
  -1019 <= e1 - e2 <= 1019 ->
  valid_binary (SFdiv prec emax (S754_finite false m1 e1)
                                (S754_finite false m2 e2)) = true ->
  SFltb (S754_zero false)
        (SFdiv prec emax (S754_finite false m1 e1) (S754_finite false m2 e2))
  = true.
Proof.
  intros H1 H2 HD Hv.
  destruct (Zdigits2_bounds (Zpos m1) ltac:(lia)) as [_ B1].
  destruct (Zdigits2_bounds (Zpos m2) ltac:(lia)) as [_ B2].
  rewrite H1 in B1. rewrite H2 in B2. change (2 ^ (53 - 1)) with (2 ^ 52) in *.
  destruct (SFdiv_normal false m1 e1 false m2 e2 H1 H2 ltac:(lia))
    as (V & HV & Hb0 & HE & Hlo & Hhi).
  cbn [xorb] in HE. rewrite HE in *.
  assert (HY : 2 ^ 54 <= V) by (apply Hlo; lia).
  assert (Hc : SFleb (S754_finite false 4503599627370496 (-1074))
                     (round_model false V (e1 - e2 - 55)) = true).
  { apply (round_model_ge_const V _ _ _ 1200); trivial; try lia.
    assert (Hp : 2 ^ (-1074 + 1200 - 2) <= 2 ^ (e1 - e2 - 55 + 1200))
      by (apply pow2_le; lia).
    change (4503599627370496 * 2 ^ (-1074 + 1200))
      with (2 ^ 54 * 2 ^ (-1074 + 1200 - 2)).
    pose proof (pow2_gt0 (-1074 + 1200 - 2) ltac:(lia)).
    apply Z.mul_le_mono_nonneg; lia. }
  destruct (round_model false V (e1 - e2 - 55)) as [[]|[]| |[] m e];
    try discriminate; reflexivity.
Qed.

#[local] Open Scope float_scope.

Lemma unit_ratio_of_bounds (p : float) :
  (0x1p-53 <=? p) = true -> (p <=? 1) = true -> unit_ratio (Prim2SF p).
Proof.
  rewrite !FloatAxioms.leb_spec. intros H1 H2.
  split; [apply Prim2SF_valid|]. split; assumption.
Qed.

(** The F1 score of two ratios in [[2^-53, 1]] is the quotient (the sum is
    not zero), and it lies in [(0, 1]]. *)
Lemma f1_unit (p r : float) :
  (0x1p-53 <=? p) = true -> (p <=? 1) = true ->
  (0x1p-53 <=? r) = true -> (r <=? 1) = true ->
  (p + r =? 0) = false /\
  (0 <? 2 * p * r / (p + r)) = true /\ (2 * p * r / (p + r) <=? 1) = true.
Proof.
  intros Hp1 Hp2 Hr1 Hr2.
  pose proof (unit_ratio_of_bounds p Hp1 Hp2) as HP.
  pose proof (unit_ratio_of_bounds r Hr1 Hr2) as HR.
  pose proof (Prim2SF_valid (2 * p * r)) as VN.
  pose proof (Prim2SF_valid (p + r)) as VD.
  pose proof (Prim2SF_valid (2 * p * r / (p + r))) as VQ.
  rewrite FloatAxioms.eqb_spec, FloatAxioms.ltb_spec, FloatAxioms.leb_spec.
  rewrite FloatAxioms.div_spec in *.
  rewrite !FloatAxioms.mul_spec in *. rewrite FloatAxioms.add_spec in *.
  unfold SF64div, SF64mul, SF64add in *.
  change (Prim2SF 2) with (S754_finite false 4503599627370496 (-51)) in *.
  change (Prim2SF 0) with (S754_zero false).
  change (Prim2SF 1) with (S754_finite false 4503599627370496 (-52)).
  destruct (harmonic_parts _ _ HP HR VN VD)
    as (mN & eN & mD & eD & EN & ED & HdN & HdD & HeN & HeD & Hgap & Hle).
  rewrite EN, ED in *.
  pose proof (normal_order_exp mN eN mD eD HdN HdD HeN HeD Hle) as Hord.
  split; [reflexivity|]. split.
  - apply SFdiv_pos; trivial; lia.
  - apply SFdiv_le_one; trivial; lia.
Qed.

#[local] Close Scope float_scope.

(** ** The ratios of the metrics *)

#[local] Open Scope float_scope.

Lemma zero_div_count (n : Z) :
  (0 < n < 2 ^ 53)%Z -> double_of_int 0 / double_of_int n = 0.
Proof.
  intros Hn. destruct (double_of_int_repr n Hn) as (m & E & _).
  apply Prim2SF_inj. rewrite FloatAxioms.div_spec, E. reflexivity.
Qed.

(** The ratio [a / b] of two counts, [0 <= a <= b], [0 < b]: 0 when [a] is
    0, 1 when [a = b], and strictly between otherwise. *)
Lemma ratio_of_counts (a b : Z) :
  (0 <= a <= b)%Z -> (0 < b < 2 ^ 53)%Z ->
  let x := double_of_int a / double_of_int b in
  (0 <=? x) = true /\ (x <=? 1) = true /\
  (a = 0%Z -> x = 0) /\
  ((0 < a)%Z -> (0x1p-53 <=? x) = true) /\
  (a = b -> x = 1) /\
  ((a < b)%Z -> (x <=? 0x1.fffffffffffffp-1) = true).
Proof.
  intros Ha Hb. cbv zeta.
  destruct (Z.eq_dec a 0) as [->|Hz].
  - rewrite zero_div_count by lia.
    repeat split; try reflexivity; intros; try lia.
  - destruct (div_counts_unit a b ltac:(lia) ltac:(lia)) as (H1 & H2 & H3).
    repeat split; trivial.
    + exact (leb_trans 0 0x1p-53 _ eq_refl H1).
    + intros; lia.
    + intros <-. apply double_of_int_div_self. lia.
Qed.

Lemma ratio_zero_iff (a b : Z) :
  (0 <= a <= b)%Z -> (0 < b < 2 ^ 53)%Z ->
  double_of_int a / double_of_int b = 0 <-> a = 0%Z.
Proof.
  intros Ha Hb.
  destruct (ratio_of_counts a b Ha Hb) as (_ & _ & H0 & Hpos & _).
  split; [|exact H0].
  intros E. destruct (Z.eq_dec a 0) as [|Hz]; [assumption|exfalso].
  specialize (Hpos ltac:(lia)). rewrite E in Hpos. discriminate.
Qed.

Lemma ratio_one_iff (a b : Z) :
  (0 <= a <= b)%Z -> (0 < b < 2 ^ 53)%Z ->
  double_of_int a / double_of_int b = 1 <-> a = b.
Proof.
  intros Ha Hb.
  destruct (ratio_of_counts a b Ha Hb) as (_ & _ & _ & _ & H1 & Hlt).
  split; [|exact H1].
  intros E. destruct (Z.eq_dec a b) as [|Hne]; [assumption|exfalso].
  specialize (Hlt ltac:(lia)). rewrite E in Hlt. discriminate.
Qed.

#[local] Close Scope float_scope.

Lemma metrics_of_counts_ratios tp_ fp_ fn_ sup :
  metrics_of_counts tp_ fp_ fn_ sup
  = mkMetrics (ratio tp_ (tp_ + fp_)) (ratio tp_ (tp_ + fn_))
              (harmonic (ratio tp_ (tp_ + fp_)) (ratio tp_ (tp_ + fn_))) sup.
Proof. reflexivity. Qed.

#[local] Open Scope float_scope.

Lemma ratio_facts (a d : Z) :
  (0 <= a <= d)%Z -> (d < 2 ^ 53)%Z ->
  ((0 <=? ratio a d) = true /\ (ratio a d <=? 1) = true) /\
  (ratio a d = 0 <-> a = 0%Z) /\
  (ratio a d = 1 <-> (0 < a)%Z /\ a = d) /\
  ((0 < a)%Z -> (0x1p-53 <=? ratio a d) = true).
Proof.
  intros Ha Hd. unfold ratio.
  destruct (Z.eqb_spec d 0) as [->|Hz].
  - assert (a = 0%Z) by lia. subst a.
    repeat split; try reflexivity; try discriminate; intros; lia.
  - destruct (ratio_of_counts a d Ha ltac:(lia)) as (H0 & H1 & _ & Hpos & _).
    split; [split; assumption|].
    split; [exact (ratio_zero_iff a d Ha ltac:(lia))|].
    split; [|exact Hpos].
    rewrite (ratio_one_iff a d Ha ltac:(lia)).
    split; [intros ->; split; [lia | reflexivity] | intros [_ E]; exact E].
Qed.

Lemma SFltb_SFleb x y : SFltb x y = true -> SFleb x y = true.
Proof. unfold SFltb, SFleb. sf_cases x; sf_cases y; sf_order. Qed.

Lemma harmonic_facts (p r : float) :
  (p = 0 /\ r = 0) \/
  ((0x1p-53 <=? p) = true /\ (p <=? 1) = true /\
   (0x1p-53 <=? r) = true /\ (r <=? 1) = true) ->
  ((0 <=? harmonic p r) = true /\ (harmonic p r <=? 1) = true) /\
  (harmonic p r = 0 <-> p = 0).
Proof.
  unfold harmonic. intros [[-> ->]|(Hp1 & Hp2 & Hr1 & Hr2)].
  - repeat split; reflexivity.
  - destruct (f1_unit p r Hp1 Hp2 Hr1 Hr2) as (Hs & Hpos & Hle).
    rewrite Hs. repeat split; trivial.
    + rewrite FloatAxioms.leb_spec. rewrite FloatAxioms.ltb_spec in Hpos.
      now apply SFltb_SFleb.
    + intros E. rewrite E in Hpos. discriminate.
    + intros ->. discriminate.
Qed.

#[local] Close Scope float_scope.

#[local] Open Scope float_scope.

Lemma metrics_of_counts_facts (tp_ fp_ fn_ sup : Z) :
  (0 <= tp_)%Z -> (0 <= fp_)%Z -> (0 <= fn_)%Z ->
  (tp_ + fp_ < 2 ^ 53)%Z -> (tp_ + fn_ < 2 ^ 53)%Z ->
  let m := metrics_of_counts tp_ fp_ fn_ sup in
  (((0 <=? precision m) = true /\ (precision m <=? 1) = true) /\
   ((0 <=? recall m) = true /\ (recall m <=? 1) = true) /\
   ((0 <=? f1 m) = true /\ (f1 m <=? 1) = true)) /\
  ((precision m = 0 <-> tp_ = 0%Z) /\ (recall m = 0 <-> tp_ = 0%Z) /\
   (f1 m = 0 <-> tp_ = 0%Z)) /\
  ((precision m = 1 <-> (0 < tp_)%Z /\ fp_ = 0%Z) /\
   (recall m = 1 <-> (0 < tp_)%Z /\ fn_ = 0%Z)).
Proof.
  intros Ht Hp Hn Bp Bn. cbv zeta.
  rewrite metrics_of_counts_ratios. cbn [precision recall f1].
  destruct (ratio_facts tp_ (tp_ + fp_) ltac:(lia) Bp) as (Pb & P0 & P1 & Pu).
  destruct (ratio_facts tp_ (tp_ + fn_) ltac:(lia) Bn) as (Rb & R0 & R1 & Ru).
  assert (Hh : (ratio tp_ (tp_ + fp_) = 0 /\ ratio tp_ (tp_ + fn_) = 0) \/
               ((0x1p-53 <=? ratio tp_ (tp_ + fp_)) = true /\
                (ratio tp_ (tp_ + fp_) <=? 1) = true /\
                (0x1p-53 <=? ratio tp_ (tp_ + fn_)) = true /\
                (ratio tp_ (tp_ + fn_) <=? 1) = true)).
  { destruct (Z.eq_dec tp_ 0) as [E|E].
    - left. split; [apply P0 | apply R0]; exact E.
    - right. repeat split; try apply Pu; try apply Ru; try lia;
        [apply Pb | apply Rb]. }
  destruct (harmonic_facts _ _ Hh) as (Fb & F0).
  split; [repeat split; try apply Pb; try apply Rb; apply Fb|].
  split.
  - split; [exact P0|]. split; [exact R0|]. rewrite F0. exact P0.
  - split; [rewrite P1 | rewrite R1]; split; intros [? ?]; split; lia.
Qed.

#[local] Close Scope float_scope.

(** X13: for sequences of equal length, the precision, the recall and the
    F1 score of every label lie between 0 and 1 (none is a NaN or an
    infinity), and the support lies between 0 and the length. *)
Theorem metrics_in_unit_interval (y_true y_pred : list Z) (label : Z) :
  length y_true = length y_pred ->
  Z.of_nat (length y_true) <= Int.INT_MAX ->
  exists m,
    compute_metrics_for_label y_true y_pred label = Some m /\
    ((0 <=? precision m)%float = true /\ (precision m <=? 1)%float = true) /\
    ((0 <=? recall m)%float = true /\ (recall m <=? 1)%float = true) /\
    ((0 <=? f1 m)%float = true /\ (f1 m <=? 1)%float = true) /\
    0 <= support m <= Z.of_nat (length y_true).
Proof.
  intros Hl Hmax. eexists. split; [apply compute_metrics_for_label_eq; assumption|].
  pose proof (confusion_counts_bound label (combine y_true y_pred)) as Hsum.
  pose proof (count_of_bounds (is_tp label) (combine y_true y_pred)) as Ht.
  pose proof (count_of_bounds (is_fp label) (combine y_true y_pred)) as Hp.
  pose proof (count_of_bounds (is_fn label) (combine y_true y_pred)) as Hn.
  pose proof (count_of_bounds (fun v => v =? label) y_true) as Hs.
  rewrite length_combine, <- Hl, Nat.min_id in *.
  pose proof (length_small_int _ Hmax) as H53.
  destruct (metrics_of_counts_facts
              (count_of (is_tp label) (combine y_true y_pred))
              (count_of (is_fp label) (combine y_true y_pred))
              (count_of (is_fn label) (combine y_true y_pred))
              (count_of (fun v => v =? label) y_true)
              ltac:(lia) ltac:(lia) ltac:(lia) ltac:(lia) ltac:(lia))
    as ((Pb & Rb & Fb) & _).
  split; [exact Pb|]. split; [exact Rb|]. split; [exact Fb|].
  unfold metrics_of_counts. cbn [support]. exact Hs.
Qed.

Lemma metrics_in_unit_interval_witness :
  exists m,
    compute_metrics_for_label [1; 0; 1; 2; 1] [1; 1; 0; 2; 1] 1 = Some m /\
    (f1 m <=? 1)%float = true.
Proof.
  destruct (metrics_in_unit_interval [1; 0; 1; 2; 1] [1; 1; 0; 2; 1] 1 eq_refl
              ltac:(small_length)) as (m & H & _ & _ & [_ Hf] & _).
  exists m. split; assumption.
Defined.

(** X14: rounding never hides an error. Precision, recall and F1 are
    exactly 0 precisely when there is no true positive; the precision is
    exactly 1.0 precisely when there is a true positive and no false
    positive, the recall precisely when there is a true positive and no
    false negative. *)
Theorem metrics_zero_and_one (y_true y_pred : list Z) (label : Z) :
  length y_true = length y_pred ->
  Z.of_nat (length y_true) <= Int.INT_MAX ->
  let pairs := combine y_true y_pred in
  let tp_ := count_of (is_tp label) pairs in
  let fp_ := count_of (is_fp label) pairs in
  let fn_ := count_of (is_fn label) pairs in
  exists m,
    compute_metrics_for_label y_true y_pred label = Some m /\
    (precision m = 0%float <-> tp_ = 0) /\
    (recall m = 0%float <-> tp_ = 0) /\
    (f1 m = 0%float <-> tp_ = 0) /\
    (precision m = 1%float <-> 0 < tp_ /\ fp_ = 0) /\
    (recall m = 1%float <-> 0 < tp_ /\ fn_ = 0).
Proof.
  intros Hl Hmax. cbv zeta.
  eexists. split; [apply compute_metrics_for_label_eq; assumption|].
  pose proof (confusion_counts_bound label (combine y_true y_pred)) as Hsum.
  pose proof (count_of_bounds (is_tp label) (combine y_true y_pred)) as Ht.
  pose proof (count_of_bounds (is_fp label) (combine y_true y_pred)) as Hp.
  pose proof (count_of_bounds (is_fn label) (combine y_true y_pred)) as Hn.
  rewrite length_combine, <- Hl, Nat.min_id in *.
  pose proof (length_small_int _ Hmax) as H53.
  destruct (metrics_of_counts_facts
              (count_of (is_tp label) (combine y_true y_pred))
              (count_of (is_fp label) (combine y_true y_pred))
              (count_of (is_fn label) (combine y_true y_pred))
              (count_of (fun v => v =? label) y_true)
              ltac:(lia) ltac:(lia) ltac:(lia) ltac:(lia) ltac:(lia))
    as (_ & (P0 & R0 & F0) & (P1 & R1)).
  split; [exact P0|]. split; [exact R0|]. split; [exact F0|].
  split; [exact P1 | exact R1].
Qed.

Lemma metrics_zero_and_one_witness :
  exists m,
    compute_metrics_for_label [1; 0; 1; 2; 1] [1; 1; 0; 2; 1] 1 = Some m /\
    precision m <> 1%float /\ f1 m <> 0%float.
Proof.
  destruct (metrics_zero_and_one [1; 0; 1; 2; 1] [1; 1; 0; 2; 1] 1 eq_refl
              ltac:(small_length)) as (m & H & _ & _ & F0 & P1 & _).
  exists m. split; [exact H|]. split.
  - intros E. apply P1 in E. destruct E as [_ E]. discriminate E.
  - intros E. apply F0 in E. discriminate E.
Defined.

(** ** Overall accuracy *)

Lemma count_agree_all_iff (l1 : list Z) :
  forall l2, length l1 = length l2 ->
    count_of agree (combine l1 l2) = Z.of_nat (length l1) <-> l1 = l2.
Proof.
  induction l1 as [|a l1 IH]; intros [|b l2] Hl; try discriminate.
  - split; reflexivity.
  - injection Hl as Hl. cbn [combine]. rewrite count_of_cons.
    unfold agree at 1. cbn [fst snd length].
    pose proof (count_of_bounds agree (combine l1 l2)) as Hb.
    rewrite length_combine, <- Hl, Nat.min_id in Hb.
    destruct (Z.eqb_spec a b) as [->|Hne].
    + split.
      * intros H. f_equal. apply IH; [assumption | lia].
      * intros H. injection H as H. apply (IH l2 Hl) in H. lia.
    + split; [lia | congruence].
Qed.

(** X15: for non-empty sequences of equal length the accuracy lies between
    0 and 1; it is exactly 1.0 precisely when the two sequences are equal,
    and exactly 0 precisely when no position agrees. *)
Theorem accuracy_unit_interval (y_true y_pred : list Z) :
  y_true <> [] ->
  length y_true = length y_pred ->
  Z.of_nat (length y_true) <= Int.INT_MAX ->
  exists a,
    accuracy y_true y_pred = Some a /\
    (0 <=? a)%float = true /\ (a <=? 1)%float = true /\
    (a = 1%float <-> y_true = y_pred) /\
    (a = 0%float <-> count_of agree (combine y_true y_pred) = 0).
Proof.
  intros Hne Hl Hmax. eexists. split; [apply accuracy_eq; assumption|].
  rewrite double_of_size_int.
  pose proof (count_of_bounds agree (combine y_true y_pred)) as Hc.
  rewrite length_combine, <- Hl, Nat.min_id in Hc.
  pose proof (length_small_int _ Hmax) as H53.
  assert (Hn : 0 < Z.of_nat (length y_true))
    by (destruct y_true; [congruence | cbn [length]; lia]).
  destruct (ratio_of_counts _ _ Hc ltac:(lia)) as (H0 & H1 & _).
  split; [exact H0|]. split; [exact H1|]. split.
  - rewrite (ratio_one_iff _ _ Hc ltac:(lia)).
    now apply count_agree_all_iff.
  - exact (ratio_zero_iff _ _ Hc ltac:(lia)).
Qed.

Lemma accuracy_unit_interval_witness :
  exists a,
    accuracy [0; 1; 2; 3] [0; 1; 1; 1] = Some a /\
    (a <=? 1)%float = true /\ a <> 1%float.
Proof.
  destruct (accuracy_unit_interval [0; 1; 2; 3] [0; 1; 1; 1]
              ltac:(discriminate) eq_refl ltac:(small_length))
    as (a & H & _ & Hle & H1 & _).
  exists a. split; [exact H|]. split; [exact Hle|].
  intros E. apply H1 in E. discriminate E.
Defined.

(** ** Exchanging the two sequences *)

Lemma round_model_same_value V b V' b' K :
  0 < V -> 0 < V' -> b <= rnd_exp V b -> b' <= rnd_exp V' b' ->
  0 <= b + K -> 0 <= b' + K ->
  V * 2 ^ (b + K) = V' * 2 ^ (b' + K) ->
  round_model false V b = round_model false V' b'.
Proof.
  intros HV HV' Hb Hb' HK HK' E.
  set (c := Z.min b b').
  pose proof (rebase_le V b V' b' K c HK HK' ltac:(lia) ltac:(lia) ltac:(lia)) as H1.
  pose proof (rebase_le V' b' V b K c HK' HK ltac:(lia) ltac:(lia) ltac:(lia)) as H2.
  rewrite <- (round_model_shift false V b (b - c)) by lia.
  rewrite <- (round_model_shift false V' b' (b' - c)) by lia.
  f_equal; lia.
Qed.

Lemma SFmul_two_comm P R :
  unit_ratio P -> unit_ratio R ->
  SFmul prec emax (SFmul prec emax (S754_finite false 4503599627370496 (-51)) P) R
  = SFmul prec emax
      (SFmul prec emax (S754_finite false 4503599627370496 (-51)) R) P.
Proof.
  intros HP HR.
  destruct (unit_ratio_repr P HP) as (mp & ep & -> & Hdp & Bp & Ep).
  destruct (unit_ratio_repr R HR) as (mr & er & -> & Hdr & Br & Er).
  destruct HP as (VP & _). destruct HR as (VR & _).
  rewrite !SFmul_two by lia.
  rewrite (SFmul_finite mp (ep + 1) Hdp false mr er VR).
  rewrite (SFmul_finite mr (er + 1) Hdr false mp ep VP).
  cbn [sval cond_Zopp].
  pose proof (pow2_gt0 (ep + 1074) ltac:(lia)) as Pp.
  pose proof (pow2_gt0 (er + 1074) ltac:(lia)) as Pr.
  rewrite !sround_positive by lia.
  apply (round_model_same_value _ _ _ _ 2200); try lia.
  - apply (enough_digits_mul mp (ep + 1) Hdp); lia.
  - apply (enough_digits_mul mr (er + 1) Hdr); lia.
  - replace (ep + 1 - 1074 + 2200) with ((ep + 1074) + 53) by lia.
    replace (er + 1 - 1074 + 2200) with ((er + 1074) + 53) by lia.
    rewrite (pow2_split (ep + 1074) 53), (pow2_split (er + 1074) 53) by lia.
    ring.
Qed.

#[local] Open Scope float_scope.

Lemma float_add_comm (x y : float) : x + y = y + x.
Proof.
  apply Prim2SF_inj. rewrite !FloatAxioms.add_spec. apply SFadd_comm.
Qed.

Lemma harmonic_comm (p r : float) :
  (p = 0 /\ r = 0) \/
  ((0x1p-53 <=? p) = true /\ (p <=? 1) = true /\
   (0x1p-53 <=? r) = true /\ (r <=? 1) = true) ->
  harmonic p r = harmonic r p.
Proof.
  unfold harmonic. intros [[-> ->]|(Hp1 & Hp2 & Hr1 & Hr2)]; [reflexivity|].
  rewrite (float_add_comm r p).
  destruct (p + r =? 0); [reflexivity|]. f_equal.
  apply Prim2SF_inj. rewrite !FloatAxioms.mul_spec. unfold SF64mul.
  change (Prim2SF 2) with (S754_finite false 4503599627370496 (-51)).
  apply SFmul_two_comm; now apply unit_ratio_of_bounds.
Qed.

#[local] Close Scope float_scope.

(** X16: exchanging the true and the predicted sequence exchanges precision
    and recall and leaves the F1 score unchanged; the support becomes the
    number of predictions equal to the label. *)
Theorem swapped_sequences_swap_metrics (y_true y_pred : list Z) (label : Z) :
  length y_true = length y_pred ->
  Z.of_nat (length y_true) <= Int.INT_MAX ->
  exists m m',
    compute_metrics_for_label y_true y_pred label = Some m /\
    compute_metrics_for_label y_pred y_true label = Some m' /\
    precision m' = recall m /\ recall m' = precision m /\ f1 m' = f1 m /\
    support m' = count_of (fun v => v =? label) y_pred.
Proof.
  intros Hl Hmax. eexists; eexists.
  split; [apply compute_metrics_for_label_eq; assumption|].
  split; [apply compute_metrics_for_label_eq; [now symmetry | now rewrite <- Hl]|].
  rewrite (count_tp_swap label y_true y_pred), (count_fp_swap label y_true y_pred),
    (count_fn_swap label y_true y_pred).
  rewrite !metrics_of_counts_ratios. cbn [precision recall f1 support].
  do 2 (split; [reflexivity|]). split; [|reflexivity].
  pose proof (confusion_counts_bound label (combine y_true y_pred)) as Hsum.
  pose proof (count_of_bounds (is_tp label) (combine y_true y_pred)) as Ht.
  pose proof (count_of_bounds (is_fp label) (combine y_true y_pred)) as Hp.
  pose proof (count_of_bounds (is_fn label) (combine y_true y_pred)) as Hn.
  rewrite length_combine, <- Hl, Nat.min_id in *.
  pose proof (length_small_int _ Hmax) as H53.
  set (tp_ := count_of (is_tp label) (combine y_true y_pred)) in *.
  set (fp_ := count_of (is_fp label) (combine y_true y_pred)) in *.
  set (fn_ := count_of (is_fn label) (combine y_true y_pred)) in *.
  apply harmonic_comm.
  destruct (ratio_facts tp_ (tp_ + fp_) ltac:(lia) ltac:(lia)) as (Pb & P0 & _ & Pu).
  destruct (ratio_facts tp_ (tp_ + fn_) ltac:(lia) ltac:(lia)) as (Rb & R0 & _ & Ru).
  destruct (Z.eq_dec tp_ 0) as [E|E].
  - left. split; [apply R0 | apply P0]; exact E.
  - right. repeat split; try apply Pu; try apply Ru; try lia;
      [apply Rb | apply Pb].
Qed.

Lemma swapped_sequences_swap_metrics_witness :
  exists m m',
    compute_metrics_for_label [1; 0; 1; 2; 1] [1; 1; 0; 2; 1] 1 = Some m /\
    compute_metrics_for_label [1; 1; 0; 2; 1] [1; 0; 1; 2; 1] 1 = Some m' /\
    precision m' = recall m /\ recall m' = precision m /\ f1 m' = f1 m.
Proof.
  destruct (swapped_sequences_swap_metrics [1; 0; 1; 2; 1] [1; 1; 0; 2; 1] 1
              eq_refl ltac:(small_length))
    as (m & m' & H1 & H2 & H3 & H4 & H5 & _).
  exists m, m'. repeat split; assumption.
Defined.

(** ** The report of a run *)

Lemma metrics_of_counts_same (c : Z) :
  0 <= c < 2 ^ 53 -> perfect_or_empty (metrics_of_counts c 0 0 c).
Proof.
  intros Hc. destruct (Z.eq_dec c 0) as [->|Hz].
  - right. repeat split.
  - left. rewrite metrics_of_counts_ratios. cbn [support precision recall f1].
    destruct (ratio_facts c (c + 0) ltac:(lia) ltac:(lia)) as (_ & _ & H1 & _).
    rewrite (proj2 H1) by lia. repeat split. lia.
Qed.

Lemma report_rows_identical (labels ys : list Z) :
  Z.of_nat (length ys) <= Int.INT_MAX ->
  exists rows,
    report_rows labels ys ys = Some rows /\
    map fst rows = labels /\
    Forall (fun r => perfect_or_empty (snd r)) rows /\
    map (fun r => support (snd r)) rows
    = map (fun lbl => count_of (fun v => v =? lbl) ys) labels.
Proof.
  intros Hmax. pose proof (length_small_int _ Hmax) as H53.
  induction labels as [|lbl labels (rows & Hr & Hf & Hp & Hs)].
  - exists []. repeat split. constructor.
  - cbn [report_rows].
    rewrite compute_metrics_for_label_eq, Hr by trivial.
    rewrite count_tp_same, count_fp_same, count_fn_same.
    eexists. split; [reflexivity|]. cbn [map fst snd]. split; [|split].
    + now rewrite Hf.
    + constructor; [|exact Hp]. cbn [snd].
      apply metrics_of_counts_same.
      pose proof (count_of_bounds (fun v => v =? lbl) ys). lia.
    + now rewrite Hs.
Qed.

Section Report.

Variable rng : Type.
Variable uniform_real_distribution : float -> float -> rng -> float * rng.
Variable uniform_int_distribution : Z -> Z -> rng -> Z * rng.
Variable shuffle : list Sample -> rng -> list Sample * rng.
Variable uninit : nat -> Sample.

Hypothesis shuffle_permutes :
  forall l g, Permutation l (fst (shuffle l g)).

#[local] Abbreviation evaluate' :=
  (evaluate rng uniform_real_distribution uniform_int_distribution shuffle
            uninit).
#[local] Abbreviation main' :=
  (main rng uniform_real_distribution uniform_int_distribution shuffle uninit).

Lemma evaluate_reports (g : rng) :
  let ev := fst (evaluate' g) in
  report_aqi ev = report_rows [0; 1; 2; 3] (y_true_aqi (ev_labels ev))
                              (y_pred_aqi (ev_labels ev)) /\
  report_hr ev = report_rows [0; 1; 2] (y_true_hr (ev_labels ev))
                             (y_pred_hr (ev_labels ev)).
Proof.
  unfold evaluate.
  destruct (generate _ _ _ _ _ _ g []) as [data g1].
  destruct (shuffle data g1) as [sh g2]. split; reflexivity.
Qed.

(** A row whose support is the count of its label has positive support
    exactly when a sample carries the label. *)
Lemma supports_occurrence {A : Type} (proj : A -> Z) (test : list A)
    (rows : list (Z * Metrics)) :
  forall labels,
    map fst rows = labels ->
    map (fun r => support (snd r)) rows
    = map (fun lbl => count_of (fun v => v =? lbl) (map proj test)) labels ->
    Forall (fun r => 0 < support (snd r) <->
                     exists s, In s test /\ proj s = fst r) rows.
Proof.
  induction rows as [|r rows IH]; intros labels Hf Hs; [constructor|].
  destruct labels as [|lbl labels]; [discriminate|].
  cbn [map] in Hf, Hs. injection Hf as Hl Hf. injection Hs as Hc Hs.
  constructor; [|exact (IH labels Hf Hs)].
  rewrite Hc, count_of_label_pos, in_map_iff, Hl.
  split; intros (s & H1 & H2); exists s; split; assumption.
Qed.

(** X17: in every run of [main] both accuracies are exactly 1.0; each of the
    two reports has a row for every label of its space; the support of a
    row is the number of samples of the test partition that carry its
    label; a row has precision = recall = F1 = 1.0 when its label occurs in
    the test partition and all zeros when it does not; and the supports of
    each report add up to the 300 test samples. *)
Theorem main_reports_perfect_scores (g : rng) (cin : list string) :
  let ev := run_evaluation (main' g cin) in
  acc_aqi ev = Some 1%float /\ acc_hr ev = Some 1%float /\
  exists rows_aqi rows_hr,
    report_aqi ev = Some rows_aqi /\ report_hr ev = Some rows_hr /\
    map fst rows_aqi = [0; 1; 2; 3] /\ map fst rows_hr = [0; 1; 2] /\
    Forall (fun r => perfect_or_empty (snd r)) rows_aqi /\
    Forall (fun r => perfect_or_empty (snd r)) rows_hr /\
    sum_supports rows_aqi = 300 /\ sum_supports rows_hr = 300 /\
    map (fun r => support (snd r)) rows_aqi
    = map (fun lbl => count_of (fun v => v =? lbl)
                        (map AQI_Level (ev_test ev))) [0; 1; 2; 3] /\
    map (fun r => support (snd r)) rows_hr
    = map (fun lbl => count_of (fun v => v =? lbl)
                        (map Health_Risk (ev_test ev))) [0; 1; 2] /\
    Forall (fun r => 0 < support (snd r) <->
                     exists s, In s (ev_test ev) /\ AQI_Level s = fst r)
           rows_aqi /\
    Forall (fun r => 0 < support (snd r) <->
                     exists s, In s (ev_test ev) /\ Health_Risk s = fst r)
           rows_hr.
Proof.
  cbv zeta.
  destruct (main_parts rng uniform_real_distribution uniform_int_distribution
              shuffle uninit g cin) as [He _].
  rewrite He.
  destruct (driver_accuracy_perfect rng uniform_real_distribution
              uniform_int_distribution shuffle uninit shuffle_permutes g)
    as [Ha Hh].
  split; [exact Ha|]. split; [exact Hh|].
  destruct (evaluate_structure rng uniform_real_distribution
              uniform_int_distribution shuffle uninit shuffle_permutes g)
    as (_ & (_ & _ & _ & Hn) & (_ & _ & Hlab) & (Eta & Eth & Epa & Eph)).
  destruct (evaluate_reports g) as [Ra Rh].
  set (ev := fst (evaluate' g)) in *.
  rewrite Ra, Rh, Epa, Eph.
  assert (La : length (y_true_aqi (ev_labels ev)) = 300%nat)
    by (rewrite Eta, length_map; exact Hn).
  assert (Lh : length (y_true_hr (ev_labels ev)) = 300%nat)
    by (rewrite Eth, length_map; exact Hn).
  assert (Da : Forall (fun v => 0 <= v <= 3) (y_true_aqi (ev_labels ev))).
  { rewrite Eta. apply Forall_map. eapply Forall_impl; [|exact Hlab].
    intros s [E _]. rewrite E. apply compute_aqi_level_range. }
  assert (Dh : Forall (fun v => 0 <= v <= 2) (y_true_hr (ev_labels ev))).
  { rewrite Eth. apply Forall_map. eapply Forall_impl; [|exact Hlab].
    intros s [_ E]. rewrite E. apply compute_health_risk_range. }
  destruct (report_rows_identical [0; 1; 2; 3] (y_true_aqi (ev_labels ev)))
    as (ra & Hra & Hfa & Hpa & Hsa); [rewrite La; small_length|].
  destruct (report_rows_identical [0; 1; 2] (y_true_hr (ev_labels ev)))
    as (rh & Hrh & Hfh & Hph & Hsh); [rewrite Lh; small_length|].
  assert (Sa : sum_supports ra = 300).
  { destruct ra as [|r0 [|r1 [|r2 [|r3 [|]]]]]; try discriminate.
    cbn [map] in Hsa. injection Hsa as H0 H1 H2 H3.
    cbn [sum_supports fold_right]. rewrite H0, H1, H2, H3.
    pose proof (supports_partition_4 _ Da) as Hs. rewrite La in Hs. lia. }
  assert (Sh : sum_supports rh = 300).
  { destruct rh as [|r0 [|r1 [|r2 [|]]]]; try discriminate.
    cbn [map] in Hsh. injection Hsh as H0 H1 H2.
    cbn [sum_supports fold_right]. rewrite H0, H1, H2.
    pose proof (supports_partition_3 _ Dh) as Hs. rewrite Lh in Hs. lia. }
  rewrite Eta in Hsa. rewrite Eth in Hsh.
  exists ra, rh. repeat (split; [assumption|]).
  split; [exact (supports_occurrence AQI_Level _ _ _ Hfa Hsa)|].
  exact (supports_occurrence Health_Risk _ _ _ Hfh Hsh).
Qed.

End Report.

Lemma main_reports_perfect_scores_witness :
  acc_aqi (run_evaluation
             (main unit (fun a _ g => (a, g)) (fun a _ g => (a, g))
                   (fun l g => (rev l, g)) (fun _ => junk) tt []))
  = Some 1%float.
Proof.
  destruct (main_reports_perfect_scores unit (fun a _ g => (a, g))
              (fun a _ g => (a, g)) (fun l g => (rev l, g))
              (fun _ => junk)
              (fun l _ => Permutation_rev l) tt [])
    as (H & _).
  exact H.
Defined.

(** ** The generated data *)

(** The largest score the generation ranges allow is below 200. *)
Lemma level_below_hazardous (s : Sample) :
  (PM2_5 s <=? 250)%float = true -> (PM10 s <=? 300)%float = true ->
  (NO2 s <=? 200)%float = true -> (O3 s <=? 180)%float = true ->
  0 <= compute_aqi_level s <= 2.
Proof.
  intros H1 H2 H3 H4.
  pose proof (raised_chain s 250 300 200 180 H1 H2 H3 H4) as H.
  assert (E : compute_aqi_level
                (set_O3 (set_NO2 (set_PM10 (set_PM2_5 s 250) 300) 200) 180)
              = 2) by reflexivity.
  rewrite E in H. pose proof (compute_aqi_level_range s). lia.
Qed.

Lemma label_sample_like (s : Sample) :
  (within 10 45 (Temperature s) /\ within 20 90 (Humidity s) /\
   within 300 800 (CO2 s) /\ within 0.5 10 (WindSpeed s)) ->
  (within 5 250 (PM2_5 s) /\ within 10 300 (PM10 s) /\
   within 2 200 (NO2 s) /\ within 5 180 (O3 s)) ->
  0 <= CityType s <= 1 ->
  generated_like (label_sample s).
Proof.
  intros Ho Hp Hc. unfold generated_like.
  destruct Hp as ((? & P1) & (? & P2) & (? & P3) & (? & P4)).
  pose proof (level_below_hazardous s P1 P2 P3 P4) as Hl.
  assert (Ef : label_sample s
               = mkSample (Temperature s) (Humidity s) (CO2 s) (PM2_5 s)
                   (PM10 s) (NO2 s) (O3 s) (WindSpeed s) (CityType s)
                   (compute_aqi_level s)
                   (compute_health_risk
                      (set_AQI_Level s (compute_aqi_level s)))) by reflexivity.
  rewrite Ef.
  cbn [Temperature Humidity CO2 PM2_5 PM10 NO2 O3 WindSpeed CityType
       AQI_Level Health_Risk].
  split; [exact Ho|]. split; [repeat split; assumption|].
  split; [exact Hc|]. split; [exact Hl|].
  unfold risk_table, compute_health_risk, set_AQI_Level.
  cbn [AQI_Level CityType].
  destruct (Z.eqb_spec (compute_aqi_level s) 0),
    (Z.eqb_spec (compute_aqi_level s) 1),
    (Z.eqb_spec (compute_aqi_level s) 2),
    (Z.eqb_spec (compute_aqi_level s) 3),
    (Z.eqb_spec (CityType s) 1), (Z.eqb_spec (CityType s) 0);
    cbn [andb]; try reflexivity; lia.
Qed.

Section GeneratedData.

Variable rng : Type.
Variable uniform_real_distribution : float -> float -> rng -> float * rng.
Variable uniform_int_distribution : Z -> Z -> rng -> Z * rng.
Variable shuffle : list Sample -> rng -> list Sample * rng.
Variable uninit : nat -> Sample.

(** The two distributions return values inside their bounds, and the
    shuffle permutes. *)
Hypothesis real_in_range :
  forall a b g, (a <=? b)%float = true ->
    within a b (fst (uniform_real_distribution a b g)).
Hypothesis int_in_range :
  forall a b g, a <= b -> a <= fst (uniform_int_distribution a b g) <= b.
Hypothesis shuffle_permutes :
  forall l g, Permutation l (fst (shuffle l g)).

#[local] Abbreviation gen_sample' :=
  (gen_sample rng uniform_real_distribution uniform_int_distribution uninit).
#[local] Abbreviation generate' :=
  (generate rng uniform_real_distribution uniform_int_distribution uninit).
#[local] Abbreviation evaluate' :=
  (evaluate rng uniform_real_distribution uniform_int_distribution shuffle
            uninit).
#[local] Abbreviation main' :=
  (main rng uniform_real_distribution uniform_int_distribution shuffle uninit).

Lemma gen_sample_like (i : nat) (g : rng) :
  generated_like (fst (gen_sample' i g)).
Proof.
  unfold gen_sample, rnd_double, rnd_int.
  repeat match goal with
  | |- context [uniform_real_distribution ?a ?b ?g] =>
      let H := fresh "R" in
      pose proof (real_in_range a b g eq_refl) as H;
      destruct (uniform_real_distribution a b g) as [? ?]; cbn [fst] in H
  end.
  match goal with
  | |- context [uniform_int_distribution ?a ?b ?g] =>
      pose proof (int_in_range a b g ltac:(lia)) as RI;
      destruct (uniform_int_distribution a b g) as [city g']; cbn [fst] in RI
  end.
  cbn [fst].
  repeat match goal with H : within _ _ _ |- _ => destruct H end.
  apply label_sample_like;
    cbn [Temperature Humidity CO2 PM2_5 PM10 NO2 O3 WindSpeed CityType];
    repeat split; assumption || lia.
Qed.

Lemma generate_like (steps : nat) :
  forall i g data,
    Forall generated_like data ->
    Forall generated_like (fst (generate' steps i g data)).
Proof.
  induction steps as [|k IH]; intros i g data Hd; [exact Hd|].
  cbn [generate]. pose proof (gen_sample_like i g) as Hs.
  destruct (gen_sample' i g) as [s g1]. apply IH.
  apply Forall_app. split; [exact Hd | now constructor].
Qed.

Lemma count_of_absent (l : list Z) (label : Z) :
  Forall (fun v => v <> label) l -> count_of (fun v => v =? label) l = 0.
Proof.
  intros H. apply count_of_none. intros x Hx.
  rewrite Forall_forall in H. apply Z.eqb_neq. now apply H.
Qed.

(** X18: when the two distributions return values inside their bounds, every
    generated sample has its fields inside the ranges of the generation
    loop, a city type of 0 or 1, the health risk of the table, and an AQI
    level of at most 2: the largest score the ranges allow is below 200.
    No generated sample is Hazardous, and row 3 of the AQI report is always
    the row of zeros. *)
Theorem generated_data_never_hazardous (g : rng) (cin : list string) :
  let ev := run_evaluation (main' g cin) in
  Forall generated_like (ev_data ev) /\
  Forall generated_like (ev_test ev) /\
  exists rows,
    report_aqi ev = Some rows /\
    nth_error rows 3 = Some (3, mkMetrics 0 0 0 0).
Proof.
  cbv zeta.
  destruct (main_parts rng uniform_real_distribution uniform_int_distribution
              shuffle uninit g cin) as [He _].
  rewrite He.
  destruct (evaluate_structure rng uniform_real_distribution
              uniform_int_distribution shuffle uninit shuffle_permutes g)
    as (_ & (Hperm & Happ & _ & Hn) & _ & (Eta & _ & Epa & _)).
  destruct (evaluate_reports rng uniform_real_distribution
              uniform_int_distribution shuffle uninit g) as [Ra _].
  pose proof (generate_like (Z.to_nat N) 0%nat g [] (Forall_nil _)) as Hgen.
  set (ev := fst (evaluate' g)) in *.
  assert (Hdata : Forall generated_like (ev_data ev))
    by (eapply Permutation_Forall; [exact Hperm | exact Hgen]).
  assert (Htest : Forall generated_like (ev_test ev)).
  { rewrite <- Happ in Hdata. apply Forall_app in Hdata. apply Hdata. }
  split; [exact Hdata|]. split; [exact Htest|].
  rewrite Ra, Epa.
  destruct (report_rows_identical [0; 1; 2; 3] (y_true_aqi (ev_labels ev)))
    as (rows & Hr & Hf & Hp & Hs).
  { rewrite Eta, length_map, Hn. small_length. }
  exists rows. split; [exact Hr|].
  destruct rows as [|r0 [|r1 [|r2 [|[l3 m3] [|]]]]]; try discriminate.
  cbn [map fst] in Hf. injection Hf as _ _ _ E3. subst l3.
  cbn [map snd] in Hs. injection Hs as _ _ _ S3.
  assert (C3 : count_of (fun v => v =? 3) (y_true_aqi (ev_labels ev)) = 0).
  { apply count_of_absent. rewrite Eta. apply Forall_map.
    eapply Forall_impl; [|exact Htest].
    intros s (_ & _ & _ & Hl & _). lia. }
  rewrite C3 in S3.
  apply Forall_inv_tail, Forall_inv_tail, Forall_inv_tail, Forall_inv in Hp.
  cbn [snd] in Hp, S3. cbn [nth_error]. destruct m3 as [p r f s].
  unfold perfect_or_empty in Hp. cbn [support precision recall f1] in Hp, S3.
  destruct Hp as [(Hpos & _)|(_ & -> & -> & ->)]; [lia|]. now subst s.
Qed.

End GeneratedData.

Lemma leb_refl_of_leb (a b : float) :
  (a <=? b)%float = true -> (a <=? a)%float = true.
Proof.
  rewrite !FloatAxioms.leb_spec. unfold SFleb.
  destruct (Prim2SF a) as [[]|[]| |[] m e], (Prim2SF b) as [[]|[]| |[] m' e'];
    cbn; try discriminate; try reflexivity; intros _;
    rewrite Z.compare_refl, ?Pos.compare_cont_refl; reflexivity.
Qed.

Lemma generated_data_never_hazardous_witness :
  Forall generated_like
    (ev_test (run_evaluation
       (main unit (fun a _ g => (a, g)) (fun a _ g => (a, g))
             (fun l g => (rev l, g)) (fun _ => junk) tt []))).
Proof.
  destruct (generated_data_never_hazardous unit (fun a _ g => (a, g))
              (fun a _ g => (a, g)) (fun l g => (rev l, g))
              (fun _ => junk)
              (fun a b _ H => conj (leb_refl_of_leb a b H) H)
              (fun a b _ H => conj (Z.le_refl a) H)
              (fun l _ => Permutation_rev l) tt [])
    as (_ & H & _).
  exact H.
Defined.
